(** * Customer segmentation of the shrink pipeline

    A shallow embedding of [src/cust_seg.py] (class [CustSeg]) and of the
    parts of [src/run_pipeline.py] that drive it or stand on their own
    ([run_cust_seg], the standardising blocks, the head of [run_forc_model]
    and its list of columns), with the properties the specification states
    about them and further properties read off the code.

    Conventions of the embedding:
    - a pandas [DataFrame] is an object of a heap; attributes of [self]
      hold locations, so that in-place updates ([set_index(inplace=True)],
      [del t[c]], [t[c] = v]) and copies ([copy()], [join]) are told apart;
    - a Python exception is the [Raise] outcome of a computation; the heap
      reached when it was raised is kept, as a [try]/[except] needs it;
    - [float64] cells are exact rationals ([Q]) or the missing marker;
      rounding is not modelled;
    - a [datetime64] cell is a day number, so that [(d2 - d1).days] is
      [d2 - d1];
    - [/] is the true division of Python 3 (the column it fills has to be
      [float64] for [_cluster] to find its name among the float columns). *)

From Stdlib Require Import QArith OrdersEx.
From stdpp Require Import base option list strings sorting pretty gmap.

(** ** Sorted group keys

    [DataFrame.groupby] (with its default [sort=True]) yields one group per
    distinct key, in increasing key order. *)

Class OrdKey (K : Type) := kcmp : K → K → comparison.

Definition klt {K} `{OrdKey K} (x y : K) : Prop := kcmp x y = Lt.

#[export] Instance Z_key : OrdKey Z := Z.compare.
#[export] Instance string_key : OrdKey string := String_as_OT.compare.

(** Keys of a two-level group ([groupby(['address1', 'visit_date'])]) are
    ordered lexicographically. *)
#[export] Instance pair_key {A B} `{OrdKey A, OrdKey B} : OrdKey (A * B) :=
  λ p q, match kcmp p.1 q.1 with
         | Eq => kcmp p.2 q.2
         | c => c
         end.

(** Insertion of a key in an increasing list without repetition. *)
Fixpoint kinsert {K} `{OrdKey K} (x : K) (l : list K) : list K :=
  match l with
  | [] => [x]
  | y :: l' =>
      match kcmp x y with
      | Lt => x :: l
      | Eq => l
      | Gt => y :: kinsert x l'
      end
  end.

(** The group keys of a key column. *)
Definition group_keys {K} `{OrdKey K} (l : list K) : list K :=
  foldr kinsert [] l.

(** ** Cells, columns and frames *)

Inductive value :=
  | VFloat (q : Q)     (* a finite float64 *)
  | VNaN               (* the missing marker of float64 and object columns *)
  | VInt (z : Z)
  | VStr (s : string)
  | VDate (d : Z)      (* a Timestamp, as a day number *)
  | VNaT.

Inductive dtype := float64 | int64 | object | datetime64.

Record column := Column {
  cname : string;
  cdtype : dtype;
  cvals : list value
}.

(** A table: the row labels and the columns, in the order pandas keeps. *)
Record frame := Frame {
  findex : list value;
  fcols : list column
}.

#[export] Instance Q_eq_dec : EqDecision Q.
Proof. solve_decision. Defined.
#[export] Instance value_eq_dec : EqDecision value.
Proof. solve_decision. Defined.
#[export] Instance dtype_eq_dec : EqDecision dtype.
Proof. solve_decision. Defined.

(** One row of the transactional table [df]: a store-visit-item
    observation, with the columns [CustSeg] reads.  [None] is a missing
    cell.  Rows without an [address1] belong to no group and match no
    store, so they are left out.  [item] is the identifier (UPC) of the
    observed item; the code never reads it. *)
Record txn := Txn {
  address1 : string;
  visit_date : option Z;
  item : string;
  qty_shrink_per_day : option Q;
  shrink_value_per_day : option Q;
  POP2010 : option Q;
  FD_ratio : option Q;
  unemp_rate : option Q;
  dens_sq_mile : option Q
}.

(** ** Outcomes, heap and files *)

Inductive exn :=
  KeyError | IndexError | ValueError | AttributeError | IOError.

Inductive res (A : Type) := Ok (a : A) | Raise (e : exn).
Arguments Ok {A} a.
Arguments Raise {A} e.

Definition res_bind {A B} (r : res A) (k : A → res B) : res B :=
  match r with
  | Ok a => k a
  | Raise e => Raise e
  end.

Fixpoint res_mapM {A B} (f : A → res B) (l : list A) : res (list B) :=
  match l with
  | [] => Ok []
  | x :: l' =>
      res_bind (f x) (λ y, res_bind (res_mapM f l') (λ ys, Ok (y :: ys)))
  end.

Definition loc := nat.

Inductive obj :=
  | Txns (rows : list txn)     (* a transactional DataFrame *)
  | Table (t : frame).         (* any other DataFrame *)

(** The state a run can see and change: the objects, the pickled tables
    under [../data/SRP/], whether that directory can be written, the state
    of numpy's global random generator (which [KMeans] draws from, as no
    [random_state] is passed) and the feature matrices handed to
    [KMeans.fit_predict] so far. *)
Record world := World {
  heap : list obj;
  files : gmap string frame;
  writable : bool;
  rng : N;
  kmeans_calls : list (nat * frame)
}.

Definition set_heap (h : list obj) (w : world) : world :=
  World h (files w) (writable w) (rng w) (kmeans_calls w).
Definition set_files (f : gmap string frame) (w : world) : world :=
  World (heap w) f (writable w) (rng w) (kmeans_calls w).
Definition set_rng (g : N) (w : world) : world :=
  World (heap w) (files w) (writable w) g (kmeans_calls w).
Definition log_kmeans (c : nat * frame) (w : world) : world :=
  World (heap w) (files w) (writable w) (rng w) (kmeans_calls w ++ [c]).

(** Stateful, fallible computations. *)
Definition M (A : Type) : Type := world → res A * world.

#[export] Instance M_ret : MRet M := λ A a w, (Ok a, w).

#[export] Instance M_bind : MBind M := λ A B k m w,
  match m w with
  | (Ok a, w') => k a w'
  | (Raise e, w') => (Raise e, w')
  end.

Definition raise {A} (e : exn) : M A := λ w, (Raise e, w).

Definition lift {A} (r : res A) : M A := λ w, (r, w).

(** A call into a library that may draw random numbers. *)
Definition lib (A : Type) : Type := N → res A * N.

Definition call {A} (c : lib A) : M A :=
  λ w, let '(r, g) := c (rng w) in (r, set_rng g w).

(** [try: return m / except: pass], followed by [rest]. *)
Definition try_return {A} (m : M A) (rest : M A) : M A :=
  λ w, match m w with
       | (Ok a, w') => (Ok a, w')
       | (Raise _, w') => rest w'
       end.

(** [try: m / except: pass]. *)
Definition try_pass (m : M unit) : M unit :=
  λ w, match m w with
       | (Ok _, w') => (Ok (), w')
       | (Raise _, w') => (Ok (), w')
       end.

Fixpoint mapM {A B} (f : A → M B) (l : list A) : M (list B) :=
  match l with
  | [] => mret []
  | x :: l' => y ← f x; ys ← mapM f l'; mret (y :: ys)
  end.

Definition attr {A} (o : option A) : M A :=
  match o with
  | Some a => mret a
  | None => raise AttributeError
  end.

Definition alloc (o : obj) : M loc :=
  λ w, (Ok (length (heap w)), set_heap (heap w ++ [o]) w).

Definition read_table (l : loc) : M frame :=
  λ w, match heap w !! l with
       | Some (Table t) => (Ok t, w)
       | _ => (Raise AttributeError, w)
       end.

Definition read_txns (l : loc) : M (list txn) :=
  λ w, match heap w !! l with
       | Some (Txns rows) => (Ok rows, w)
       | _ => (Raise AttributeError, w)
       end.

Definition write_table (l : loc) (t : frame) : M unit :=
  λ w, (Ok (), set_heap (<[l := Table t]> (heap w)) w).

(** An in-place operation on the table at [l]. *)
Definition update_table (l : loc) (f : frame → res frame) : M unit :=
  t ← read_table l; t' ← lift (f t); write_table l t'.

(** [pd.read_pickle(path)]: a new object holding the stored table. *)
Definition read_pickle (path : string) : M loc :=
  λ w, match files w !! path with
       | Some t => alloc (Table t) w
       | None => (Raise IOError, w)
       end.

Definition write_file (path : string) (t : frame) : M unit :=
  λ w, if writable w then (Ok (), set_files (<[path := t]> (files w)) w)
       else (Raise IOError, w).

(** [t.to_pickle(path)]. *)
Definition to_pickle (l : loc) (path : string) : M unit :=
  t ← read_table l; write_file path t.

(** ** Operations on frames *)

Definition nrows (t : frame) : nat := length (findex t).

Definition columns (t : frame) : list string := cname <$> fcols t.

(** [t[c]]. *)
Definition get_col (c : string) (t : frame) : res column :=
  match list_find (λ col, cname col = c) (fcols t) with
  | Some (_, col) => Ok col
  | None => Raise KeyError
  end.

(** [t[cs]] for a list of names: a new frame. *)
Definition select (cs : list string) (t : frame) : res frame :=
  res_bind (res_mapM (λ c, get_col c t) cs) (λ cols, Ok (Frame (findex t) cols)).

(** [del t[c]]. *)
Definition del_col (c : string) (t : frame) : res frame :=
  if decide (c ∈ columns t)
  then Ok (Frame (findex t) (filter (λ col, cname col ≠ c) (fcols t)))
  else Raise KeyError.

(** [t[c] = values]: the column is replaced where it stands, or appended;
    the values must be as many as the rows. *)
Definition set_col (col : column) (t : frame) : res frame :=
  if decide (length (cvals col) = nrows t)
  then
    if decide (cname col ∈ columns t)
    then Ok (Frame (findex t)
               ((λ c, if decide (cname c = cname col) then col else c) <$> fcols t))
    else Ok (Frame (findex t) (fcols t ++ [col]))
  else Raise ValueError.

(** [t.reset_index()], the index being named [name]. *)
Definition reset_index (name : string) (t : frame) : frame :=
  Frame ((λ i, VInt (Z.of_nat i)) <$> seq 0 (nrows t))
        (Column name object (findex t) :: fcols t).

(** [t.set_index(c, inplace=True)]. *)
Definition set_index (c : string) (t : frame) : res frame :=
  res_bind (get_col c t) (λ col,
    Ok (Frame (cvals col) (filter (λ col, cname col ≠ c) (fcols t)))).

(** *** Left join on the index

    Every row of the left table is kept, once per row of the right table
    with the same label, or once with missing cells when there is none.
    A right column that receives a missing cell is upcast. *)

Fixpoint positions (k : value) (idx : list value) (j : nat) : list nat :=
  match idx with
  | [] => []
  | x :: idx' =>
      if decide (x = k) then j :: positions k idx' (S j)
      else positions k idx' (S j)
  end.

Fixpoint join_plan (lidx : list value) (i : nat) (ridx : list value)
  : list (nat * option nat) :=
  match lidx with
  | [] => []
  | k :: lidx' =>
      match positions k ridx 0 with
      | [] => [(i, None)]
      | js => (λ j, (i, Some j)) <$> js
      end ++ join_plan lidx' (S i) ridx
  end.

Definition null_of (d : dtype) : value :=
  match d with
  | datetime64 => VNaT
  | _ => VNaN
  end.

Definition upcast (d : dtype) : dtype :=
  match d with
  | int64 => float64
  | d => d
  end.

Definition as_float (v : value) : value :=
  match v with
  | VInt z => VFloat (inject_Z z)
  | v => v
  end.

Definition take_left (plan : list (nat * option nat)) (c : column) : column :=
  Column (cname c) (cdtype c)
         ((λ p, default VNaN (cvals c !! p.1)) <$> plan).

Definition take_right (plan : list (nat * option nat)) (c : column) : column :=
  if decide (Forall (λ p, is_Some p.2) plan)
  then Column (cname c) (cdtype c)
         ((λ p, default VNaN (j ← p.2; cvals c !! j)) <$> plan)
  else Column (cname c) (upcast (cdtype c))
         ((λ p, match p.2 with
                | Some j => as_float (default VNaN (cvals c !! j))
                | None => null_of (cdtype c)
                end) <$> plan).

(** [l.join(r, how='left')]; overlapping column names are refused. *)
Definition join (l r : frame) : res frame :=
  if decide (Exists (λ c, c ∈ columns r) (columns l))
  then Raise ValueError
  else
    let plan := join_plan (findex l) 0 (findex r) in
    Ok (Frame ((λ p, default VNaN (findex l !! p.1)) <$> plan)
              ((take_left plan <$> fcols l) ++ (take_right plan <$> fcols r))).

(** ** Grouping the transactions *)

Definition Qsum (l : list Q) : Q := foldr Qplus 0%Q l.

(** [Series.mean()]: missing cells are skipped; no cell, no mean. *)
Definition mean (l : list (option Q)) : option Q :=
  match omap id l with
  | [] => None
  | xs => Some (Qsum xs / inject_Z (Z.of_nat (length xs)))%Q
  end.

Definition cell (o : option Q) : value :=
  match o with
  | Some q => VFloat q
  | None => VNaN
  end.

(** [df[df.address1 == add]]. *)
Definition store_rows (rows : list txn) (add : value) : list txn :=
  filter (λ r, VStr (address1 r) = add) rows.

Definition mean_col (name : string) (f : txn → option Q)
    (rows : list txn) (adds : list string) : column :=
  Column name float64
    ((λ a, cell (mean (f <$> store_rows rows (VStr a)))) <$> adds).

(** [df.groupby(['address1']).mean()[[...six columns...]]]. *)
Definition groupby_address1_mean (rows : list txn) : frame :=
  let adds := group_keys (address1 <$> rows) in
  Frame (VStr <$> adds)
    [ mean_col "qty_shrink_per_day" qty_shrink_per_day rows adds;
      mean_col "shrink_value_per_day" shrink_value_per_day rows adds;
      mean_col "POP2010" POP2010 rows adds;
      mean_col "FD_ratio" FD_ratio rows adds;
      mean_col "unemp_rate" unemp_rate rows adds;
      mean_col "dens_sq_mile" dens_sq_mile rows adds ].

(** The key of a row under [groupby(['address1', 'visit_date'])]; a row
    without a date is in no group. *)
Definition visit_key (r : txn) : option (string * Z) :=
  d ← visit_date r; Some (address1 r, d).

(** [df.groupby(['address1', 'visit_date']).count()], reduced to its index
    and its column [qty_shrink_per_day]: per group, the number of rows whose
    [qty_shrink_per_day] is present. *)
Definition groupby_visit_count (rows : list txn) : list ((string * Z) * nat) :=
  (λ k, (k, length (filter (λ r, visit_key r = Some k
                                 ∧ is_Some (qty_shrink_per_day r)) rows)))
    <$> group_keys (omap visit_key rows).

(** The table [foo] of [_add_cols]: the counts above, copied to a column
    [avg_UPC_per_visit], then averaged per [address1]. *)
Definition avg_UPC_per_visit_table (rows : list txn) : frame :=
  let foo := groupby_visit_count rows in
  let adds := group_keys ((λ g, g.1.1) <$> foo) in
  Frame (VStr <$> adds)
    [ Column "avg_UPC_per_visit" float64
        ((λ a, cell (mean ((λ g, Some (inject_Z (Z.of_nat g.2)))
                             <$> filter (λ g, g.1.1 = a) foo))) <$> adds) ].

(** ** StdScale *)

Definition num (v : value) : option Q :=
  match v with
  | VFloat q => Some q
  | VInt z => Some (inject_Z z)
  | _ => None
  end.

Definition numeric (c : column) : bool :=
  bool_decide (cdtype c = float64 ∨ cdtype c = int64).

(** The fitted mean and deviation of one column. *)
Definition col_params : Type := option Q * option Q.

(** Modelled from the spec: the state of a [StdScale], of the module
    [std_scale] that is not among the sources: its two flags ([std]: take
    the mean off; [scale]: divide by the deviation) and the parameters its
    last [fit] left. *)
Record StdScale := mkStdScale {
  std : bool;
  scale : bool;
  fitted : option (list (string * col_params))
}.

Section Pipeline.

(** The deviation of the present cells of a column, as the module
    [std_scale], which is not among the sources, computes it. *)
Variable stdev : list Q → Q.

(** [sklearn.cluster.KMeans(n_clusters=k, max_iter=10000, tol=0.00001,
    n_jobs=-1).fit_predict(X)]. *)
Variable KMeans_lib : nat → frame → lib (list nat).

(** The body of [plot_clust] past its column selection ([PCA], the scatter
    plots per cluster and [savefig]) and the body of [plot_ss] past its
    column selection (module [clust_functions]). *)
Variable plot_clust_lib : frame → list value → lib unit.
Variable plot_ss_lib : frame → lib unit.

(** [PublicData(include_crime=False, remove_nan_rows=True).fit_transform]. *)
Variable PublicData_lib : list txn → lib (list txn).

(** Modelled from the spec: [StdScale.fit], module [std_scale] not being
    among the sources.  [fit] computes the per-column mean (and, when
    scaling is on, the deviation) of the numeric columns of a reference
    table. *)
Definition StdScale_fit (ss : StdScale) (X : frame) : StdScale :=
  mkStdScale (std ss) (scale ss)
    (Some ((λ c, (cname c,
                  match omap num (cvals c) with
                  | [] => (None, None)
                  | xs => (Some (Qsum xs / inject_Z (Z.of_nat (length xs)))%Q,
                           if scale ss then Some (stdev xs) else None)
                  end)) <$> filter (λ c, numeric c = true) (fcols X))).

(** Modelled from the spec: what [StdScale.transform] (module [std_scale],
    not among the sources) does to a cell: [(x - mean) / std], or the
    centring alone when scaling is off.  A missing cell stays missing. *)
Definition rescale (ss : StdScale) (p : col_params) (v : value) : value :=
  match num v with
  | None => VNaN
  | Some x =>
      match (if std ss then (λ m, x - m)%Q <$> p.1 else Some x) with
      | None => VNaN
      | Some y =>
          if scale ss
          then match p.2 with
               | Some s => if Qeq_bool s 0 then VNaN else VFloat (y / s)%Q
               | None => VNaN
               end
          else VFloat y
      end
  end.

(** Modelled from the spec: [StdScale.transform] (module [std_scale], not
    among the sources) applies the fitted parameters to the numeric columns
    of a table with matching columns and leaves the other columns as they
    are; the result is a new table. *)
Definition StdScale_transform (ss : StdScale) (X : frame) : res frame :=
  match fitted ss with
  | None => Raise AttributeError
  | Some ps =>
      res_bind
        (res_mapM (λ c,
           if numeric c
           then match list_find (λ p, p.1 = cname c) ps with
                | Some (_, p) =>
                    Ok (Column (cname c) float64 (rescale ss p.2 <$> cvals c))
                | None => Raise KeyError
                end
           else Ok c) (fcols X))
        (λ cols, Ok (Frame (findex X) cols))
  end.

(** [TransformerMixin.fit_transform]: [self.fit(X).transform(X)]. *)
Definition StdScale_fit_transform (ss : StdScale) (X : frame)
  : StdScale * res frame :=
  let ss' := StdScale_fit ss X in (ss', StdScale_transform ss' X).

(** ** CustSeg *)

Record CustSeg := mkCustSeg {
  clusters : nat;
  plot_clusts : bool;
  plot_sil : bool;
  df : option loc;
  cust_table : option loc;
  std_cust_table : option loc;
  shrink_cust_cols : option (list string)
}.

(** [CustSeg(clusters, plot_clusts, plot_sil)]. *)
Definition CustSeg_init (k : nat) (pc ps : bool) : CustSeg :=
  mkCustSeg k pc ps None None None None.

Definition set_df (l : loc) (self : CustSeg) : CustSeg :=
  mkCustSeg (clusters self) (plot_clusts self) (plot_sil self)
    (Some l) (cust_table self) (std_cust_table self) (shrink_cust_cols self).
Definition set_cust_table (l : loc) (self : CustSeg) : CustSeg :=
  mkCustSeg (clusters self) (plot_clusts self) (plot_sil self)
    (df self) (Some l) (std_cust_table self) (shrink_cust_cols self).
Definition set_std_cust_table (l : loc) (self : CustSeg) : CustSeg :=
  mkCustSeg (clusters self) (plot_clusts self) (plot_sil self)
    (df self) (cust_table self) (Some l) (shrink_cust_cols self).
Definition set_shrink_cust_cols (cs : list string) (self : CustSeg) : CustSeg :=
  mkCustSeg (clusters self) (plot_clusts self) (plot_sil self)
    (df self) (cust_table self) (std_cust_table self) (Some cs).

(** The index of [foo] in [_last_visit] and [_days_between_visits]:
    [self.df[self.df.address1 == add].groupby(['address1',
    'visit_date']).count()]. *)
Definition visits_of (rows : list txn) (add : value) : list (string * Z) :=
  fst <$> groupby_visit_count (store_rows rows add).

(** The body of [_last_visit] once [self.df] is read:
    [num_visits = len(foo)], then [foo.index[num_visits - 1][1]]; on an
    empty [foo] the index [-1] is out of range. *)
Definition last_visit_of (rows : list txn) (add : value) : res value :=
  let foo := visits_of rows add in
  let num_visits := length foo in
  match foo !! (num_visits - 1)%nat with
  | Some k => Ok (VDate k.2)
  | None => Raise IndexError
  end.

(** The body of [_days_between_visits] once [self.df] is read:
    [first_visit = foo.index[0][1]], [last_visit = foo.index[num_visits -
    1][1]], then [(last_visit - first_visit).days / num_visits]. *)
Definition days_between_visits_of (rows : list txn) (add : value) : res value :=
  let foo := visits_of rows add in
  let num_visits := length foo in
  match foo !! 0%nat with
  | None => Raise IndexError
  | Some first =>
      match foo !! (num_visits - 1)%nat with
      | None => Raise IndexError
      | Some last =>
          Ok (VFloat (inject_Z (last.2 - first.2)
                      / inject_Z (Z.of_nat num_visits))%Q)
      end
  end.

(** [_last_visit(self, row)] and [_days_between_visits(self, row)], with
    [add = row.name], the label of the row. *)
Definition _last_visit (self : CustSeg) (add : value) : M value :=
  l ← attr (df self);
  rows ← read_txns l;
  lift (last_visit_of rows add).

Definition _days_between_visits (self : CustSeg) (add : value) : M value :=
  l ← attr (df self);
  rows ← read_txns l;
  lift (days_between_visits_of rows add).

(** [t.apply(f, axis=1)] for an [f] that reads the label of its row only. *)
Definition apply_rows (f : value → M value) (l : loc) : M (list value) :=
  t ← read_table l; mapM f (findex t).

(** [_add_cols]: [self.cust_table = self.cust_table.join(foo)], then
    [self.cust_table['days_between_visits'] =
    self.cust_table.apply(self._days_between_visits, axis=1)] and the same
    for [last_visit]. *)
Definition _add_cols (self : CustSeg) : M CustSeg :=
  l ← attr (df self);
  rows ← read_txns l;
  let foo := avg_UPC_per_visit_table rows in
  ct ← attr (cust_table self);
  t ← read_table ct;
  t' ← lift (join t foo);
  ct' ← alloc (Table t');
  let self := set_cust_table ct' self in
  days ← apply_rows (_days_between_visits self) ct';
  update_table ct' (set_col (Column "days_between_visits" float64 days));;
  last ← apply_rows (_last_visit self) ct';
  update_table ct' (set_col (Column "last_visit" datetime64 last));;
  mret self.

(** [build_cust_table]: the per-store means with [reset_index()], then
    [set_index('address1', inplace=True)]; the left join with the pickled
    address table; the two [del] under [try]; [_add_cols]. *)
Definition build_cust_table (self : CustSeg) : M CustSeg :=
  l ← attr (df self);
  rows ← read_txns l;
  ct ← alloc (Table (reset_index "address1" (groupby_address1_mean rows)));
  let self := set_cust_table ct self in
  update_table ct (set_index "address1");;
  cust_add_table ← read_pickle "../data/SRP/custs_by_address.pkl";
  t ← read_table ct;
  r ← read_table cust_add_table;
  t' ← lift (join t r);
  ct' ← alloc (Table t');
  let self := set_cust_table ct' self in
  try_pass (update_table ct' (del_col "latitude");;
            update_table ct' (del_col "longitude"));;
  _add_cols self.

(** [_std_cust_table]: [self.std_cust_table = self.cust_table.copy()],
    [ss = StdScale(std=True, scale=False)], [self.std_cust_table =
    ss.fit_transform(self.std_cust_table)]. *)
Definition _std_cust_table (self : CustSeg) : M CustSeg :=
  ct ← attr (cust_table self);
  t ← read_table ct;
  sl ← alloc (Table t);
  let self := set_std_cust_table sl self in
  let ss := mkStdScale true false None in
  X ← read_table sl;
  let '(ss, r) := StdScale_fit_transform ss X in
  X' ← lift r;
  sl' ← alloc (Table X');
  mret (set_std_cust_table sl' self).

(** [l.remove(x)]: the first occurrence goes; none is an error. *)
Fixpoint list_remove (x : string) (l : list string) : res (list string) :=
  match l with
  | [] => Raise ValueError
  | y :: l' =>
      if decide (y = x) then Ok l'
      else res_bind (list_remove x l') (λ r, Ok (y :: r))
  end.

(** [pred.astype(str)]. *)
Definition astype_str (pred : list nat) : list value :=
  (λ n, VStr (pretty n)) <$> pred.

(** The call of [KMeans.fit_predict]: the matrix is recorded, the library
    runs on the state of the random generator and leaves a new one. *)
Definition KMeans_fit_predict (k : nat) (X : frame) : M (list nat) :=
  (λ w, (Ok (), log_kmeans (k, X) w)) ≫= λ _, call (KMeans_lib k X).

(** [_cluster]: the names of the columns of [self.cust_table] whose dtype
    is [float], less the two removed; [fit_predict] on those columns of
    [self.std_cust_table]; [pred.astype(str)] written to both tables. *)
Definition _cluster (self : CustSeg) : M CustSeg :=
  ct ← attr (cust_table self);
  t ← read_table ct;
  let shrink_cust_mask := filter (λ c, cdtype c = float64) (fcols t) in
  let cols := cname <$> shrink_cust_mask in
  cols ← lift (list_remove "avg_UPC_per_visit" cols);
  cols ← lift (list_remove "days_between_visits" cols);
  let self := set_shrink_cust_cols cols self in
  sl ← attr (std_cust_table self);
  st ← read_table sl;
  X ← lift (select cols st);
  pred ← KMeans_fit_predict (clusters self) X;
  update_table sl (set_col (Column "cluster" object (astype_str pred)));;
  update_table ct (set_col (Column "cluster" object (astype_str pred)));;
  mret self.

(** [plot_clust(self, cust_table)] and [plot_ss(self, cust_table)]: the
    selection [cust_table[self.shrink_cust_cols]], then the libraries. *)
Definition plot_clust (self : CustSeg) (l : loc) : M unit :=
  cols ← attr (shrink_cust_cols self);
  t ← read_table l;
  X ← lift (select cols t);
  c ← lift (get_col "cluster" t);
  call (plot_clust_lib X (cvals c)).

Definition plot_ss (self : CustSeg) (l : loc) : M unit :=
  cols ← attr (shrink_cust_cols self);
  t ← read_table l;
  X ← lift (select cols t);
  call (plot_ss_lib X).

(** [fit(self, df, y=None)]: [return self]. *)
Definition fit (self : CustSeg) (df : loc) : M CustSeg := mret self.

(** [transform(self, df)]: [self.df = df.copy()], the three steps, the
    plots asked for, [to_pickle], [return self.cust_table]. *)
Definition transform (self : CustSeg) (df : loc) : M (CustSeg * loc) :=
  rows ← read_txns df;
  l ← alloc (Txns rows);
  let self := set_df l self in
  self ← build_cust_table self;
  self ← _std_cust_table self;
  self ← _cluster self;
  (if plot_clusts self
   then sl ← attr (std_cust_table self); plot_clust self sl
   else mret ());;
  (if plot_sil self
   then sl ← attr (std_cust_table self); plot_ss self sl
   else mret ());;
  ct ← attr (cust_table self);
  to_pickle ct "../data/SRP/cust_table_out.pkl";;
  mret (self, ct).

(** [TransformerMixin.fit_transform]: [self.fit(X).transform(X)]. *)
Definition fit_transform (self : CustSeg) (df : loc) : M (CustSeg * loc) :=
  self ← fit self df; transform self df.

(** ** run_pipeline *)

(** [pub.fit_transform(df)]: the table [PublicData] returns is an object
    of its own. *)
Definition PublicData_fit_transform (df : loc) : M loc :=
  rows ← read_txns df;
  rows' ← call (PublicData_lib rows);
  alloc (Txns rows').

(** [run_cust_seg(df, load_table, num_clusts, plot_clusts, plot_sil)]:
    under [load_table], [try: return pd.read_pickle(...) / except: pass];
    then [PublicData] and [CustSeg(...).fit_transform(df_public)]. *)
Definition run_cust_seg (df : loc) (load_table : bool) (num_clusts : nat)
    (plot_clusts plot_sil : bool) : M loc :=
  let rest :=
    df_public ← PublicData_fit_transform df;
    let cs := CustSeg_init num_clusts plot_clusts plot_sil in
    '(_, cust_table) ← fit_transform cs df_public;
    mret cust_table in
  if load_table
  then try_return (read_pickle "../data/SRP/cust_table_out.pkl") rest
  else rest.

(** The standardising block of [run_pred_model] (lines 85 to 88), on the
    partitions [Split] returned: one scaler, [fit_transform] on each table.
    The scaler is returned with the two standardised tables. *)
Definition run_pred_model_standardize (X_train X_test : frame)
  : StdScale * res frame * res frame :=
  let ss := mkStdScale true true None in
  let '(ss, X_train_ss) := StdScale_fit_transform ss X_train in
  let '(ss, X_test_ss) := StdScale_fit_transform ss X_test in
  (ss, X_train_ss, X_test_ss).

(** The standardising block of [run_forc_model] (lines 150 to 154). *)
Definition run_forc_model_standardize (X X_train X_test : frame)
  : StdScale * res frame * res frame * res frame :=
  let ss := mkStdScale true true None in
  let '(ss, X_ss) := StdScale_fit_transform ss X in
  let '(ss, X_train_ss) := StdScale_fit_transform ss X_train in
  let '(ss, X_test_ss) := StdScale_fit_transform ss X_test in
  (ss, X_ss, X_train_ss, X_test_ss).

End Pipeline.

(** ** The tables a run leaves behind, as values

    What [build_cust_table], [_std_cust_table] and [_cluster] compute, with
    the heap taken away; the properties below relate them to the runs. *)

(** [try: del t['latitude']; del t['longitude'] / except: pass]. *)
Definition drop_coords (t : frame) : frame :=
  match del_col "latitude" t with
  | Ok t' =>
      match del_col "longitude" t' with
      | Ok t'' => t''
      | Raise _ => t'
      end
  | Raise _ => t
  end.

Definition add_cols_of (rows : list txn) (t : frame) : res frame :=
  res_bind (join t (avg_UPC_per_visit_table rows)) (λ t2,
  res_bind (res_mapM (days_between_visits_of rows) (findex t2)) (λ days,
  res_bind (set_col (Column "days_between_visits" float64 days) t2) (λ ta,
  res_bind (res_mapM (last_visit_of rows) (findex ta)) (λ lasts,
  set_col (Column "last_visit" datetime64 lasts) ta)))).

Definition feature_cols (t : frame) : res (list string) :=
  res_bind
    (list_remove "avg_UPC_per_visit"
       (cname <$> filter (λ c, cdtype c = float64) (fcols t)))
    (list_remove "days_between_visits").

Definition with_cluster (pred : list nat) (t : frame) : res frame :=
  set_col (Column "cluster" object (astype_str pred)) t.

(** The plots read the standardised table and draw random numbers; they
    leave the objects, the files and the record of [KMeans] calls alone. *)
Definition same_but_rng (w w' : world) : Prop :=
  heap w' = heap w ∧ files w' = files w ∧ writable w' = writable w
  ∧ kmeans_calls w' = kmeans_calls w.

(** ** The quantities the specification speaks of *)

(** The visit dates recorded for a store, one per transaction row that has
    a date. *)
Definition store_dates (rows : list txn) (a : string) : list Z :=
  omap visit_date (filter (λ r, address1 r = a) rows).

(** The rows of one (store, visit-date) group. *)
Definition visit_rows (rows : list txn) (a : string) (d : Z) : list txn :=
  filter (λ r, address1 r = a ∧ visit_date r = Some d) rows.

Definition is_min (m : Z) (l : list Z) : Prop :=
  m ∈ l ∧ ∀ d, d ∈ l → (m ≤ d)%Z.

Definition is_max (m : Z) (l : list Z) : Prop :=
  m ∈ l ∧ ∀ d, d ∈ l → (d ≤ m)%Z.

(** The number of rows of a list whose [qty_shrink_per_day] is present:
    what [count()] reports for that column. *)
Definition count_qty (rs : list txn) : nat :=
  length (filter (λ r, is_Some (qty_shrink_per_day r)) rs).


(** The mean of natural numbers, as a cell. *)
Definition mean_nat (l : list nat) : value :=
  cell (mean ((λ n, Some (inject_Z (Z.of_nat n))) <$> l)).



(** Exactly one row per distinct store address. *)
Definition one_row_per_store (rows : list txn) (tf : frame) : Prop :=
  NoDup (findex tf) ∧
  ∀ k, k ∈ findex tf ↔ ∃ a, k = VStr a ∧ a ∈ address1 <$> rows.

(** Two label columns cut the rows in the same groups. *)
Definition same_partition (l1 l2 : list value) : Prop :=
  length l1 = length l2 ∧
  ∀ i j, l1 !! i = l1 !! j ↔ l2 !! i = l2 !! j.

(** A column with its mean taken off, and nothing else: the mean is that
    of the present cells, a missing cell stays missing. *)
Definition center (c : column) : column :=
  Column (cname c) float64
    ((λ v, match num v, mean (num <$> cvals c) with
           | Some x, Some m => VFloat (x - m)%Q
           | _, _ => VNaN
           end) <$> cvals c).

(** The columns [_cluster] keeps: [float64] ones, the two visit-frequency
    columns left out. *)
Definition is_feature (c : column) : Prop :=
  cdtype c = float64 ∧ cname c ≠ "avg_UPC_per_visit"
  ∧ cname c ≠ "days_between_visits".

(** A computation is safe for the first [n] objects when, run in a heap
    that has them, it leaves them as they are, however it ends; [Q] is what
    holds of its result when it returns. *)
Definition safe {A} (n : nat) (m : M A) (Q : A → Prop) : Prop :=
  ∀ w r w', n ≤ length (heap w) → m w = (r, w') →
    (n ≤ length (heap w') ∧ ∀ l, l < n → heap w' !! l = heap w !! l) ∧
    ∀ a, r = Ok a → Q a.

(** The tables [self] points to were made after the first [n] objects. *)
Definition fresh_tables (n : nat) (self : CustSeg) : Prop :=
  (∀ l, cust_table self = Some l → n ≤ l) ∧
  (∀ l, std_cust_table self = Some l → n ≤ l).

(** ** More on the tables and the runs *)

(** A run that made or changed objects and nothing else: the files, the
    state of the random generator and the record of [KMeans] calls are as
    before. *)
Definition only_heap (w w' : world) : Prop :=
  files w' = files w ∧ writable w' = writable w ∧ rng w' = rng w
  ∧ kmeans_calls w' = kmeans_calls w.

(** The number of rows of an index that bear a label. *)
Definition occurrences (k : value) (idx : list value) : nat :=
  length (filter (λ x, x = k) idx).

(** The columns [build_cust_table] averages per store, with the field of a
    row each one reads. *)
Definition mean_columns : list (string * (txn → option Q)) :=
  [ ("qty_shrink_per_day", qty_shrink_per_day);
    ("shrink_value_per_day", shrink_value_per_day);
    ("POP2010", POP2010); ("FD_ratio", FD_ratio);
    ("unemp_rate", unemp_rate); ("dens_sq_mile", dens_sq_mile) ].

(** The columns of the address table that [build_cust_table] keeps: the
    two [del] are in one [try], so [longitude] goes only after [latitude]
    has gone. *)
Definition kept_columns (cs : list string) : list string :=
  if decide ("latitude" ∈ cs)
  then filter (λ n, n ≠ "latitude" ∧ n ≠ "longitude") cs
  else cs.

(** The names an address table must not use: those of the columns the
    two joins bring ([join] takes no suffix). *)
Definition joined_names : list string :=
  ["qty_shrink_per_day"; "shrink_value_per_day"; "POP2010"; "FD_ratio";
   "unemp_rate"; "dens_sq_mile"; "avg_UPC_per_visit"].

(** The customer table before the labels, as [build_cust_table] makes it
    from the rows and the address table. *)
Definition built_table_of (rows : list txn) (addr : frame) : res frame :=
  res_bind (join (groupby_address1_mean rows) addr)
           (λ t1, add_cols_of rows (drop_coords t1)).

(** A computation that leaves the files alone, however it ends. *)
Definition keeps_files {A} (m : M A) : Prop :=
  ∀ w r w', m w = (r, w') → files w' = files w.

(** A computation that writes, if at all, as its last step: when it
    raises, the files are as they were. *)
Definition writes_last {A} (m : M A) : Prop :=
  ∀ w r w' e, m w = (r, w') → r = Raise e → files w' = files w.

(** ** The columns of the forecast model

    [run_forc_model], lines 157 to 168. *)

(** [sub in s], for two strings. *)
Fixpoint contains (sub s : string) : bool :=
  String.prefix sub s
  || match s with
     | EmptyString => false
     | String _ s' => contains sub s'
     end.

(** The list [forc_cols] as it is written out (lines 157 to 165). *)
Definition forc_cols_init : list string :=
  [ "FD_ratio"; "LAPOP1_10"; "POP2010"; "customer_id_1635139";
    "customer_id_1903139"; "customer_id_2139"; "customer_id_2331150";
    "customer_id_2741156"; "customer_id_2773156"; "customer_id_2782156";
    "customer_id_2956160"; "customer_id_2977160"; "customer_id_3083182";
    "customer_id_3088198"; "customer_id_3088201"; "customer_id_3089336";
    "customer_id_3093327"; "customer_id_3093329"; "customer_id_3097348";
    "avg_UPC_per_visit"; "days_between_visits"; "dens_sq_mile";
    "unemp_rate"; "qty_POG_limit"; "unit_price";
    "shrink_value_per_day_lag1_by_store";
    "shrink_value_per_day_lag2_by_store" ].

(** The list once the loop of lines 166 to 168 has run over the columns
    of [X_ss]: [for col in X_ss.columns: if 'customer_id' in col:
    forc_cols.append(col)]. *)
Definition forc_cols (X_ss_columns : list string) : list string :=
  foldl (λ acc col, if contains "customer_id" col then acc ++ [col] else acc)
        forc_cols_init X_ss_columns.

(** ** The head of run_forc_model *)

(** [try: x = m / except: pass]: the value, when there is one. *)
Definition try_option {A} (m : M A) : M (option A) :=
  λ w, match m w with
       | (Ok a, w') => (Ok (Some a), w')
       | (Raise _, w') => (Ok None, w')
       end.

Section Forecasting.

(** [CreateLag(lag_periods=2, col_filters=['address1'], ...).fit_transform]
    and [PublicData(include_crime=False, remove_nan_rows=True)
    .fit_transform]. *)
Variable CreateLag_lib : list txn → lib (list txn).
Variable PublicData_lib : list txn → lib (list txn).

(** [cl.fit_transform(df)]: the table [CreateLag] returns is an object of
    its own. *)
Definition CreateLag_fit_transform (df : loc) : M loc :=
  rows ← read_txns df;
  rows' ← call (CreateLag_lib rows);
  alloc (Txns rows').

(** The head of [run_forc_model] (lines 122 to 139), which yields
    [df_public]: under [load_forc_data], [try: df_public =
    pd.read_pickle(...); successful = True / except: pass]; then, [if not
    successful], [CreateLag] and [PublicData].  [successful] is set exactly
    when the [try] has given a table. *)
Definition run_forc_model_df_public (df : loc) (load_forc_data : bool)
  : M loc :=
  loaded ←
    (if load_forc_data
     then try_option
            (read_pickle
               "../data/SRP/clean_data_public_no_crime_lag2_by_store_300k.pkl")
     else mret None);
  match loaded with
  | Some df_public => mret df_public
  | None =>
      df_lag ← CreateLag_fit_transform df;
      PublicData_fit_transform PublicData_lib df_lag
  end.

End Forecasting.

(** ** A scenario

    Three stores, four visits each over thirty days from 2017-10-01 (day
    17440), segmented in two clusters; and stand-ins for the libraries:
    a clustering that deals the labels out in turn, a unit deviation, plots
    that draw nothing and a [PublicData] that adds nothing. *)

Definition ex_txn (a : string) (d : Z) (i : string) (q : Q) : txn :=
  Txn a (Some d) i (Some q) (Some (q * 3)%Q)
      (Some 52000%Q) (Some (1 # 4)) (Some (41 # 1000)) (Some 1800%Q).

Definition ex_rows : list txn :=
  [ ex_txn "12 Elm St" 17440 "chips" 2; ex_txn "12 Elm St" 17440 "soda" 1;
    ex_txn "12 Elm St" 17450 "chips" 3; ex_txn "12 Elm St" 17460 "chips" 1;
    ex_txn "12 Elm St" 17470 "chips" 2;
    ex_txn "40 Oak Ave" 17440 "chips" 5; ex_txn "40 Oak Ave" 17450 "chips" 4;
    ex_txn "40 Oak Ave" 17460 "chips" 6; ex_txn "40 Oak Ave" 17470 "chips" 5;
    ex_txn "7 Pine Rd" 17440 "soda" 1; ex_txn "7 Pine Rd" 17450 "soda" 0;
    ex_txn "7 Pine Rd" 17460 "soda" 1; ex_txn "7 Pine Rd" 17470 "soda" 2 ].

Definition ex_addr : frame :=
  Frame [VStr "12 Elm St"; VStr "40 Oak Ave"; VStr "7 Pine Rd"]
    [ Column "latitude" float64 [VFloat (397 # 10); VFloat (398 # 10); VFloat (399 # 10)];
      Column "longitude" float64 [VFloat (-1049 # 10); VFloat (-1050 # 10); VFloat (-1051 # 10)];
      Column "customer_id" int64 [VInt 2139; VInt 2331150; VInt 1635139] ].

Definition ex_world : world :=
  World [Txns ex_rows] {[ "../data/SRP/custs_by_address.pkl" := ex_addr ]}
        true 20171001%N [].

Definition ex_kmeans : nat → frame → lib (list nat) :=
  λ k X g,
    if decide (k = 0) then (Raise ValueError, g)
    else (Ok ((λ i, i `mod` k) <$> seq 0 (nrows X)), N.succ g).

Definition ex_stdev : list Q → Q := λ _, 1%Q.
Definition ex_plot_clust : frame → list value → lib unit := λ _ _ g, (Ok (), g).
Definition ex_plot_ss : frame → lib unit := λ _ g, (Ok (), g).
Definition ex_PublicData : list txn → lib (list txn) := λ rows g, (Ok rows, g).

Definition ex_CustSeg : CustSeg := CustSeg_init 2 false false.

Definition ex_run : res (CustSeg * loc) * world :=
  transform ex_stdev ex_kmeans ex_plot_clust ex_plot_ss ex_CustSeg 0 ex_world.

Definition ex_self' : CustSeg :=
  mkCustSeg 2 false false (Some 1) (Some 5) (Some 7)
    (Some ["qty_shrink_per_day"; "shrink_value_per_day"; "POP2010";
           "FD_ratio"; "unemp_rate"; "dens_sq_mile"]).

(** One store whose first visit records the same item twice. *)
Definition ex_dup_rows : list txn :=
  [ ex_txn "12 Elm St" 17440 "chips" 2; ex_txn "12 Elm St" 17440 "chips" 3;
    ex_txn "12 Elm St" 17470 "chips" 1 ].



(** An address table that lists one store twice. *)
Definition ex_addr_twice : frame :=
  Frame [VStr "12 Elm St"; VStr "12 Elm St"]
    [ Column "customer_id" int64 [VInt 2139; VInt 2140] ].

Definition ex_twice_world : world :=
  World [Txns ex_dup_rows]
        {[ "../data/SRP/custs_by_address.pkl" := ex_addr_twice ]}
        true 20171001%N [].

Definition ex_twice_run : res (CustSeg * loc) * world :=
  transform ex_stdev ex_kmeans ex_plot_clust ex_plot_ss
    (CustSeg_init 1 false false) 0 ex_twice_world.

(** The scenario again, in a world that holds other objects and with a
    [CustSeg] that has run before. *)
Definition ex_world2 : world :=
  World [Table ex_addr; Txns ex_dup_rows; Txns ex_rows]
        {[ "../data/SRP/custs_by_address.pkl" := ex_addr;
           "../data/SRP/cust_table_out.pkl" := ex_addr ]}
        true 20171001%N [(3, ex_addr)].

Definition ex_run2 : res (CustSeg * loc) * world :=
  transform ex_stdev ex_kmeans ex_plot_clust ex_plot_ss ex_self' 2 ex_world2.

Definition ex_self2' : CustSeg :=
  mkCustSeg 2 false false (Some 3) (Some 7) (Some 9)
    (Some ["qty_shrink_per_day"; "shrink_value_per_day"; "POP2010";
           "FD_ratio"; "unemp_rate"; "dens_sq_mile"]).

(** A training and a test partition with one feature. *)
Definition ex_X_train : frame :=
  Frame [VInt 0; VInt 1] [ Column "unit_price" float64 [VFloat 1; VFloat 3] ].

Definition ex_X_test : frame :=
  Frame [VInt 2; VInt 3] [ Column "unit_price" float64 [VFloat 10; VFloat 14] ].

(** The scenario without the address table. *)
Definition ex_world_no_address : world :=
  World [Txns ex_rows] ∅ true 20171001%N [].

(** An address table that has a column [POP2010] of its own. *)
Definition ex_addr_overlap : frame :=
  Frame [VStr "12 Elm St"; VStr "40 Oak Ave"; VStr "7 Pine Rd"]
    [ Column "POP2010" float64 [VFloat 51000; VFloat 52000; VFloat 53000] ].

Definition ex_world_overlap : world :=
  World [Txns ex_rows] {[ "../data/SRP/custs_by_address.pkl" := ex_addr_overlap ]}
        true 20171001%N [].

(** The scenario with one more store, whose only row has no visit date. *)
Definition ex_rows_undated : list txn :=
  Txn "9 Ash Ct" None "chips" (Some 1%Q) (Some 3%Q)
      (Some 52000%Q) (Some (1 # 4)) (Some (41 # 1000)) (Some 1800%Q)
  :: ex_rows.

Definition ex_world_undated : world :=
  World [Txns ex_rows_undated]
        {[ "../data/SRP/custs_by_address.pkl" := ex_addr ]}
        true 20171001%N [].

(** The scenario, run from [run_cust_seg]. *)
Definition ex_run_cust_seg : res loc * world :=
  run_cust_seg ex_stdev ex_kmeans ex_plot_clust ex_plot_ss ex_PublicData
    0 false 2 false false ex_world.

(** The columns of a table [X_ss]. *)
Definition ex_X_ss_columns : list string :=
  ["unit_price"; "customer_id_2139"; "customer_id_77"; "POP2010"].


(** * Properties *)

(** ** Group keys are the distinct keys, in increasing order *)

Class OrdKeyLaws (K : Type) `{OrdKey K} := {
  kcmp_spec : ∀ x y : K, CompSpec eq klt x y (kcmp x y);
  klt_strict : StrictOrder (@klt K _)
}.
#[export] Existing Instance klt_strict.

#[export] Instance Z_key_laws : OrdKeyLaws Z.
Proof. split; [exact Z.compare_spec | exact Z.lt_strorder]. Qed.

#[export] Instance string_key_laws : OrdKeyLaws string.
Proof.
  split; [exact String_as_OT.compare_spec | exact String_as_OT.lt_strorder].
Qed.

Section keys.
Context {K : Type} `{OrdKeyLaws K}.
Implicit Types (x y : K) (l : list K).

Lemma kcmp_refl x : kcmp x x = Eq.
Proof.
  destruct (kcmp_spec x x) as [_|Hlt|Hlt]; [done| |];
    by destruct (irreflexivity klt x).
Qed.

Lemma kcmp_eq x y : kcmp x y = Eq → x = y.
Proof.
  intros Hc. by destruct (kcmp_spec x y) as [->|Hlt|Hlt].
Qed.

Lemma kcmp_gt x y : kcmp x y = Gt → klt y x.
Proof.
  intros Hc. by destruct (kcmp_spec x y) as [->|Hlt|Hlt].
Qed.

Lemma elem_of_kinsert x y l : y ∈ kinsert x l ↔ y = x ∨ y ∈ l.
Proof.
  induction l as [|z l IH]; simpl.
  - rewrite list_elem_of_singleton, elem_of_nil. tauto.
  - destruct (kcmp x z) eqn:E.
    + apply kcmp_eq in E as ->. rewrite elem_of_cons. tauto.
    + rewrite !elem_of_cons. tauto.
    + rewrite !elem_of_cons, IH. tauto.
Qed.

Lemma kinsert_sorted x l :
  StronglySorted klt l → StronglySorted klt (kinsert x l).
Proof.
  induction 1 as [|z l Hs IH Hz]; simpl.
  - repeat constructor.
  - destruct (kcmp x z) eqn:E.
    + by constructor.
    + constructor; [by constructor|].
      constructor; [done|].
      eapply Forall_impl; [exact Hz|].
      intros w Hw. by transitivity z.
    + constructor; [done|].
      apply Forall_forall. intros w [->|Hw]%elem_of_kinsert.
      * by apply kcmp_gt.
      * by eapply Forall_forall in Hz.
Qed.

Lemma group_keys_sorted l : StronglySorted klt (group_keys l).
Proof.
  induction l; simpl; [constructor | by apply kinsert_sorted].
Qed.

Lemma elem_of_group_keys x l : x ∈ group_keys l ↔ x ∈ l.
Proof.
  induction l as [|y l IH]; simpl; [done|].
  rewrite elem_of_kinsert, elem_of_cons, IH. tauto.
Qed.

Lemma sorted_NoDup l : StronglySorted klt l → NoDup l.
Proof.
  induction 1 as [|z l Hs IH Hz]; constructor; [|done].
  intros Hin. eapply Forall_forall in Hz; [|done].
  by destruct (irreflexivity klt z).
Qed.

Lemma group_keys_NoDup l : NoDup (group_keys l).
Proof. apply sorted_NoDup, group_keys_sorted. Qed.

(** An increasing list is determined by its elements. *)
Lemma sorted_unique l1 l2 :
  StronglySorted klt l1 → StronglySorted klt l2 →
  (∀ x, x ∈ l1 ↔ x ∈ l2) → l1 = l2.
Proof.
  intros H1 H2 Heq.
  assert (AntiSymm (=) (@klt K _)).
  { intros x y Hxy Hyx. destruct (irreflexivity klt x). by transitivity y. }
  apply (StronglySorted_unique klt); [done..|].
  apply NoDup_Permutation; auto using sorted_NoDup.
Qed.

Lemma group_keys_length `{EqDecision K} l : length (group_keys l) = length (remove_dups l).
Proof.
  apply Permutation_length, NoDup_Permutation.
  - apply group_keys_NoDup.
  - apply NoDup_remove_dups.
  - intros x. by rewrite elem_of_group_keys, elem_of_remove_dups.
Qed.

Lemma filter_sorted (P : K → Prop) `{∀ x, Decision (P x)} l :
  StronglySorted klt l → StronglySorted klt (filter P l).
Proof.
  induction 1 as [|z l Hs IH Hz]; [constructor|].
  rewrite filter_cons. case_decide; [|done].
  constructor; [done|].
  apply Forall_forall. intros w [_ Hw]%list_elem_of_filter.
  by eapply Forall_forall in Hz.
Qed.
End keys.

Lemma klt_pair {A B} `{OrdKeyLaws A, OrdKey B} (a a' : A) (b b' : B) :
  klt (a, b) (a', b') ↔ klt a a' ∨ (a = a' ∧ klt b b').
Proof.
  unfold klt at 1. unfold kcmp at 1. unfold pair_key. simpl.
  destruct (kcmp a a') eqn:E.
  - apply kcmp_eq in E as ->. split; [by right|].
    intros [Hlt|[_ Hlt]]; [|done]. by destruct (irreflexivity klt a').
  - split; [by left|done].
  - split; [done|]. intros [Hlt|[-> _]].
    + unfold klt in Hlt. congruence.
    + rewrite kcmp_refl in E. congruence.
Qed.

#[export] Instance pair_key_laws {A B} `{OrdKeyLaws A, OrdKeyLaws B} :
  OrdKeyLaws (A * B).
Proof.
  split.
  - intros [a b] [a' b'].
    change (kcmp (a, b) (a', b'))
      with (match kcmp a a' with Eq => kcmp b b' | c => c end).
    destruct (kcmp_spec a a') as [->|Hlt|Hlt].
    + destruct (kcmp_spec b b') as [->|Hb|Hb]; cbn iota; constructor;
        first [done | apply klt_pair; auto].
    + constructor. apply klt_pair; auto.
    + constructor. apply klt_pair; auto.
  - split.
    + intros [a b] [Hlt|[_ Hlt]]%klt_pair;
        exact (irreflexivity klt _ Hlt).
    + intros [a1 b1] [a2 b2] [a3 b3].
      intros [H12|[-> H12]]%klt_pair [H23|[-> H23]]%klt_pair;
        apply klt_pair; auto.
      * left. by transitivity a2.
      * right. split; [done|]. by transitivity b2.
Qed.

(** ** Running computations *)

Lemma bind_ok {A B} (m : M A) (k : A → M B) w b w' :
  (m ≫= k) w = (Ok b, w') →
  ∃ a w1, m w = (Ok a, w1) ∧ k a w1 = (Ok b, w').
Proof.
  unfold mbind, M_bind. destruct (m w) as [[a|e] w1]; [eauto|done].
Qed.

(** One step of a run that ends well: the first computation of a sequence
    ended well too. *)
Tactic Notation "mstep" hyp(H) "as" simple_intropattern(a)
    simple_intropattern(w) simple_intropattern(p) :=
  let H' := fresh "Hrun" in
  pose proof (bind_ok _ _ _ _ _ H) as (a & w & p & H');
  clear H; rename H' into H.

Lemma attr_ok {A} (o : option A) w a w' :
  attr o w = (Ok a, w') → o = Some a ∧ w' = w.
Proof. destruct o; simpl; unfold mret, M_ret; naive_solver. Qed.

Lemma lift_ok {A} (r : res A) w a w' :
  lift r w = (Ok a, w') → r = Ok a ∧ w' = w.
Proof. unfold lift. naive_solver. Qed.

Lemma mret_ok {A} (x : A) w a w' :
  mret (M:=M) x w = (Ok a, w') → a = x ∧ w' = w.
Proof. unfold mret, M_ret. naive_solver. Qed.

Lemma read_txns_ok l w rows w' :
  read_txns l w = (Ok rows, w') → heap w !! l = Some (Txns rows) ∧ w' = w.
Proof.
  unfold read_txns. destruct (heap w !! l) as [[]|]; naive_solver.
Qed.

Lemma read_table_ok l w t w' :
  read_table l w = (Ok t, w') → heap w !! l = Some (Table t) ∧ w' = w.
Proof.
  unfold read_table. destruct (heap w !! l) as [[]|]; naive_solver.
Qed.

Lemma alloc_ok o w l w' :
  alloc o w = (Ok l, w') →
  l = length (heap w) ∧ w' = set_heap (heap w ++ [o]) w.
Proof. unfold alloc. naive_solver. Qed.

Lemma update_table_ok l f w u w' :
  update_table l f w = (Ok u, w') →
  ∃ t t', heap w !! l = Some (Table t) ∧ f t = Ok t' ∧
          w' = set_heap (<[l := Table t']> (heap w)) w.
Proof.
  unfold update_table.
  intros H. mstep H as t w1 [Ht ->]%read_table_ok.
  mstep H as t' w2 [Hf ->]%lift_ok.
  unfold write_table in H. naive_solver.
Qed.

Lemma mapM_lift {A B} (f : A → M B) (g : A → res B) l w :
  (∀ x, f x w = (g x, w)) → mapM f l w = (res_mapM g l, w).
Proof.
  intros Hf. induction l as [|x l IH]; [done|].
  simpl. unfold mbind, M_bind at 1. rewrite Hf.
  destruct (g x) as [y|e]; [|done]. simpl.
  unfold mbind, M_bind at 1. rewrite IH.
  by destruct (res_mapM g l).
Qed.

Lemma res_bind_ok {A B} (r : res A) (k : A → res B) b :
  res_bind r k = Ok b → ∃ a, r = Ok a ∧ k a = Ok b.
Proof. destruct r; naive_solver. Qed.

(** Lookups and updates just past the end of a known heap. *)
Lemma lookup_snoc {A} (h : list A) x : (h ++ [x]) !! length h = Some x.
Proof. by apply list_lookup_middle. Qed.

Lemma insert_snoc {A} (h : list A) x y : <[length h := y]> (h ++ [x]) = h ++ [y].
Proof.
  replace (length h) with (length h + 0)%nat by lia.
  by rewrite insert_app_r.
Qed.

Section runs.
Context (stdev : list Q → Q) (KMeans_lib : nat → frame → lib (list nat)).
Context (plot_clust_lib : frame → list value → lib unit).
Context (plot_ss_lib : frame → lib unit).

Lemma _days_between_visits_run self l rows add w :
  df self = Some l → heap w !! l = Some (Txns rows) →
  _days_between_visits self add w = (days_between_visits_of rows add, w).
Proof.
  intros Hd Hl. unfold _days_between_visits, mbind, M_bind.
  rewrite Hd. simpl. unfold read_txns. by rewrite Hl.
Qed.

Lemma _last_visit_run self l rows add w :
  df self = Some l → heap w !! l = Some (Txns rows) →
  _last_visit self add w = (last_visit_of rows add, w).
Proof.
  intros Hd Hl. unfold _last_visit, mbind, M_bind.
  rewrite Hd. simpl. unfold read_txns. by rewrite Hl.
Qed.

Lemma _add_cols_ok self w self' w' l rows ct t :
  df self = Some l → heap w !! l = Some (Txns rows) →
  cust_table self = Some ct → heap w !! ct = Some (Table t) →
  _add_cols self w = (Ok self', w') →
  ∃ tb, add_cols_of rows t = Ok tb ∧
        self' = set_cust_table (length (heap w)) self ∧
        w' = set_heap (heap w ++ [Table tb]) w.
Proof.
  intros Hd Hl Hc Ht H. unfold _add_cols in H.
  mstep H as ? ? [? ->]%attr_ok.
  mstep H as ? ? [? ->]%read_txns_ok.
  mstep H as ? ? [? ->]%attr_ok.
  mstep H as ? ? [? ->]%read_table_ok.
  simplify_eq.
  mstep H as t2 ? [Hj ->]%lift_ok.
  mstep H as ? ? [-> ->]%alloc_ok.
  mstep H as days w1 Hdays.
  unfold apply_rows in Hdays.
  mstep Hdays as ? ? [Hr ->]%read_table_ok.
  simpl in Hr. rewrite lookup_snoc in Hr. simplify_eq.
  rewrite (mapM_lift _ (days_between_visits_of rows)) in Hdays; last first.
  { intros add. apply (_days_between_visits_run _ l rows); [done|].
    simpl. by apply lookup_app_l_Some. }
  injection Hdays as Hdays Hw; subst w1.
  mstep H as ? ? Hu.
  apply update_table_ok in Hu as (? & ta & Hr & Hs1 & ->).
  simpl in Hr. rewrite lookup_snoc in Hr. simplify_eq.
  simpl in H. rewrite insert_snoc in H.
  mstep H as lasts w1 Hlasts.
  unfold apply_rows in Hlasts.
  mstep Hlasts as ? ? [Hr ->]%read_table_ok.
  simpl in Hr. rewrite lookup_snoc in Hr. simplify_eq.
  rewrite (mapM_lift _ (last_visit_of rows)) in Hlasts; last first.
  { intros add. apply (_last_visit_run _ l rows); [done|].
    simpl. by apply lookup_app_l_Some. }
  injection Hlasts as Hlasts Hw; subst w1.
  mstep H as ? ? Hu.
  apply update_table_ok in Hu as (? & tb & Hr & Hs2 & ->).
  simpl in Hr. rewrite lookup_snoc in Hr. simplify_eq.
  simpl in H. rewrite insert_snoc in H.
  apply mret_ok in H as [-> ->].
  exists tb. split_and!; [|done..].
  unfold add_cols_of. rewrite Hj. simpl.
  rewrite Hdays. simpl. rewrite Hs1. simpl. by rewrite Hlasts.
Qed.

Lemma set_reset_index rows :
  set_index "address1" (reset_index "address1" (groupby_address1_mean rows))
  = Ok (groupby_address1_mean rows).
Proof. reflexivity. Qed.

Lemma lookup_past {A} (h l : list A) k : (h ++ l) !! (length h + k)%nat = l !! k.
Proof. rewrite lookup_app_r by lia. f_equal. lia. Qed.

Lemma lookup_past0 {A} (h l : list A) : (h ++ l) !! length h = l !! 0%nat.
Proof. rewrite <- (lookup_past h l 0). f_equal. lia. Qed.

Lemma set_heap_id w : set_heap (heap w) w = w.
Proof. by destruct w. Qed.

Lemma set_heap_set_heap h h' w : set_heap h (set_heap h' w) = set_heap h w.
Proof. done. Qed.

Lemma try_pass_drop_coords l t w :
  heap w !! l = Some (Table t) →
  try_pass (update_table l (del_col "latitude");;
            update_table l (del_col "longitude")) w
  = (Ok (), set_heap (<[l := Table (drop_coords t)]> (heap w)) w).
Proof.
  intros Hl. unfold try_pass, drop_coords, mbind, M_bind, update_table at 1.
  unfold mbind, M_bind, read_table, lift, write_table. rewrite Hl.
  destruct (del_col "latitude" t) as [t'|e] eqn:E1.
  - unfold update_table, mbind, M_bind, read_table, lift, write_table. simpl.
    rewrite list_lookup_insert_eq by (by eapply lookup_lt_Some).
    destruct (del_col "longitude" t') as [t''|e]; simpl.
    + by rewrite list_insert_insert_eq.
    + done.
  - by rewrite list_insert_id, set_heap_id.
Qed.

Lemma build_cust_table_ok self w self' w' l rows :
  df self = Some l → heap w !! l = Some (Txns rows) →
  build_cust_table self w = (Ok self', w') →
  ∃ addr t1 tb,
    files w !! "../data/SRP/custs_by_address.pkl" = Some addr ∧
    join (groupby_address1_mean rows) addr = Ok t1 ∧
    add_cols_of rows (drop_coords t1) = Ok tb ∧
    self' = set_cust_table (length (heap w) + 3) self ∧
    w' = set_heap (heap w ++ [Table (groupby_address1_mean rows); Table addr;
                              Table (drop_coords t1); Table tb]) w.
Proof.
  intros Hd Hl H. unfold build_cust_table in H.
  mstep H as ? ? [? ->]%attr_ok.
  mstep H as ? ? [? ->]%read_txns_ok. simplify_eq.
  mstep H as ? ? [-> ->]%alloc_ok.
  mstep H as ? ? Hu.
  apply update_table_ok in Hu as (? & t0 & Hr & Hs & ->).
  simpl in Hr. rewrite lookup_snoc in Hr. simplify_eq.
  rewrite set_reset_index in Hs. simplify_eq.
  simpl in H. rewrite insert_snoc in H.
  mstep H as ? ? Hp. unfold read_pickle in Hp. simpl in Hp.
  destruct (files w !! "../data/SRP/custs_by_address.pkl") as [addr|] eqn:Ef;
    [|done].
  apply alloc_ok in Hp as [-> ->]. simpl in H.
  rewrite <- app_assoc in H. simpl in H.
  mstep H as ? ? [Hr1 ->]%read_table_ok.
  simpl in Hr1. rewrite lookup_past0 in Hr1. simpl in Hr1. simplify_eq.
  mstep H as ? ? [Hr2 ->]%read_table_ok.
  simpl in Hr2. rewrite length_app, lookup_past in Hr2. simpl in Hr2.
  simplify_eq.
  mstep H as t1 ? [Hj ->]%lift_ok.
  mstep H as ? ? [-> ->]%alloc_ok. simpl in H.
  rewrite <- app_assoc in H. simpl in H.
  mstep H as ? ? Ht.
  rewrite (try_pass_drop_coords _ t1) in Ht; last first.
  { simpl. rewrite length_app. by rewrite (lookup_past _ _ 2). }
  injection Ht as _ <-. simpl in H.
  rewrite length_app in H. simpl in H.
  rewrite (insert_app_r _ _ 2) in H. simpl in H.
  rewrite !set_heap_set_heap in H.
  eapply (_add_cols_ok _ _ _ _ l rows _ (drop_coords t1)) in H;
    [|done|by apply lookup_app_l_Some|done
     |simpl; by rewrite (lookup_past _ _ 2)].
  destruct H as (tb & Ha & -> & ->). simpl.
  eexists _, t1, tb. split_and!; [done..| |].
  - by rewrite length_app.
  - by rewrite set_heap_set_heap, <- app_assoc.
Qed.

Lemma _std_cust_table_ok self w self' w' ct t :
  cust_table self = Some ct → heap w !! ct = Some (Table t) →
  _std_cust_table stdev self w = (Ok self', w') →
  ∃ st,
    StdScale_transform (StdScale_fit stdev (mkStdScale true false None) t) t
      = Ok st ∧
    self' = set_std_cust_table (length (heap w) + 1) self ∧
    w' = set_heap (heap w ++ [Table t; Table st]) w.
Proof.
  intros Hc Ht H. unfold _std_cust_table in H.
  mstep H as ? ? [? ->]%attr_ok.
  mstep H as ? ? [? ->]%read_table_ok. simplify_eq.
  mstep H as ? ? [-> ->]%alloc_ok.
  mstep H as ? ? [Hr ->]%read_table_ok.
  simpl in Hr. rewrite lookup_snoc in Hr. simplify_eq.
  unfold StdScale_fit_transform in H.
  mstep H as st ? [Hs ->]%lift_ok.
  mstep H as ? ? [-> ->]%alloc_ok.
  apply mret_ok in H as [-> ->].
  exists st. split_and!; [done| |].
  - simpl. by rewrite length_app.
  - simpl. by rewrite set_heap_set_heap, <- app_assoc.
Qed.

Lemma _cluster_ok self w self' w' ct sl t st :
  cust_table self = Some ct → heap w !! ct = Some (Table t) →
  std_cust_table self = Some sl → heap w !! sl = Some (Table st) →
  ct ≠ sl →
  _cluster KMeans_lib self w = (Ok self', w') →
  ∃ cols X pred g tf stf,
    feature_cols t = Ok cols ∧
    select cols st = Ok X ∧
    KMeans_lib (clusters self) X (rng w) = (Ok pred, g) ∧
    with_cluster pred t = Ok tf ∧
    with_cluster pred st = Ok stf ∧
    self' = set_shrink_cust_cols cols self ∧
    w' = World (<[ct := Table tf]> (<[sl := Table stf]> (heap w)))
           (files w) (writable w) g
           (kmeans_calls w ++ [(clusters self, X)]).
Proof.
  intros Hc Ht Hs Hst Hne H. unfold _cluster in H.
  mstep H as ? ? [? ->]%attr_ok.
  mstep H as ? ? [? ->]%read_table_ok. simplify_eq.
  mstep H as cols1 ? [Hc1 ->]%lift_ok.
  mstep H as cols ? [Hc2 ->]%lift_ok.
  mstep H as ? ? [? ->]%attr_ok.
  mstep H as ? ? [? ->]%read_table_ok. simpl in *. simplify_eq.
  mstep H as X ? [HX ->]%lift_ok.
  mstep H as pred w1 Hk.
  unfold KMeans_fit_predict, mbind, M_bind, call in Hk. simpl in Hk.
  destruct (KMeans_lib (clusters self) X (rng w)) as [r g] eqn:Ek.
  injection Hk as -> <-.
  mstep H as ? ? Hu.
  apply update_table_ok in Hu as (? & stf & Hr & Hs1 & ->).
  simpl in Hr. simplify_eq.
  mstep H as ? ? Hu.
  apply update_table_ok in Hu as (? & tf & Hr & Hs2 & ->).
  simpl in Hr. rewrite list_lookup_insert_ne in Hr by done.
  injection (eq_trans (eq_sym Hr) Ht) as ->.
  apply mret_ok in H as [-> ->].
  exists cols, X, pred, g, tf, stf. split_and!; try done.
  unfold feature_cols. by rewrite Hc1.
Qed.

Lemma call_same {A} (c : lib A) w r w' :
  call c w = (r, w') → same_but_rng w w'.
Proof.
  unfold call. destruct (c (rng w)) as [r' g]. intros [= _ <-]. by repeat split.
Qed.

Lemma plot_clust_same self l w u w' :
  plot_clust plot_clust_lib self l w = (Ok u, w') → same_but_rng w w'.
Proof.
  intros H. unfold plot_clust in H.
  mstep H as ? ? [? ->]%attr_ok.
  mstep H as ? ? [? ->]%read_table_ok.
  mstep H as ? ? [? ->]%lift_ok.
  mstep H as ? ? [? ->]%lift_ok.
  by eapply call_same.
Qed.

Lemma plot_ss_same self l w u w' :
  plot_ss plot_ss_lib self l w = (Ok u, w') → same_but_rng w w'.
Proof.
  intros H. unfold plot_ss in H.
  mstep H as ? ? [? ->]%attr_ok.
  mstep H as ? ? [? ->]%read_table_ok.
  mstep H as ? ? [? ->]%lift_ok.
  by eapply call_same.
Qed.

Lemma plots_same self w u w' :
  ((if plot_clusts self
    then sl ← attr (std_cust_table self); plot_clust plot_clust_lib self sl
    else mret ()) : M ()) w = (Ok u, w') →
  same_but_rng w w'.
Proof.
  destruct (plot_clusts self).
  - intros H. mstep H as ? ? [? ->]%attr_ok. by eapply plot_clust_same.
  - intros [_ ->]%mret_ok. by repeat split.
Qed.

Lemma plots_ss_same self w u w' :
  ((if plot_sil self
    then sl ← attr (std_cust_table self); plot_ss plot_ss_lib self sl
    else mret ()) : M ()) w = (Ok u, w') →
  same_but_rng w w'.
Proof.
  destruct (plot_sil self).
  - intros H. mstep H as ? ? [? ->]%attr_ok. by eapply plot_ss_same.
  - intros [_ ->]%mret_ok. by repeat split.
Qed.

(** What a run of [transform] that returns has done. *)
Lemma transform_ok self dfl w self' ct w' :
  transform stdev KMeans_lib plot_clust_lib plot_ss_lib self dfl w
    = (Ok (self', ct), w') →
  ∃ rows addr t1 t st cols X pred g tf stf,
    heap w !! dfl = Some (Txns rows) ∧
    files w !! "../data/SRP/custs_by_address.pkl" = Some addr ∧
    join (groupby_address1_mean rows) addr = Ok t1 ∧
    add_cols_of rows (drop_coords t1) = Ok t ∧
    StdScale_transform (StdScale_fit stdev (mkStdScale true false None) t) t
      = Ok st ∧
    feature_cols t = Ok cols ∧
    select cols st = Ok X ∧
    KMeans_lib (clusters self) X (rng w) = (Ok pred, g) ∧
    with_cluster pred t = Ok tf ∧
    with_cluster pred st = Ok stf ∧
    ct = (length (heap w) + 4)%nat ∧
    self' = mkCustSeg (clusters self) (plot_clusts self) (plot_sil self)
              (Some (length (heap w))) (Some ct)
              (Some (length (heap w) + 6)%nat) (Some cols) ∧
    heap w' = heap w ++ [Txns rows; Table (groupby_address1_mean rows);
                         Table addr; Table (drop_coords t1); Table tf;
                         Table t; Table stf] ∧
    files w' = <["../data/SRP/cust_table_out.pkl" := tf]> (files w) ∧
    kmeans_calls w' = kmeans_calls w ++ [(clusters self, X)].
Proof.
  intros H. unfold transform in H.
  mstep H as rows ? [Hrows ->]%read_txns_ok.
  mstep H as ? ? [-> ->]%alloc_ok.
  mstep H as self1 w1 Hb.
  eapply (build_cust_table_ok _ _ _ _ _ rows) in Hb;
    [|done|simpl; apply lookup_snoc].
  destruct Hb as (addr & t1 & t & Hf & Hj & Ha & -> & ->).
  simpl in Hf. rewrite set_heap_set_heap in H. simpl in H.
  rewrite <- app_assoc in H. simpl in H.
  mstep H as self2 w2 Hs.
  eapply (_std_cust_table_ok _ _ _ _ _ t) in Hs; [|done|]; last first.
  { simpl. rewrite length_app. simpl.
    replace (length (heap w) + 1 + 3)%nat with (length (heap w) + 4)%nat by lia.
    by rewrite lookup_past. }
  destruct Hs as (st & Hst & -> & ->).
  rewrite set_heap_set_heap in H. simpl in H.
  rewrite <- app_assoc in H. simpl in H.
  mstep H as self3 w3 Hc.
  eapply (_cluster_ok _ _ _ _ (length (heap w) + 4)%nat
            (length (heap w) + 6)%nat t st) in Hc; last first.
  { lia. }
  { simpl. by rewrite lookup_past. }
  { simpl. f_equal. rewrite !length_app. simpl. lia. }
  { simpl. by rewrite lookup_past. }
  { simpl. f_equal. rewrite !length_app. simpl. lia. }
  destruct Hc as (cols & X & pred & g & tf & stf
                  & Hfc & HX & Hk & Htf & Hstf & Es & ->).
  unfold set_heap in H, Hk. simpl in Hk, H.
  rewrite !insert_app_r in H. simpl in H.
  mstep H as ? w4 (Hh4 & Hf4 & Hw4 & Hk4)%plots_same.
  mstep H as ? w5 (Hh5 & Hf5 & Hw5 & Hk5)%plots_ss_same.
  mstep H as ? ? [Hct ->]%attr_ok.
  mstep H as ? w6 Hp.
  apply mret_ok in H as [[= <- <-] ->].
  subst. simpl in Hct.
  unfold to_pickle in Hp.
  mstep Hp as ? ? [Hr ->]%read_table_ok.
  unfold write_file in Hp. destruct (writable w5); [|done].
  injection Hp as _ <-.
  injection Hct as <-.
  rewrite Hh5, Hh4 in Hr. simpl in Hr.
  rewrite !length_app in Hr. simpl in Hr.
  replace (length (heap w) + 1 + 3)%nat with (length (heap w) + 4)%nat
    in * by lia.
  rewrite lookup_past in Hr. simpl in Hr. injection Hr as ->.
  do 11 eexists. split_and!; try eassumption; try done.
  - rewrite !length_app. simpl. lia.
  - unfold set_shrink_cust_cols, set_std_cust_table, set_cust_table, set_df.
    simpl. rewrite !length_app. simpl. do 2 f_equal. lia.
  - simpl. by rewrite Hh5, Hh4.
  - simpl. by rewrite Hf5, Hf4.
  - simpl. by rewrite Hk5, Hk4.
Qed.
End runs.

(** ** Columns of a frame *)

Lemma res_mapM_ok {A B} (f : A → res B) l ys :
  res_mapM f l = Ok ys →
  length ys = length l ∧
  ∀ i x, l !! i = Some x → ∃ y, ys !! i = Some y ∧ f x = Ok y.
Proof.
  revert ys. induction l as [|x l IH]; intros ys; simpl.
  - intros [= <-]. split; [done|]. intros i x. by rewrite lookup_nil.
  - intros (y & Hy & (ys' & Hys & [= <-])%res_bind_ok)%res_bind_ok.
    destruct (IH _ Hys) as [Hlen Hrows]. split; [simpl; lia|].
    intros [|i] x'; simpl; [intros [= <-]; eauto|apply Hrows].
Qed.

Lemma get_col_cons c idx x cols :
  get_col c (Frame idx (x :: cols))
  = if decide (cname x = c) then Ok x else get_col c (Frame idx cols).
Proof.
  unfold get_col. simpl. case_decide; [done|].
  by destruct (list_find _ cols) as [[]|].
Qed.

Lemma get_col_app_r c idx cols1 cols2 :
  c ∉ cname <$> cols1 →
  get_col c (Frame idx (cols1 ++ cols2)) = get_col c (Frame idx cols2).
Proof.
  induction cols1 as [|x cols1 IH]; [done|]. simpl.
  rewrite not_elem_of_cons. intros [Hx Hc].
  rewrite get_col_cons. case_decide; [congruence|auto].
Qed.

Lemma set_col_ok col t t' :
  set_col col t = Ok t' →
  findex t' = findex t ∧ length (cvals col) = nrows t.
Proof. unfold set_col. repeat case_decide; naive_solver. Qed.

Lemma get_col_set_col_eq col t t' :
  set_col col t = Ok t' → get_col (cname col) t' = Ok col.
Proof.
  unfold set_col. case_decide as Hlen; [|done]. clear Hlen.
  destruct t as [idx cols]. unfold columns. simpl.
  case_decide as Hin; intros [= <-].
  - induction cols as [|x cols IH]; [by apply elem_of_nil in Hin|].
    simpl. rewrite get_col_cons.
    destruct (decide (cname x = cname col)) as [Hx|Hx];
      [by rewrite decide_True|].
    rewrite decide_False by done.
    apply IH. rewrite fmap_cons in Hin.
    apply elem_of_cons in Hin as [|]; [congruence|done].
  - rewrite get_col_app_r by done. rewrite get_col_cons. by rewrite decide_True.
Qed.

Lemma get_col_set_col_ne c col t t' :
  set_col col t = Ok t' → c ≠ cname col → get_col c t' = get_col c t.
Proof.
  unfold set_col. case_decide as Hlen; [|done]. clear Hlen.
  destruct t as [idx cols]. unfold columns. simpl.
  intros Hs Hne. case_decide as Hin; injection Hs as <-.
  - clear Hin. induction cols as [|x cols IH]; [done|].
    simpl. rewrite !get_col_cons.
    destruct (decide (cname x = cname col)) as [Hx|Hx].
    + rewrite !decide_False by congruence. apply IH.
    + case_decide; [done|apply IH].
  - induction cols as [|x cols IH]; simpl.
    + rewrite get_col_cons. by rewrite decide_False.
    + rewrite !get_col_cons. case_decide; [done|]. apply IH.
      rewrite fmap_cons, not_elem_of_cons in Hin. tauto.
Qed.

Lemma columns_set_col col t t' :
  set_col col t = Ok t' →
  columns t' = if decide (cname col ∈ columns t) then columns t
               else columns t ++ [cname col].
Proof.
  unfold set_col. case_decide; [|done].
  case_decide; intros [= <-]; unfold columns; simpl.
  - rewrite <- list_fmap_compose. apply list_fmap_ext.
    intros i x _. simpl. by case_decide.
  - by rewrite fmap_app.
Qed.

(** ** The left join *)

Lemma elem_of_positions k idx j p :
  p ∈ positions k idx j ↔ ∃ n, p = (j + n)%nat ∧ idx !! n = Some k.
Proof.
  revert j. induction idx as [|x idx IH]; intros j; simpl.
  - rewrite elem_of_nil. split; [done|]. by intros (n & _ & ?).
  - case_decide as Hx; [rewrite elem_of_cons|]; rewrite IH; split.
    + intros [->|(n & -> & Hn)].
      * exists 0%nat. split; [lia|by subst].
      * exists (S n). split; [lia|done].
    + intros ([|n] & -> & Hn).
      * left; lia.
      * right. exists n. split; [lia|done].
    + intros (n & -> & Hn). exists (S n). split; [lia|done].
    + intros ([|n] & -> & Hn); simpl in Hn; [congruence|].
      exists n. split; [lia|done].
Qed.

Lemma positions_nil k idx j : k ∉ idx → positions k idx j = [].
Proof.
  intros Hk. destruct (positions k idx j) as [|p ps] eqn:E; [done|].
  assert (p ∈ positions k idx j) as (n & _ & Hn)%elem_of_positions
    by (rewrite E; left).
  destruct Hk. by eapply list_elem_of_lookup_2.
Qed.

Lemma positions_NoDup k idx j :
  NoDup idx → (length (positions k idx j) ≤ 1)%nat.
Proof.
  revert j. induction idx as [|x idx IH]; intros j Hnd; simpl; [lia|].
  apply NoDup_cons in Hnd as [Hx Hnd].
  case_decide as Hk; [|auto].
  subst x. rewrite (positions_nil k idx) by done. simpl. lia.
Qed.

Lemma elem_of_join_plan lidx i ridx p :
  p ∈ join_plan lidx i ridx →
  ∃ k, lidx !! (p.1 - i)%nat = Some k ∧ (i ≤ p.1)%nat ∧
       match p.2 with
       | Some j => ridx !! j = Some k
       | None => k ∉ ridx
       end.
Proof.
  revert i. induction lidx as [|k lidx IH]; intros i; simpl.
  - by rewrite elem_of_nil.
  - rewrite elem_of_app. intros [Hp|Hp].
    + exists k. destruct (positions k ridx 0) as [|j js] eqn:E.
      * apply list_elem_of_singleton in Hp as ->. simpl.
        rewrite Nat.sub_diag. split_and!; [done..|].
        intros (n & Hn)%list_elem_of_lookup_1.
        assert (n ∈ positions k ridx 0) as Hin
          by (apply elem_of_positions; eauto).
        rewrite E in Hin. by apply elem_of_nil in Hin.
      * change (p ∈ (λ j, (i, Some j)) <$> (j :: js)) in Hp.
        apply list_elem_of_fmap in Hp as (j' & -> & Hj'). simpl.
        rewrite Nat.sub_diag. split_and!; [done..|].
        rewrite <- E in Hj'.
        by apply elem_of_positions in Hj' as (n & -> & Hn).
    + destruct (IH _ Hp) as (k' & Hk' & Hle & Hm).
      exists k'. split_and!; [|lia|done].
      replace (p.1 - i)%nat with (S (p.1 - S i)) by lia. done.
Qed.

Lemma join_plan_covers lidx i ridx n k :
  lidx !! n = Some k → ∃ o, ((i + n)%nat, o) ∈ join_plan lidx i ridx.
Proof.
  revert i n. induction lidx as [|k' lidx IH]; intros i n; [done|].
  destruct n as [|n]; simpl.
  - intros [= ->]. rewrite Nat.add_0_r.
    destruct (positions k ridx 0) as [|j js].
    + exists None. apply elem_of_app. left. apply list_elem_of_singleton. done.
    + exists (Some j). apply elem_of_app. left. simpl. left.
  - intros Hn. destruct (IH (S i) n Hn) as [o Ho].
    exists o. apply elem_of_app. right.
    by replace (i + S n)%nat with (S i + n)%nat by lia.
Qed.

Lemma join_plan_unique lidx i ridx :
  NoDup ridx → fst <$> join_plan lidx i ridx = seq i (length lidx).
Proof.
  intros Hnd. revert i. induction lidx as [|k lidx IH]; intros i; [done|].
  simpl. rewrite fmap_app, IH. f_equal.
  pose proof (positions_NoDup k ridx 0 Hnd) as Hlen.
  destruct (positions k ridx 0) as [|j [|j' js]]; simpl in *; [done..|lia].
Qed.

Lemma fmap_lookup_seq {A} (d : A) (l : list A) :
  (λ n, default d (l !! n)) <$> seq 0 (length l) = l.
Proof.
  apply list_eq. intros i. rewrite list_lookup_fmap.
  destruct (l !! i) as [x|] eqn:E.
  - rewrite lookup_seq_lt by (by eapply lookup_lt_Some). simpl. by rewrite E.
  - rewrite lookup_seq_ge; [done|]. by apply lookup_ge_None.
Qed.

Lemma join_ok l r t :
  join l r = Ok t →
  let plan := join_plan (findex l) 0 (findex r) in
  (∀ c, c ∈ columns l → c ∉ columns r) ∧
  findex t = (λ p, default VNaN (findex l !! p.1)) <$> plan ∧
  fcols t = (take_left plan <$> fcols l) ++ (take_right plan <$> fcols r).
Proof.
  unfold join. case_decide as Hex; [done|]. intros [= <-]. simpl.
  split; [|done]. intros c Hc Hr. apply Hex, Exists_exists. eauto.
Qed.

(** When no label occurs twice in the right table, the join keeps the rows
    of the left table as they are. *)
Lemma join_index_unique l r t :
  NoDup (findex r) → join l r = Ok t → findex t = findex l.
Proof.
  intros Hnd (_ & -> & _)%join_ok.
  rewrite <- (fmap_lookup_seq VNaN (findex l)) at 2.
  rewrite <- (join_plan_unique _ _ (findex r)) by done.
  by rewrite <- list_fmap_compose.
Qed.

(** In any case, the labels of the join are those of the left table. *)
Lemma join_index_elem l r t k :
  join l r = Ok t → k ∈ findex t ↔ k ∈ findex l.
Proof.
  intros (_ & -> & _)%join_ok. rewrite list_elem_of_fmap. split.
  - intros (p & -> & Hp). apply elem_of_join_plan in Hp as (k & Hk & _ & _).
    rewrite Nat.sub_0_r in Hk. rewrite Hk. simpl.
    by eapply list_elem_of_lookup_2.
  - intros (n & Hn)%list_elem_of_lookup_1.
    destruct (join_plan_covers _ 0 (findex r) _ _ Hn) as [o Ho].
    exists (n, o). simpl. by rewrite Hn.
Qed.

Lemma take_right_name plan c : cname (take_right plan c) = cname c.
Proof. unfold take_right. by case_decide. Qed.

Lemma join_columns l r t :
  join l r = Ok t → columns t = columns l ++ columns r.
Proof.
  intros (_ & _ & Hc)%join_ok. unfold columns. rewrite Hc, fmap_app.
  rewrite <- !list_fmap_compose.
  f_equal; apply list_fmap_ext; intros ? c _; unfold compose.
  apply take_right_name.
Qed.

(** ** Visits of a store *)

Lemma filter_fmap {A B} (f : A → B) (P : B → Prop) `{∀ y, Decision (P y)}
    (l : list A) :
  filter P (f <$> l) = f <$> filter (λ x, P (f x)) l.
Proof.
  induction l as [|x l IH]; [done|].
  rewrite fmap_cons, !filter_cons. case_decide; by rewrite IH.
Qed.

Lemma store_rows_filter rows a :
  store_rows rows (VStr a) = filter (λ r, address1 r = a) rows.
Proof. apply list_filter_iff. intros r. split; congruence. Qed.

Lemma fmap_pair_sorted (a : string) (ds : list Z) :
  StronglySorted klt ds → StronglySorted klt (pair a <$> ds).
Proof.
  apply StronglySorted_fmap. intros x y Hxy. apply klt_pair. auto.
Qed.

(** The groups of one store under [groupby(['address1', 'visit_date'])]
    are its distinct visit dates, in increasing order. *)
Lemma visit_keys_store rows a :
  filter (λ k, k.1 = a) (group_keys (omap visit_key rows))
  = pair a <$> group_keys (store_dates rows a).
Proof.
  apply sorted_unique.
  - apply filter_sorted, group_keys_sorted.
  - apply fmap_pair_sorted, group_keys_sorted.
  - intros [a' d]. rewrite list_elem_of_filter, elem_of_group_keys,
      list_elem_of_omap, list_elem_of_fmap. simpl. split.
    + intros [-> (r & Hr & Hk)]. exists d. split; [done|].
      apply elem_of_group_keys, list_elem_of_omap. exists r.
      unfold visit_key in Hk. destruct (visit_date r) as [d'|] eqn:E;
        simpl in Hk; [|done]. injection Hk as Ha ->.
      split; [|done]. by apply list_elem_of_filter.
    + intros (d' & [= -> ->] & Hd). split; [done|].
      apply elem_of_group_keys, list_elem_of_omap in Hd as (r & Hr & Hv).
      apply list_elem_of_filter in Hr as [Ha Hr].
      exists r. split; [done|]. unfold visit_key. rewrite Hv. simpl.
      by rewrite Ha.
Qed.

Lemma visit_keys_own rows a :
  group_keys (omap visit_key (filter (λ r, address1 r = a) rows))
  = pair a <$> group_keys (store_dates rows a).
Proof.
  apply sorted_unique.
  - apply group_keys_sorted.
  - apply fmap_pair_sorted, group_keys_sorted.
  - intros [a' d]. rewrite elem_of_group_keys, list_elem_of_omap,
      list_elem_of_fmap. split.
    + intros (r & [Ha Hr]%list_elem_of_filter & Hk).
      unfold visit_key in Hk. destruct (visit_date r) as [d'|] eqn:E;
        simpl in Hk; [|done]. injection Hk as <- ->.
      exists d. split; [by rewrite Ha|].
      apply elem_of_group_keys, list_elem_of_omap. exists r.
      split; [|done]. by apply list_elem_of_filter.
    + intros (d' & [= -> ->] & Hd).
      apply elem_of_group_keys, list_elem_of_omap in Hd as (r & Hr & Hv).
      exists r. split; [done|].
      apply list_elem_of_filter in Hr as [Ha Hr].
      unfold visit_key. rewrite Hv. simpl. by rewrite Ha.
Qed.

Lemma visits_of_store rows a :
  visits_of rows (VStr a) = pair a <$> group_keys (store_dates rows a).
Proof.
  unfold visits_of, groupby_visit_count.
  rewrite <- list_fmap_compose, store_rows_filter.
  rewrite <- visit_keys_own. apply list_fmap_id.
Qed.

(** In an increasing list the first element is the least and the last one
    the greatest. *)
Lemma sorted_first_min (ds : list Z) m :
  StronglySorted klt ds → ds !! 0%nat = Some m → is_min m ds.
Proof.
  destruct 1 as [|d ds Hs Hd]; [done|]. intros [= ->].
  split; [left|]. intros d' [->|Hin]%elem_of_cons; [done|].
  eapply Forall_forall in Hd; [|done]. apply Z.lt_le_incl, Hd.
Qed.

Lemma sorted_last_max (ds : list Z) m :
  StronglySorted klt ds → ds !! (length ds - 1)%nat = Some m → is_max m ds.
Proof.
  induction 1 as [|d ds Hs IH Hd]; [done|].
  destruct ds as [|d' ds'].
  - intros [= ->]. split; [left|].
    by intros d' ->%list_elem_of_singleton.
  - change (length (d :: d' :: ds') - 1)%nat with (S (length ds')).
    intros Hm.
    destruct IH as [Hin Hmax]; [simpl; by rewrite Nat.sub_0_r|].
    split; [by right|]. intros x [->|Hx]%elem_of_cons; [|auto].
    eapply Forall_forall in Hd; [|exact Hin]. apply Z.lt_le_incl, Hd.
Qed.

Lemma is_min_group_keys m (l : list Z) : is_min m (group_keys l) ↔ is_min m l.
Proof.
  unfold is_min. rewrite elem_of_group_keys.
  by setoid_rewrite elem_of_group_keys.
Qed.

Lemma is_max_group_keys m (l : list Z) : is_max m (group_keys l) ↔ is_max m l.
Proof.
  unfold is_max. rewrite elem_of_group_keys.
  by setoid_rewrite elem_of_group_keys.
Qed.

(** [_days_between_visits]: the days from the first to the last visit,
    divided by the number of distinct visit dates. *)
Lemma days_between_visits_of_store rows a v :
  days_between_visits_of rows (VStr a) = Ok v →
  ∃ first last,
    is_min first (store_dates rows a) ∧ is_max last (store_dates rows a) ∧
    v = VFloat (inject_Z (last - first)
                / inject_Z (Z.of_nat (length (remove_dups (store_dates rows a))))).
Proof.
  unfold days_between_visits_of. rewrite visits_of_store, length_fmap.
  rewrite !list_lookup_fmap.
  pose proof (group_keys_sorted (store_dates rows a)) as Hs.
  destruct (group_keys (store_dates rows a) !! 0%nat) as [first|] eqn:E0;
    [|done]. simpl.
  destruct (group_keys (store_dates rows a)
              !! (length (group_keys (store_dates rows a)) - 1)%nat)
    as [last|] eqn:E1; [|done]. simpl.
  intros [= <-]. exists first, last. split_and!.
  - by apply is_min_group_keys, sorted_first_min.
  - by apply is_max_group_keys, sorted_last_max.
  - by rewrite group_keys_length.
Qed.


(** [_last_visit]: the greatest visit date of the store. *)
Lemma last_visit_of_store rows a v :
  last_visit_of rows (VStr a) = Ok v →
  ∃ last, is_max last (store_dates rows a) ∧ v = VDate last.
Proof.
  unfold last_visit_of. rewrite visits_of_store, length_fmap.
  rewrite !list_lookup_fmap.
  pose proof (group_keys_sorted (store_dates rows a)) as Hs.
  destruct (group_keys (store_dates rows a)
              !! (length (group_keys (store_dates rows a)) - 1)%nat)
    as [last|] eqn:E1; [|done]. simpl.
  intros [= <-]. exists last. split; [|done].
  by apply is_max_group_keys, sorted_last_max.
Qed.


Lemma filter_Forall {A} (P : A → Prop) `{∀ x, Decision (P x)} (l : list A) :
  Forall P l → filter P l = l.
Proof.
  induction 1 as [|x l Hx Hl IH]; [done|].
  rewrite filter_cons, decide_True by done. by rewrite IH.
Qed.


(** ** The customer table *)

Lemma del_col_index c t t' : del_col c t = Ok t' → findex t' = findex t.
Proof. unfold del_col. case_decide; naive_solver. Qed.

Lemma drop_coords_index t : findex (drop_coords t) = findex t.
Proof.
  unfold drop_coords.
  destruct (del_col "latitude" t) as [t'|] eqn:E1; [|done].
  apply del_col_index in E1.
  destruct (del_col "longitude" t') as [t''|] eqn:E2; [|done].
  apply del_col_index in E2. congruence.
Qed.

Lemma groupby_address1_mean_index rows :
  findex (groupby_address1_mean rows) = VStr <$> group_keys (address1 <$> rows).
Proof. done. Qed.

(** The rows of a table are labelled by the stores of the transactions. *)
Lemma store_labels_elem rows k :
  k ∈ VStr <$> group_keys (address1 <$> rows)
  ↔ ∃ a, k = VStr a ∧ a ∈ address1 <$> rows.
Proof.
  rewrite list_elem_of_fmap. by setoid_rewrite elem_of_group_keys.
Qed.

(** A float column joined from the right keeps its cells; a row without a
    match gets the missing marker. *)
Lemma take_right_float plan c :
  cdtype c = float64 → Forall (λ v, as_float v = v) (cvals c) →
  take_right plan c
  = Column (cname c) float64
      ((λ p, match p.2 with
             | Some j => default VNaN (cvals c !! j)
             | None => VNaN
             end) <$> plan).
Proof.
  intros Hd Hv. unfold take_right. rewrite Hd. case_decide as Hall; f_equal.
  - apply Forall_fmap_ext_1. eapply Forall_impl; [exact Hall|].
    intros [i o] [j ->]. done.
  - apply list_fmap_ext. intros _ [i [j|]] _; simpl; [|done].
    destruct (cvals c !! j) as [v|] eqn:E; simpl; [|done].
    eapply Forall_forall in Hv; [exact Hv|]. by eapply list_elem_of_lookup_2.
Qed.

Lemma filter_visit_key rows a d :
  filter (λ r, visit_key r = Some (a, d) ∧ is_Some (qty_shrink_per_day r)) rows
  = filter (λ r, is_Some (qty_shrink_per_day r)) (visit_rows rows a d).
Proof.
  unfold visit_rows. rewrite list_filter_filter. apply list_filter_iff.
  intros r. unfold visit_key.
  destruct (visit_date r) as [d'|]; simpl.
  - split.
    + by intros [[= <- <-] Hq].
    + intros [Hq [Ha [= ->]]]. by rewrite Ha.
  - split; [by intros [? _]|by intros [_ [_ ?]]].
Qed.

(** The counts of the groups of one store, in the table [foo] of
    [_add_cols]. *)
Lemma groupby_visit_count_store rows a :
  filter (λ g, g.1.1 = a) (groupby_visit_count rows)
  = (λ d, ((a, d), count_qty (visit_rows rows a d)))
      <$> group_keys (store_dates rows a).
Proof.
  unfold groupby_visit_count. rewrite filter_fmap. simpl.
  rewrite visit_keys_store, <- list_fmap_compose.
  apply list_fmap_ext. intros _ d _. simpl.
  by rewrite filter_visit_key.
Qed.

Lemma avg_UPC_cell rows a :
  cell (mean ((λ g : string * Z * nat, Some (inject_Z (Z.of_nat g.2)))
                <$> filter (λ g, g.1.1 = a) (groupby_visit_count rows)))
  = mean_nat ((λ d, count_qty (visit_rows rows a d))
                <$> group_keys (store_dates rows a)).
Proof.
  rewrite groupby_visit_count_store. unfold mean_nat.
  by rewrite <- !list_fmap_compose.
Qed.

(** The column [avg_UPC_per_visit] after the join of [_add_cols]. *)
Lemma join_avg_UPC rows t0 t2 :
  join t0 (avg_UPC_per_visit_table rows) = Ok t2 →
  ∃ avgs,
    get_col "avg_UPC_per_visit" t2
      = Ok (Column "avg_UPC_per_visit" float64 avgs) ∧
    ∀ i a, findex t2 !! i = Some (VStr a) →
      avgs !! i = Some (mean_nat ((λ d, count_qty (visit_rows rows a d))
                                    <$> group_keys (store_dates rows a))).
Proof.
  intros Hj. destruct (join_ok _ _ _ Hj) as (Hdisj & Hidx & Hcols).
  remember (join_plan (findex t0) 0 (findex (avg_UPC_per_visit_table rows)))
    as plan eqn:Eplan.
  simpl in Hcols.
  rewrite take_right_float in Hcols; [|done|]; last first.
  { simpl. apply Forall_fmap, Forall_forall. intros a _. simpl.
    by destruct (mean _). }
  simpl in Hcols. eexists. split.
  - destruct t2 as [idx2 cols2]. simpl in Hcols. rewrite Hcols.
    rewrite get_col_app_r; [by rewrite get_col_cons, decide_True|].
    rewrite <- list_fmap_compose. intros Hin. eapply Hdisj; [exact Hin|].
    unfold columns. simpl. left.
  - intros i a. rewrite Hidx, !list_lookup_fmap.
    destruct (plan !! i) as [[n o]|] eqn:Ep; [|done]. simpl.
    apply list_elem_of_lookup_2 in Ep. rewrite Eplan in Ep.
    apply elem_of_join_plan in Ep as (k & Hk & _ & Hm). simpl in Hk, Hm.
    rewrite Nat.sub_0_r in Hk. rewrite Hk. simpl. intros [= ->].
    f_equal. rewrite <- avg_UPC_cell.
    destruct o as [j|].
    + rewrite list_lookup_fmap in Hm. rewrite list_lookup_fmap.
      destruct (group_keys _ !! j) as [a'|] eqn:Ea; [|done].
      by injection Hm as ->.
    + destruct (filter _ _) as [|g gs] eqn:Ef; [done|].
      assert (g ∈ filter (λ g : string * Z * nat, g.1.1 = a)
                    (groupby_visit_count rows)) as [Ha Hg]%list_elem_of_filter
        by (rewrite Ef; left).
      destruct Hm. apply list_elem_of_fmap. exists a. split; [done|].
      apply elem_of_group_keys, list_elem_of_fmap. by exists g.
Qed.

Lemma add_cols_of_ok rows t0 t :
  add_cols_of rows t0 = Ok t →
  ∃ t2 days ta lasts,
    join t0 (avg_UPC_per_visit_table rows) = Ok t2 ∧
    res_mapM (days_between_visits_of rows) (findex t2) = Ok days ∧
    set_col (Column "days_between_visits" float64 days) t2 = Ok ta ∧
    res_mapM (last_visit_of rows) (findex t2) = Ok lasts ∧
    set_col (Column "last_visit" datetime64 lasts) ta = Ok t.
Proof.
  unfold add_cols_of.
  intros (t2 & Hj & (days & Hd & (ta & Hta & (lasts & Hl & Ht)%res_bind_ok)
            %res_bind_ok)%res_bind_ok)%res_bind_ok.
  exists t2, days, ta, lasts. split_and!; try done.
  apply set_col_ok in Hta as [<- _]. done.
Qed.

(** The three derived columns of the table [build_cust_table] leaves, row
    by row. *)
Lemma add_cols_of_columns rows t0 t :
  add_cols_of rows t0 = Ok t →
  (∀ k, k ∈ findex t ↔ k ∈ findex t0) ∧
  ∃ avgs days lasts,
    get_col "avg_UPC_per_visit" t
      = Ok (Column "avg_UPC_per_visit" float64 avgs) ∧
    get_col "days_between_visits" t
      = Ok (Column "days_between_visits" float64 days) ∧
    get_col "last_visit" t = Ok (Column "last_visit" datetime64 lasts) ∧
    ∀ i a, findex t !! i = Some (VStr a) →
      avgs !! i = Some (mean_nat ((λ d, count_qty (visit_rows rows a d))
                                    <$> group_keys (store_dates rows a))) ∧
      (∃ v, days !! i = Some v ∧ days_between_visits_of rows (VStr a) = Ok v) ∧
      (∃ v, lasts !! i = Some v ∧ last_visit_of rows (VStr a) = Ok v).
Proof.
  intros (t2 & days & ta & lasts & Hj & Hd & Hta & Hl & Ht)%add_cols_of_ok.
  destruct (set_col_ok _ _ _ Hta) as [Hia _].
  destruct (set_col_ok _ _ _ Ht) as [Hit _].
  assert (findex t = findex t2) as Hidx by congruence.
  split.
  { intros k. rewrite Hidx. by eapply join_index_elem. }
  destruct (join_avg_UPC _ _ _ Hj) as (avgs & Havg & Hrow).
  exists avgs, days, lasts. split_and!.
  - rewrite (get_col_set_col_ne _ _ _ _ Ht) by done.
    by rewrite (get_col_set_col_ne _ _ _ _ Hta).
  - rewrite (get_col_set_col_ne _ _ _ _ Ht) by done.
    apply (get_col_set_col_eq _ _ _ Hta).
  - apply (get_col_set_col_eq _ _ _ Ht).
  - intros i a. rewrite Hidx. intros Hi. split_and!.
    + by apply Hrow.
    + by apply (proj2 (res_mapM_ok _ _ _ Hd)).
    + by apply (proj2 (res_mapM_ok _ _ _ Hl)).
Qed.

Lemma with_cluster_ok pred t tf :
  with_cluster pred t = Ok tf →
  findex tf = findex t ∧ length pred = nrows t ∧
  get_col "cluster" tf = Ok (Column "cluster" object (astype_str pred)) ∧
  ∀ c, c ≠ "cluster" → get_col c tf = get_col c t.
Proof.
  intros H. destruct (set_col_ok _ _ _ H) as [Hi Hl]. simpl in Hl.
  unfold astype_str in Hl. rewrite length_fmap in Hl. split_and!; try done.
  - apply (get_col_set_col_eq _ _ _ H).
  - intros c Hc. by apply (get_col_set_col_ne _ _ _ _ H).
Qed.

Section table.
Context (stdev : list Q → Q) (KMeans_lib : nat → frame → lib (list nat)).
Context (plot_clust_lib : frame → list value → lib unit).
Context (plot_ss_lib : frame → lib unit).

(** The customer table a run of [transform] returns: its rows are
    labelled by the stores of the input, and its derived columns hold,
    row by row, what the per-store functions compute. *)
Lemma transform_table self dfl w self' ct w' rows :
  transform stdev KMeans_lib plot_clust_lib plot_ss_lib self dfl w
    = (Ok (self', ct), w') →
  heap w !! dfl = Some (Txns rows) →
  ∃ tf avgs days lasts,
    heap w' !! ct = Some (Table tf) ∧
    (∀ k, k ∈ findex tf ↔ ∃ a, k = VStr a ∧ a ∈ address1 <$> rows) ∧
    get_col "avg_UPC_per_visit" tf
      = Ok (Column "avg_UPC_per_visit" float64 avgs) ∧
    get_col "days_between_visits" tf
      = Ok (Column "days_between_visits" float64 days) ∧
    get_col "last_visit" tf = Ok (Column "last_visit" datetime64 lasts) ∧
    ∀ i a, findex tf !! i = Some (VStr a) →
      avgs !! i = Some (mean_nat ((λ d, count_qty (visit_rows rows a d))
                                    <$> group_keys (store_dates rows a))) ∧
      (∃ v, days !! i = Some v
            ∧ days_between_visits_of rows (VStr a) = Ok v) ∧
      (∃ v, lasts !! i = Some v ∧ last_visit_of rows (VStr a) = Ok v).
Proof.
  intros Hrun Hrows.
  apply transform_ok in Hrun
    as (rows' & addr & t1 & t & st & cols & X & pred & g & tf & stf
        & Hrows' & Hfa & Hj & Ha & Hst & Hfc & HX & Hk & Htf & Hstf
        & -> & -> & Hheap & Hfiles & Hcalls).
  assert (rows' = rows) as -> by congruence.
  destruct (add_cols_of_columns _ _ _ Ha)
    as (Hlab & avgs & days & lasts & Havg & Hdays & Hlast & Hrow).
  destruct (with_cluster_ok _ _ _ Htf) as (Hidx & _ & _ & Hother).
  exists tf, avgs, days, lasts. split_and!.
  - rewrite Hheap. by rewrite lookup_past.
  - intros k. rewrite Hidx, Hlab, drop_coords_index.
    rewrite (join_index_elem _ _ _ _ Hj), groupby_address1_mean_index.
    apply store_labels_elem.
  - by rewrite Hother.
  - by rewrite Hother.
  - by rewrite Hother.
  - intros i a. rewrite Hidx. apply Hrow.
Qed.
End table.

(** ** Rows and labels of the customer table *)

Lemma StdScale_transform_index ss X st :
  StdScale_transform ss X = Ok st → findex st = findex X.
Proof.
  unfold StdScale_transform. destruct (fitted ss); [|done].
  by intros (cols & _ & [= <-])%res_bind_ok.
Qed.

Lemma add_cols_of_index rows t0 t :
  add_cols_of rows t0 = Ok t → findex t = findex t0.
Proof.
  intros (t2 & days & ta & lasts & Hj & Hd & Hta & Hl & Ht)%add_cols_of_ok.
  apply set_col_ok in Hta as [Hia _]. apply set_col_ok in Ht as [Hit _].
  rewrite Hit, Hia.
  apply (join_index_unique t0 (avg_UPC_per_visit_table rows)).
  - simpl. apply NoDup_fmap_2; [by intros ?? [=]|]. apply group_keys_NoDup.
  - done.
Qed.

Lemma store_index_NoDup rows :
  NoDup (VStr <$> group_keys (address1 <$> rows)).
Proof. apply NoDup_fmap_2; [by intros ?? [=]|]. apply group_keys_NoDup. Qed.

Lemma astype_str_lookup pred i :
  astype_str pred !! i = (λ n, VStr (pretty n)) <$> pred !! i.
Proof. unfold astype_str. apply list_lookup_fmap. Qed.

Lemma same_partition_refl l : same_partition l l.
Proof. by split. Qed.

(** ** The feature matrix *)

Lemma list_remove_NoDup x l l' :
  NoDup l → list_remove x l = Ok l' → l' = filter (λ y, y ≠ x) l.
Proof.
  intros Hnd. revert l'. induction Hnd as [|y l Hy Hnd IH]; intros l'; [done|].
  simpl. case_decide as Hx.
  - intros [= <-]. subst y. rewrite filter_cons, decide_False by naive_solver.
    symmetry. apply filter_Forall, Forall_forall. intros z Hz ->. done.
  - intros (r & Hr & [= <-])%res_bind_ok.
    rewrite filter_cons, decide_True by done. f_equal. auto.
Qed.

Lemma columns_del_col c t t' :
  del_col c t = Ok t' → columns t' = filter (λ n, n ≠ c) (columns t).
Proof.
  unfold del_col. case_decide; [|done]. intros [= <-].
  unfold columns. simpl. by rewrite filter_fmap.
Qed.

Lemma drop_coords_NoDup t : NoDup (columns t) → NoDup (columns (drop_coords t)).
Proof.
  intros Hnd. unfold drop_coords.
  destruct (del_col "latitude" t) as [t'|] eqn:E1; [|done].
  apply columns_del_col in E1.
  assert (NoDup (columns t')) by (rewrite E1; by apply NoDup_filter).
  destruct (del_col "longitude" t') as [t''|] eqn:E2; [|done].
  apply columns_del_col in E2. rewrite E2. by apply NoDup_filter.
Qed.

Lemma join_NoDup l r t :
  join l r = Ok t → NoDup (columns l) → NoDup (columns r) → NoDup (columns t).
Proof.
  intros Hj Hl Hr. rewrite (join_columns _ _ _ Hj).
  apply NoDup_app. split_and!; [done| |done].
  by destruct (join_ok _ _ _ Hj) as (Hdisj & _).
Qed.

Lemma set_col_NoDup col t t' :
  set_col col t = Ok t' → NoDup (columns t) → NoDup (columns t').
Proof.
  intros Hs Hnd. rewrite (columns_set_col _ _ _ Hs).
  case_decide as Hin; [done|].
  apply NoDup_app. split_and!; [done| |apply NoDup_singleton].
  intros x Hx ->%list_elem_of_singleton. done.
Qed.

Lemma built_columns_NoDup rows addr t1 t :
  NoDup (columns addr) →
  join (groupby_address1_mean rows) addr = Ok t1 →
  add_cols_of rows (drop_coords t1) = Ok t →
  NoDup (columns t).
Proof.
  intros Hnd Hj (t2 & days & ta & lasts & Hj2 & _ & Hta & _ & Ht)%add_cols_of_ok.
  eapply set_col_NoDup; [exact Ht|].
  eapply set_col_NoDup; [exact Hta|].
  eapply join_NoDup; [exact Hj2| |].
  - apply drop_coords_NoDup. eapply join_NoDup; [exact Hj| |done].
    apply (bool_decide_unpack _). by vm_compute.
  - apply (bool_decide_unpack _). by vm_compute.
Qed.

(** With distinct column names, removing the two names from the list of
    [float64] columns is keeping the feature columns. *)
Lemma feature_cols_filter t cols :
  NoDup (columns t) → feature_cols t = Ok cols →
  cols = cname <$> filter is_feature (fcols t).
Proof.
  intros Hnd (cols1 & H1 & H2)%res_bind_ok.
  assert (NoDup (cname <$> filter (λ c, cdtype c = float64) (fcols t))) as Hnd1.
  { eapply sublist_NoDup; [exact Hnd|]. apply fmap_sublist, sublist_filter. }
  apply list_remove_NoDup in H1; [|done].
  apply list_remove_NoDup in H2; [|rewrite H1; by apply NoDup_filter].
  rewrite H2, H1, !filter_fmap, !list_filter_filter. f_equal.
  apply list_filter_iff. intros c. unfold is_feature. tauto.
Qed.

Lemma res_mapM_fmap {A B} (f : A → res B) (g : A → B) l :
  (∀ x, x ∈ l → f x = Ok (g x)) → res_mapM f l = Ok (g <$> l).
Proof.
  induction l as [|x l IH]; intros Hf; [done|].
  simpl. rewrite Hf by left. simpl. rewrite IH; [done|].
  intros y Hy. apply Hf. by right.
Qed.

Lemma head_filter_name cols c :
  NoDup (cname <$> cols) → c ∈ cols →
  head (filter (λ c', cname c' = cname c) cols) = Some c.
Proof.
  induction cols as [|x cols IH]; intros Hnd Hc.
  - by apply elem_of_nil in Hc.
  - rewrite fmap_cons in Hnd. apply NoDup_cons in Hnd as [Hx Hnd].
    rewrite filter_cons. apply elem_of_cons in Hc as [Heq|Hc].
    + subst x. by rewrite decide_True.
    + rewrite decide_False; [auto|]. intros Heq. apply Hx.
      rewrite Heq. by apply list_elem_of_fmap_2.
Qed.

Lemma get_col_fmap_NoDup (g : column → column) idx cols c :
  (∀ c, cname (g c) = cname c) → NoDup (cname <$> cols) → c ∈ cols →
  get_col (cname c) (Frame idx (g <$> cols)) = Ok (g c).
Proof.
  intros Hg. induction cols as [|x cols IH]; intros Hnd Hc.
  - by apply elem_of_nil in Hc.
  - rewrite fmap_cons in Hnd. apply NoDup_cons in Hnd as [Hx Hnd].
    rewrite fmap_cons, get_col_cons, Hg.
    apply elem_of_cons in Hc as [Heq|Hc]; [subst x; by rewrite decide_True|].
    rewrite decide_False; [auto|].
    intros Heq. apply Hx. rewrite Heq. by apply list_elem_of_fmap_2.
Qed.

Lemma select_fmap_NoDup (g : column → column) (P : column → Prop)
    `{∀ c, Decision (P c)} idx cols :
  (∀ c, cname (g c) = cname c) → NoDup (cname <$> cols) →
  select (cname <$> filter P cols) (Frame idx (g <$> cols))
  = Ok (Frame idx (g <$> filter P cols)).
Proof.
  intros Hg Hnd. unfold select.
  rewrite (res_mapM_fmap _ (λ n, default (Column n object [])
                                   (g <$> head (filter (λ c, cname c = n) cols)))).
  - simpl. f_equal. f_equal. rewrite <- list_fmap_compose.
    apply list_fmap_ext. intros i c Hc. simpl.
    apply list_elem_of_lookup_2, list_elem_of_filter in Hc as [_ Hc].
    by rewrite head_filter_name.
  - intros n (c & -> & [_ Hc]%list_elem_of_filter)%list_elem_of_fmap.
    rewrite (get_col_fmap_NoDup g idx cols c Hg Hnd Hc). f_equal.
    by rewrite head_filter_name.
Qed.

Lemma omap_id_fmap {A B} (f : A → option B) (l : list A) :
  omap id (f <$> l) = omap f l.
Proof.
  induction l as [|x l IH]; [done|]. csimpl. destruct (f x); csimpl; by rewrite IH.
Qed.

Lemma list_find_own {B} (h : column → B) cols c :
  NoDup (cname <$> cols) → c ∈ cols →
  ∃ i, list_find (λ p : string * B, p.1 = cname c)
         ((λ c, (cname c, h c)) <$> cols)
       = Some (i, (cname c, h c)).
Proof.
  induction cols as [|x cols IH]; intros Hnd Hc.
  - by apply elem_of_nil in Hc.
  - rewrite fmap_cons in Hnd. apply NoDup_cons in Hnd as [Hx Hnd].
    apply elem_of_cons in Hc as [Heq|Hc].
    + subst x. csimpl. rewrite decide_True by done. eauto.
    + destruct (IH Hnd Hc) as [i Hi]. csimpl. rewrite decide_False.
      * rewrite Hi. simpl. eauto.
      * intros Heq. apply Hx. rewrite Heq. by apply list_elem_of_fmap_2.
Qed.

Lemma transform_fitted ss (h : column → col_params) t st :
  fitted ss = Some ((λ c, (cname c, h c))
                      <$> filter (λ c, numeric c = true) (fcols t)) →
  NoDup (columns t) →
  StdScale_transform ss t = Ok st →
  fcols st
  = (λ c, if numeric c
          then Column (cname c) float64 (rescale ss (h c) <$> cvals c)
          else c) <$> fcols t.
Proof.
  intros Hfit Hnd Hst. unfold StdScale_transform in Hst. rewrite Hfit in Hst.
  apply res_bind_ok in Hst as (cols & Hcols & [= <-]).
  rewrite (res_mapM_fmap _
             (λ c, if numeric c
                   then Column (cname c) float64 (rescale ss (h c) <$> cvals c)
                   else c)) in Hcols; [by injection Hcols|].
  intros c Hc. destruct (numeric c) eqn:En; [|done].
  edestruct (list_find_own h (filter (λ c, numeric c = true) (fcols t)) c)
    as [i Hi].
  { eapply sublist_NoDup; [exact Hnd|]. apply fmap_sublist, sublist_filter. }
  { by apply list_elem_of_filter. }
  by rewrite Hi.
Qed.

Section standardised.
Context (stdev : list Q → Q).

(** [StdScale(std=True, scale=False)], fitted on a table and applied to
    it, takes the mean off every numeric column and divides by nothing. *)
Lemma std_table_columns t st :
  NoDup (columns t) →
  StdScale_transform (StdScale_fit stdev (mkStdScale true false None) t) t
    = Ok st →
  findex st = findex t ∧
  fcols st = (λ c, if numeric c then center c else c) <$> fcols t.
Proof.
  intros Hnd Hst. split; [by apply StdScale_transform_index in Hst|].
  rewrite (transform_fitted
             (StdScale_fit stdev (mkStdScale true false None) t)
             (λ c, match omap num (cvals c) with
                   | [] => (None, None)
                   | xs => (Some (Qsum xs / inject_Z (Z.of_nat (length xs)))%Q,
                            None)
                   end) t st eq_refl Hnd Hst).
  apply list_fmap_ext. intros _ c _. simpl.
  destruct (numeric c); [|done]. unfold center. f_equal.
  apply list_fmap_ext. intros _ v _. unfold rescale, mean.
  rewrite omap_id_fmap. simpl.
  destruct (num v) as [x|]; [|done].
  by destruct (omap num (cvals c)).
Qed.
End standardised.

(** ** Objects that exist before a run are left alone *)

Lemma safe_ret {A} n (a : A) (Q : A → Prop) : Q a → safe n (mret a) Q.
Proof. intros HQ w r w' Hn [= <- <-]. split; [done|]. by intros ? [= <-]. Qed.

Lemma safe_bind {A B} n (m : M A) (k : A → M B) (Q : A → Prop) (R : B → Prop) :
  safe n m Q → (∀ a, Q a → safe n (k a) R) → safe n (m ≫= k) R.
Proof.
  intros Hm Hk w r w' Hn Hrun. unfold mbind, M_bind in Hrun.
  destruct (m w) as [[a|e] w1] eqn:E.
  - destruct (Hm _ _ _ Hn E) as [[Hn1 Hkeep1] HQ].
    destruct (Hk a (HQ a eq_refl) _ _ _ Hn1 Hrun) as [[Hn2 Hkeep2] HR].
    split; [|done]. split; [done|]. intros l Hl.
    by rewrite Hkeep2, Hkeep1.
  - injection Hrun as <- <-. destruct (Hm _ _ _ Hn E) as [Hkeep _].
    split; [done|]. by intros.
Qed.

(** A computation that does not change the world. *)
Lemma safe_read {A} n (m : M A) (Q : A → Prop) :
  (∀ w r w', m w = (r, w') → w' = w ∧ ∀ a, r = Ok a → Q a) → safe n m Q.
Proof.
  intros Hm w r w' Hn Hrun. destruct (Hm _ _ _ Hrun) as [-> HQ]. by split.
Qed.

Lemma safe_attr {A} n (o : option A) (Q : A → Prop) :
  (∀ a, o = Some a → Q a) → safe n (attr o) Q.
Proof.
  intros HQ. apply safe_read. intros w r w'.
  destruct o as [a|]; intros [= <- <-]; split; try done.
  intros ? [= <-]. auto.
Qed.

Lemma safe_attr_any {A} n (o : option A) : safe n (attr o) (λ _, True).
Proof. by apply safe_attr. Qed.

Lemma safe_lift {A} n (r : res A) : safe n (lift r) (λ _, True).
Proof. apply safe_read. by intros w r' w' [= <- <-]. Qed.

Lemma safe_read_table n (l : loc) : safe n (read_table l) (λ _, True).
Proof.
  apply safe_read. intros w r w'. unfold read_table.
  by destruct (heap w !! l) as [[]|]; intros [= <- <-].
Qed.

Lemma safe_read_txns n (l : loc) : safe n (read_txns l) (λ _, True).
Proof.
  apply safe_read. intros w r w'. unfold read_txns.
  by destruct (heap w !! l) as [[]|]; intros [= <- <-].
Qed.

Lemma safe_alloc n o : safe n (alloc o) (λ l, n ≤ l).
Proof.
  intros w r w' Hn [= <- <-]. simpl. split.
  - split; [rewrite length_app; lia|].
    intros l Hl. apply lookup_app_l. lia.
  - by intros ? [= <-].
Qed.

Lemma safe_update_table n (l : loc) f :
  n ≤ l → safe n (update_table l f) (λ _, True).
Proof.
  intros Hl w r w' Hn. unfold update_table, mbind, M_bind, read_table, lift.
  destruct (heap w !! l) as [[rows|t]|]; try (by intros [= <- <-]).
  destruct (f t) as [t'|e]; [|by intros [= <- <-]].
  unfold write_table. intros [= <- <-]. simpl. split; [|done].
  split; [by rewrite length_insert|].
  intros l' Hl'. apply list_lookup_insert_ne. lia.
Qed.

(** A computation that leaves the heap as it is. *)
Lemma safe_heap {A} n (m : M A) :
  (∀ w r w', m w = (r, w') → heap w' = heap w) → safe n m (λ _, True).
Proof.
  intros Hm w r w' Hn Hrun. rewrite (Hm _ _ _ Hrun). by split.
Qed.

Lemma safe_call {A} n (c : lib A) : safe n (call c) (λ _, True).
Proof.
  apply safe_heap. intros w r w'. unfold call.
  destruct (c (rng w)). by intros [= _ <-].
Qed.

Lemma safe_mapM {A B} n (f : A → M B) l :
  (∀ x, safe n (f x) (λ _, True)) → safe n (mapM f l) (λ _, True).
Proof.
  intros Hf. induction l as [|x l IH]; [by apply safe_ret|].
  simpl. eapply safe_bind; [apply Hf|]. intros y _.
  eapply safe_bind; [apply IH|]. intros ys _. by apply safe_ret.
Qed.

Lemma safe_try_pass n (m : M ()) (Q : () → Prop) :
  safe n m Q → safe n (try_pass m) (λ _, True).
Proof.
  intros Hm w r w' Hn. unfold try_pass.
  destruct (m w) as [[u|e] w1] eqn:E; intros [= <- <-];
    by destruct (Hm _ _ _ Hn E) as [Hkeep _].
Qed.

Lemma safe_read_pickle n path : safe n (read_pickle path) (λ l, n ≤ l).
Proof.
  intros w r w' Hn. unfold read_pickle.
  destruct (files w !! path); [by apply safe_alloc|].
  intros [= <- <-]. by split.
Qed.

Lemma safe_to_pickle n (l : loc) path : safe n (to_pickle l path) (λ _, True).
Proof.
  apply safe_heap. intros w r w'. unfold to_pickle, mbind, M_bind, read_table.
  destruct (heap w !! l) as [[rows|t]|]; try (by intros [= _ <-]).
  unfold write_file. by destruct (writable w); intros [= _ <-].
Qed.

Section safety.
Context (stdev : list Q → Q) (KMeans_lib : nat → frame → lib (list nat)).
Context (plot_clust_lib : frame → list value → lib unit).
Context (plot_ss_lib : frame → lib unit).

Lemma safe_days_between_visits n self add :
  safe n (_days_between_visits self add) (λ _, True).
Proof.
  eapply safe_bind; [apply safe_attr_any|]. intros l _.
  eapply safe_bind; [apply safe_read_txns|]. intros rows _. apply safe_lift.
Qed.

Lemma safe_last_visit n self add :
  safe n (_last_visit self add) (λ _, True).
Proof.
  eapply safe_bind; [apply safe_attr_any|]. intros l _.
  eapply safe_bind; [apply safe_read_txns|]. intros rows _. apply safe_lift.
Qed.

Lemma safe_apply_rows n f l :
  (∀ x, safe n (f x) (λ _, True)) → safe n (apply_rows f l) (λ _, True).
Proof.
  intros Hf. eapply safe_bind; [apply safe_read_table|]. intros t _.
  by apply safe_mapM.
Qed.

Lemma safe_add_cols n self :
  safe n (_add_cols self)
       (λ self', (∀ l, cust_table self' = Some l → n ≤ l)).
Proof.
  unfold _add_cols.
  eapply safe_bind; [apply safe_attr_any|]. intros l _.
  eapply safe_bind; [apply safe_read_txns|]. intros rows _.
  eapply safe_bind; [apply safe_attr_any|]. intros ct _.
  eapply safe_bind; [apply safe_read_table|]. intros t _.
  eapply safe_bind; [apply safe_lift|]. intros t' _.
  eapply safe_bind; [apply safe_alloc|]. intros ct' Hct'.
  eapply safe_bind;
    [apply safe_apply_rows; intros; apply safe_days_between_visits|].
  intros days _.
  eapply safe_bind; [by apply safe_update_table|]. intros _ _.
  eapply safe_bind;
    [apply safe_apply_rows; intros; apply safe_last_visit|].
  intros lasts _.
  eapply safe_bind; [by apply safe_update_table|]. intros _ _.
  apply safe_ret. by intros l' [= <-].
Qed.

Lemma safe_build_cust_table n self :
  safe n (build_cust_table self)
       (λ self', (∀ l, cust_table self' = Some l → n ≤ l)).
Proof.
  unfold build_cust_table.
  eapply safe_bind; [apply safe_attr_any|]. intros l _.
  eapply safe_bind; [apply safe_read_txns|]. intros rows _.
  eapply safe_bind; [apply safe_alloc|]. intros ct Hct.
  eapply safe_bind; [by apply safe_update_table|]. intros _ _.
  eapply safe_bind; [apply safe_read_pickle|]. intros r _.
  eapply safe_bind; [apply safe_read_table|]. intros t _.
  eapply safe_bind; [apply safe_read_table|]. intros tr _.
  eapply safe_bind; [apply safe_lift|]. intros t' _.
  eapply safe_bind; [apply safe_alloc|]. intros ct' Hct'.
  eapply safe_bind.
  { eapply safe_try_pass, safe_bind; [by apply safe_update_table|].
    intros _ _. by apply safe_update_table. }
  intros _ _. apply safe_add_cols.
Qed.

Lemma safe_std_cust_table n self :
  safe n (_std_cust_table stdev self)
       (λ self', cust_table self' = cust_table self
                 ∧ ∀ l, std_cust_table self' = Some l → n ≤ l).
Proof.
  unfold _std_cust_table.
  eapply safe_bind; [apply safe_attr_any|]. intros ct _.
  eapply safe_bind; [apply safe_read_table|]. intros t _.
  eapply safe_bind; [apply safe_alloc|]. intros sl _.
  eapply safe_bind; [apply safe_read_table|]. intros X _.
  unfold StdScale_fit_transform.
  eapply safe_bind; [apply safe_lift|]. intros X' _.
  eapply safe_bind; [apply safe_alloc|]. intros sl' Hsl'.
  apply safe_ret. split; [done|]. by intros l' [= <-].
Qed.

Lemma safe_cluster n self :
  fresh_tables n self →
  safe n (_cluster KMeans_lib self)
       (λ self', cust_table self' = cust_table self
                 ∧ std_cust_table self' = std_cust_table self).
Proof.
  intros [Hct Hsl]. unfold _cluster.
  eapply safe_bind; [apply safe_attr, Hct|]. intros ct Hct'.
  eapply safe_bind; [apply safe_read_table|]. intros t _.
  eapply safe_bind; [apply safe_lift|]. intros cols1 _.
  eapply safe_bind; [apply safe_lift|]. intros cols _.
  eapply safe_bind; [apply safe_attr, Hsl|]. intros sl Hsl'.
  eapply safe_bind; [apply safe_read_table|]. intros st _.
  eapply safe_bind; [apply safe_lift|]. intros X _.
  eapply safe_bind.
  { unfold KMeans_fit_predict. eapply safe_bind; [|intros; apply safe_call].
    apply (safe_heap n (λ w, (Ok (), log_kmeans (clusters self, X) w))).
    by intros w r w' [= _ <-]. }
  intros pred _.
  eapply safe_bind; [by apply safe_update_table|]. intros _ _.
  eapply safe_bind; [by apply safe_update_table|]. intros _ _.
  by apply safe_ret.
Qed.

Lemma safe_plot_clust n self l :
  safe n (plot_clust plot_clust_lib self l) (λ _, True).
Proof.
  unfold plot_clust.
  eapply safe_bind; [apply safe_attr_any|]. intros cols _.
  eapply safe_bind; [apply safe_read_table|]. intros t _.
  eapply safe_bind; [apply safe_lift|]. intros X _.
  eapply safe_bind; [apply safe_lift|]. intros c _.
  apply safe_call.
Qed.

Lemma safe_plot_ss n self l :
  safe n (plot_ss plot_ss_lib self l) (λ _, True).
Proof.
  unfold plot_ss.
  eapply safe_bind; [apply safe_attr_any|]. intros cols _.
  eapply safe_bind; [apply safe_read_table|]. intros t _.
  eapply safe_bind; [apply safe_lift|]. intros X _.
  apply safe_call.
Qed.

(** [transform] is safe for every object of the heap it is called in. *)
Lemma safe_transform n self dfl :
  safe n (transform stdev KMeans_lib plot_clust_lib plot_ss_lib self dfl)
       (λ _, True).
Proof.
  unfold transform.
  eapply safe_bind; [apply safe_read_txns|]. intros rows _.
  eapply safe_bind; [apply safe_alloc|]. intros l _.
  eapply safe_bind; [apply safe_build_cust_table|]. intros self1 Hct.
  eapply safe_bind; [apply safe_std_cust_table|]. intros self2 [Hct2 Hsl].
  eapply safe_bind.
  { apply safe_cluster. split; [|done]. rewrite Hct2. exact Hct. }
  intros self3 _.
  eapply (safe_bind _ _ _ (λ _, True)).
  { destruct (plot_clusts self3); [|by apply safe_ret].
    eapply safe_bind; [apply safe_attr_any|]. intros; apply safe_plot_clust. }
  intros _ _.
  eapply (safe_bind _ _ _ (λ _, True)).
  { destruct (plot_sil self3); [|by apply safe_ret].
    eapply safe_bind; [apply safe_attr_any|]. intros; apply safe_plot_ss. }
  intros _ _.
  eapply safe_bind; [apply safe_attr_any|]. intros ct _.
  eapply safe_bind; [apply safe_to_pickle|]. intros _ _.
  by apply safe_ret.
Qed.
End safety.

(** * The claims of the specification *)

Section claims.
Context (stdev : list Q → Q) (KMeans_lib : nat → frame → lib (list nat)).
Context (plot_clust_lib : frame → list value → lib unit).
Context (plot_ss_lib : frame → lib unit).
Context (PublicData_lib : list txn → lib (list txn)).

(** C3: in the customer table [transform] returns, the row of every
    store of the input holds, in [days_between_visits], the days elapsed
    between the first and the last visit date of the store divided by the
    number of its distinct visit dates. *)
Theorem days_between_visits_column self dfl w self' ct w' rows :
  transform stdev KMeans_lib plot_clust_lib plot_ss_lib self dfl w
    = (Ok (self', ct), w') →
  heap w !! dfl = Some (Txns rows) →
  ∃ tf days,
    heap w' !! ct = Some (Table tf) ∧
    get_col "days_between_visits" tf
      = Ok (Column "days_between_visits" float64 days) ∧
    (∀ k, k ∈ findex tf ↔ ∃ a, k = VStr a ∧ a ∈ address1 <$> rows) ∧
    ∀ i a, findex tf !! i = Some (VStr a) →
      ∃ first last,
        is_min first (store_dates rows a) ∧
        is_max last (store_dates rows a) ∧
        days !! i
        = Some (VFloat
                  (inject_Z (last - first)
                   / inject_Z (Z.of_nat
                                 (length (remove_dups (store_dates rows a)))))).
Proof.
  intros Hrun Hrows.
  destruct (transform_table _ _ _ _ _ _ _ _ _ _ _ Hrun Hrows)
    as (tf & avgs & days & lasts & Htf & Hlab & _ & Hdays & _ & Hrow).
  exists tf, days. split_and!; [done..|].
  intros i a Hi.
  destruct (Hrow i a Hi) as (_ & (v & Hv & Hof) & _).
  apply days_between_visits_of_store in Hof
    as (first & last & Hmin & Hmax & ->).
  by exists first, last.
Qed.

(** C7: in the customer table [transform] returns, the row of every
    store of the input holds, in [last_visit], the greatest visit date
    among the transaction rows of the store. *)
Theorem last_visit_column self dfl w self' ct w' rows :
  transform stdev KMeans_lib plot_clust_lib plot_ss_lib self dfl w
    = (Ok (self', ct), w') →
  heap w !! dfl = Some (Txns rows) →
  ∃ tf lasts,
    heap w' !! ct = Some (Table tf) ∧
    get_col "last_visit" tf = Ok (Column "last_visit" datetime64 lasts) ∧
    (∀ k, k ∈ findex tf ↔ ∃ a, k = VStr a ∧ a ∈ address1 <$> rows) ∧
    ∀ i a, findex tf !! i = Some (VStr a) →
      ∃ last, is_max last (store_dates rows a) ∧
              lasts !! i = Some (VDate last).
Proof.
  intros Hrun Hrows.
  destruct (transform_table _ _ _ _ _ _ _ _ _ _ _ Hrun Hrows)
    as (tf & avgs & days & lasts & Htf & Hlab & _ & _ & Hlast & Hrow).
  exists tf, lasts. split_and!; [done..|].
  intros i a Hi.
  destruct (Hrow i a Hi) as (_ & _ & (v & Hv & Hof)).
  apply last_visit_of_store in Hof as (last & Hmax & ->).
  by exists last.
Qed.


(** C9: when [run_cust_seg] is called with [load_table] set and reading
    the cached customer table fails, the error goes no further: the
    function goes on as without [load_table], recomputes the customer
    table from the input dataframe and returns that table. *)
Theorem run_cust_seg_fallback df num_clusts pc ps w e w1 :
  read_pickle "../data/SRP/cust_table_out.pkl" w = (Raise e, w1) →
  run_cust_seg stdev KMeans_lib plot_clust_lib plot_ss_lib PublicData_lib
    df true num_clusts pc ps w
  = (df_public ← PublicData_fit_transform PublicData_lib df;
     '(_, cust_table) ←
       fit_transform stdev KMeans_lib plot_clust_lib plot_ss_lib
         (CustSeg_init num_clusts pc ps) df_public;
     mret cust_table) w1
  ∧ w1 = w
  ∧ run_cust_seg stdev KMeans_lib plot_clust_lib plot_ss_lib PublicData_lib
      df true num_clusts pc ps w
    = run_cust_seg stdev KMeans_lib plot_clust_lib plot_ss_lib
        PublicData_lib df false num_clusts pc ps w.
Proof.
  intros Hread.
  assert (w1 = w) as ->.
  { unfold read_pickle in Hread.
    destruct (files w !! _); [|by injection Hread]. by unfold alloc in Hread. }
  unfold run_cust_seg, try_return. by rewrite Hread.
Qed.

(** C10: [transform] does not touch the dataframe it is given, nor any
    object that exists when it is called: what a location held before the
    call, it holds after it, whether [transform] returns or raises.  The
    work is done on [df.copy()] and on tables made during the call. *)
Theorem transform_keeps_input self dfl w r w' :
  transform stdev KMeans_lib plot_clust_lib plot_ss_lib self dfl w = (r, w') →
  (∀ rows, heap w !! dfl = Some (Txns rows) →
           heap w' !! dfl = Some (Txns rows)) ∧
  (∀ l o, heap w !! l = Some o → heap w' !! l = Some o).
Proof.
  intros Hrun.
  destruct (safe_transform stdev KMeans_lib plot_clust_lib plot_ss_lib
              (length (heap w)) self dfl w r w' (le_n _) Hrun)
    as [[_ Hkeep] _].
  assert (∀ l o, heap w !! l = Some o → heap w' !! l = Some o) as Hall.
  { intros l o Hl. rewrite Hkeep; [done|]. by eapply lookup_lt_Some. }
  split; [|done]. intros rows. apply Hall.
Qed.
End claims.

Lemma ex_run_ok :
  transform ex_stdev ex_kmeans ex_plot_clust ex_plot_ss ex_CustSeg 0 ex_world
  = (Ok (ex_self', 5), ex_run.2).
Proof. vm_compute. reflexivity. Defined.

Lemma days_between_visits_column_witness :
  ex_run = (Ok (ex_self', 5), ex_run.2) ∧
  heap ex_world !! 0 = Some (Txns ex_rows) ∧
  ∃ tf days,
    heap ex_run.2 !! 5 = Some (Table tf) ∧
    get_col "days_between_visits" tf
      = Ok (Column "days_between_visits" float64 days) ∧
    (∀ k, k ∈ findex tf ↔ ∃ a, k = VStr a ∧ a ∈ address1 <$> ex_rows) ∧
    ∀ i a, findex tf !! i = Some (VStr a) →
      ∃ first last,
        is_min first (store_dates ex_rows a) ∧
        is_max last (store_dates ex_rows a) ∧
        days !! i
        = Some (VFloat
                  (inject_Z (last - first)
                   / inject_Z (Z.of_nat
                                 (length (remove_dups (store_dates ex_rows a)))))).
Proof.
  split; [exact ex_run_ok|]. split; [reflexivity|].
  exact (days_between_visits_column _ _ _ _ _ _ _ _ _ _ _ ex_run_ok eq_refl).
Defined.

Lemma last_visit_column_witness :
  ex_run = (Ok (ex_self', 5), ex_run.2) ∧
  heap ex_world !! 0 = Some (Txns ex_rows) ∧
  ∃ tf lasts,
    heap ex_run.2 !! 5 = Some (Table tf) ∧
    get_col "last_visit" tf = Ok (Column "last_visit" datetime64 lasts) ∧
    (∀ k, k ∈ findex tf ↔ ∃ a, k = VStr a ∧ a ∈ address1 <$> ex_rows) ∧
    ∀ i a, findex tf !! i = Some (VStr a) →
      ∃ last, is_max last (store_dates ex_rows a) ∧
              lasts !! i = Some (VDate last).
Proof.
  split; [exact ex_run_ok|]. split; [reflexivity|].
  exact (last_visit_column _ _ _ _ _ _ _ _ _ _ _ ex_run_ok eq_refl).
Defined.



Lemma run_cust_seg_fallback_witness :
  read_pickle "../data/SRP/cust_table_out.pkl" ex_world
    = (Raise IOError, ex_world) ∧
  run_cust_seg ex_stdev ex_kmeans ex_plot_clust ex_plot_ss ex_PublicData
    0 true 2 false false ex_world
  = (df_public ← PublicData_fit_transform ex_PublicData 0;
     '(_, cust_table) ←
       fit_transform ex_stdev ex_kmeans ex_plot_clust ex_plot_ss
         (CustSeg_init 2 false false) df_public;
     mret cust_table) ex_world
  ∧ ex_world = ex_world
  ∧ run_cust_seg ex_stdev ex_kmeans ex_plot_clust ex_plot_ss ex_PublicData
      0 true 2 false false ex_world
    = run_cust_seg ex_stdev ex_kmeans ex_plot_clust ex_plot_ss ex_PublicData
        0 false 2 false false ex_world.
Proof.
  assert (read_pickle "../data/SRP/cust_table_out.pkl" ex_world
          = (Raise IOError, ex_world)) as Hread by reflexivity.
  split; [exact Hread|].
  exact (run_cust_seg_fallback ex_stdev ex_kmeans ex_plot_clust ex_plot_ss
           ex_PublicData 0 2 false false ex_world IOError ex_world Hread).
Defined.

Lemma transform_keeps_input_witness :
  ex_run = (Ok (ex_self', 5), ex_run.2) ∧
  (∀ rows, heap ex_world !! 0 = Some (Txns rows) →
           heap ex_run.2 !! 0 = Some (Txns rows)) ∧
  (∀ l o, heap ex_world !! l = Some o → heap ex_run.2 !! l = Some o).
Proof.
  split; [exact ex_run_ok|].
  exact (transform_keeps_input _ _ _ _ _ _ _ _ _ ex_run_ok).
Defined.

Section claims_clusters.
Context (stdev : list Q → Q) (KMeans_lib : nat → frame → lib (list nat)).
Context (plot_clust_lib : frame → list value → lib unit).
Context (plot_ss_lib : frame → lib unit).

(** C2, as the code has it: when the address table read from
    [custs_by_address.pkl] lists no address twice, the customer table
    [transform] returns has exactly one row per distinct store address of
    the input; every row carries in [cluster] a string, the decimal
    writing of the label [KMeans] gave it, which is below [clusters] as
    [KMeans] labels are; and the standardised table carries the same
    labels on the same rows. *)
Theorem cust_table_rows_and_labels self dfl w self' ct w' rows addr :
  transform stdev KMeans_lib plot_clust_lib plot_ss_lib self dfl w
    = (Ok (self', ct), w') →
  heap w !! dfl = Some (Txns rows) →
  files w !! "../data/SRP/custs_by_address.pkl" = Some addr →
  NoDup (findex addr) →
  (∀ k X g pred g',
     KMeans_lib k X g = (Ok pred, g') → Forall (λ n, n < k) pred) →
  ∃ tf sl stf labels,
    heap w' !! ct = Some (Table tf) ∧
    one_row_per_store rows tf ∧
    get_col "cluster" tf = Ok (Column "cluster" object labels) ∧
    (∀ i, i < nrows tf →
       ∃ n, labels !! i = Some (VStr (pretty n)) ∧ n < clusters self) ∧
    std_cust_table self' = Some sl ∧
    heap w' !! sl = Some (Table stf) ∧
    findex stf = findex tf ∧
    get_col "cluster" stf = Ok (Column "cluster" object labels).
Proof.
  intros Hrun Hrows Haddr Hnd Hkm.
  apply transform_ok in Hrun
    as (rows' & addr' & t1 & t & st & cols & X & pred & g & tf & stf
        & Hrows' & Hfa & Hj & Ha & Hst & Hfc & HX & Hk & Htf & Hstf
        & -> & -> & Hheap & Hfiles & Hcalls).
  assert (rows' = rows) as -> by congruence.
  assert (addr' = addr) as -> by congruence.
  destruct (with_cluster_ok _ _ _ Htf) as (Hidx & Hlen & Hcl & _).
  destruct (with_cluster_ok _ _ _ Hstf) as (Hidx' & _ & Hcl' & _).
  assert (findex t = VStr <$> group_keys (address1 <$> rows)) as Ht.
  { rewrite (add_cols_of_index _ _ _ Ha), drop_coords_index.
    by rewrite (join_index_unique _ _ _ Hnd Hj). }
  exists tf, (length (heap w) + 6), stf, (astype_str pred).
  split_and!; try done.
  - rewrite Hheap. by rewrite lookup_past.
  - split.
    + rewrite Hidx, Ht. apply store_index_NoDup.
    + intros k. rewrite Hidx, Ht. apply store_labels_elem.
  - intros i Hi. unfold nrows in Hi, Hlen. rewrite Hidx, <- Hlen in Hi.
    destruct (lookup_lt_is_Some_2 pred i Hi) as [n Hn].
    exists n. rewrite astype_str_lookup, Hn. split; [done|].
    exact (Forall_lookup_1 _ _ _ _ (Hkm _ _ _ _ _ Hk) Hn).
  - rewrite Hheap. by rewrite lookup_past.
  - rewrite Hidx', Hidx. by apply StdScale_transform_index in Hst.
Qed.

(** C8: two runs of [transform] on dataframes that hold the same rows,
    with the same number of clusters, the same address table and the same
    state of the random generator return the same customer table: the
    same rows with the same labels, hence the same partition of the
    stores.  [KMeans] is taken as a function of its arguments and of the
    generator state; nothing else a run can see (the other objects, the
    attributes a former run left on [self], the files already written)
    has a part in the result. *)
Theorem clustering_deterministic
    self1 df1 w1 self1' ct1 w1' self2 df2 w2 self2' ct2 w2' rows :
  transform stdev KMeans_lib plot_clust_lib plot_ss_lib self1 df1 w1
    = (Ok (self1', ct1), w1') →
  transform stdev KMeans_lib plot_clust_lib plot_ss_lib self2 df2 w2
    = (Ok (self2', ct2), w2') →
  clusters self1 = clusters self2 →
  heap w1 !! df1 = Some (Txns rows) →
  heap w2 !! df2 = Some (Txns rows) →
  files w1 !! "../data/SRP/custs_by_address.pkl"
    = files w2 !! "../data/SRP/custs_by_address.pkl" →
  rng w1 = rng w2 →
  ∃ tf labels,
    heap w1' !! ct1 = Some (Table tf) ∧
    heap w2' !! ct2 = Some (Table tf) ∧
    get_col "cluster" tf = Ok (Column "cluster" object labels) ∧
    ∀ tf1 tf2 l1 l2,
      heap w1' !! ct1 = Some (Table tf1) →
      heap w2' !! ct2 = Some (Table tf2) →
      get_col "cluster" tf1 = Ok (Column "cluster" object l1) →
      get_col "cluster" tf2 = Ok (Column "cluster" object l2) →
      findex tf1 = findex tf2 ∧ same_partition l1 l2.
Proof.
  intros Hrun1 Hrun2 Hk Hrows1 Hrows2 Hfiles Hrng.
  apply transform_ok in Hrun1
    as (rows1 & addr1 & t1 & t & st & cols & X & pred & g & tf & stf
        & Hr1 & Hfa1 & Hj1 & Ha1 & Hst1 & Hfc1 & HX1 & Hk1 & Htf1 & Hstf1
        & -> & -> & Hheap1 & _ & _).
  apply transform_ok in Hrun2
    as (rows2 & addr2 & t1' & t' & st' & cols' & X' & pred' & g' & tf' & stf'
        & Hr2 & Hfa2 & Hj2 & Ha2 & Hst2 & Hfc2 & HX2 & Hk2 & Htf2 & Hstf2
        & -> & -> & Hheap2 & _ & _).
  assert (rows1 = rows) as -> by congruence.
  assert (rows2 = rows) as -> by congruence.
  assert (addr2 = addr1) as -> by congruence.
  assert (t1' = t1) as -> by congruence.
  assert (t' = t) as -> by congruence.
  assert (st' = st) as -> by congruence.
  assert (cols' = cols) as -> by congruence.
  assert (X' = X) as -> by congruence.
  rewrite <- Hk, <- Hrng, Hk1 in Hk2. injection Hk2 as <- <-.
  assert (tf' = tf) as -> by congruence.
  destruct (with_cluster_ok _ _ _ Htf1) as (_ & _ & Hcl & _).
  assert (heap w1' !! (length (heap w1) + 4) = Some (Table tf)) as H1
    by (rewrite Hheap1; by rewrite lookup_past).
  assert (heap w2' !! (length (heap w2) + 4) = Some (Table tf)) as H2
    by (rewrite Hheap2; by rewrite lookup_past).
  exists tf, (astype_str pred). split_and!; try done.
  intros tf1 tf2 l1 l2 E1 E2 Hc1 Hc2.
  injection (eq_trans (eq_sym E1) H1) as ->.
  injection (eq_trans (eq_sym E2) H2) as ->.
  assert (l2 = l1) as -> by congruence.
  split; [done|apply same_partition_refl].
Qed.
End claims_clusters.

Lemma ex_kmeans_labels k X g pred g' :
  ex_kmeans k X g = (Ok pred, g') → Forall (λ n, n < k) pred.
Proof.
  unfold ex_kmeans. case_decide as Hk; [done|]. intros [= <- _].
  apply Forall_fmap, Forall_forall. intros i _. simpl.
  by apply Nat.mod_upper_bound.
Defined.

Lemma cust_table_rows_and_labels_witness :
  ex_run = (Ok (ex_self', 5), ex_run.2) ∧
  heap ex_world !! 0 = Some (Txns ex_rows) ∧
  files ex_world !! "../data/SRP/custs_by_address.pkl" = Some ex_addr ∧
  NoDup (findex ex_addr) ∧
  (∀ k X g pred g',
     ex_kmeans k X g = (Ok pred, g') → Forall (λ n, n < k) pred) ∧
  ∃ tf sl stf labels,
    heap ex_run.2 !! 5 = Some (Table tf) ∧
    one_row_per_store ex_rows tf ∧
    get_col "cluster" tf = Ok (Column "cluster" object labels) ∧
    (∀ i, i < nrows tf →
       ∃ n, labels !! i = Some (VStr (pretty n)) ∧ n < clusters ex_CustSeg) ∧
    std_cust_table ex_self' = Some sl ∧
    heap ex_run.2 !! sl = Some (Table stf) ∧
    findex stf = findex tf ∧
    get_col "cluster" stf = Ok (Column "cluster" object labels).
Proof.
  assert (NoDup (findex ex_addr)) as Hnd
    by (apply (bool_decide_unpack _); vm_compute; exact I).
  split; [exact ex_run_ok|]. split; [reflexivity|]. split; [reflexivity|].
  split; [exact Hnd|]. split; [exact ex_kmeans_labels|].
  exact (cust_table_rows_and_labels _ _ _ _ _ _ _ _ _ _ _ _
           ex_run_ok eq_refl eq_refl Hnd ex_kmeans_labels).
Defined.

(** C2, as stated, fails: an address table that lists a store twice gives
    that store two rows. *)
Lemma cust_table_two_rows_for_a_store :
  ∃ self' ct tf,
    ex_twice_run.1 = Ok (self', ct) ∧
    heap ex_twice_run.2 !! ct = Some (Table tf) ∧
    ¬ one_row_per_store ex_dup_rows tf.
Proof.
  eexists _, _, _. split; [vm_compute; reflexivity|].
  split; [vm_compute; reflexivity|].
  intros [Hnd _]. vm_compute in Hnd.
  apply NoDup_cons in Hnd as [Hnotin _]. apply Hnotin. left.
Qed.

Lemma ex_run2_ok :
  transform ex_stdev ex_kmeans ex_plot_clust ex_plot_ss ex_self' 2 ex_world2
  = (Ok (ex_self2', 7), ex_run2.2).
Proof. vm_compute. reflexivity. Defined.

Lemma clustering_deterministic_witness :
  ex_run = (Ok (ex_self', 5), ex_run.2) ∧
  ex_run2 = (Ok (ex_self2', 7), ex_run2.2) ∧
  clusters ex_CustSeg = clusters ex_self' ∧
  heap ex_world !! 0 = Some (Txns ex_rows) ∧
  heap ex_world2 !! 2 = Some (Txns ex_rows) ∧
  files ex_world !! "../data/SRP/custs_by_address.pkl"
    = files ex_world2 !! "../data/SRP/custs_by_address.pkl" ∧
  rng ex_world = rng ex_world2 ∧
  ∃ tf labels,
    heap ex_run.2 !! 5 = Some (Table tf) ∧
    heap ex_run2.2 !! 7 = Some (Table tf) ∧
    get_col "cluster" tf = Ok (Column "cluster" object labels) ∧
    ∀ tf1 tf2 l1 l2,
      heap ex_run.2 !! 5 = Some (Table tf1) →
      heap ex_run2.2 !! 7 = Some (Table tf2) →
      get_col "cluster" tf1 = Ok (Column "cluster" object l1) →
      get_col "cluster" tf2 = Ok (Column "cluster" object l2) →
      findex tf1 = findex tf2 ∧ same_partition l1 l2.
Proof.
  assert (files ex_world !! "../data/SRP/custs_by_address.pkl"
          = files ex_world2 !! "../data/SRP/custs_by_address.pkl") as Hf
    by (vm_compute; reflexivity).
  split; [exact ex_run_ok|]. split; [exact ex_run2_ok|].
  split; [reflexivity|]. split; [reflexivity|]. split; [reflexivity|].
  split; [exact Hf|]. split; [reflexivity|].
  exact (clustering_deterministic _ _ _ _ _ _ _ _ _ _ _ _ _ _ _ _ _
           ex_run_ok ex_run2_ok eq_refl eq_refl eq_refl Hf eq_refl).
Defined.

Section claims_features.
Context (stdev : list Q → Q) (KMeans_lib : nat → frame → lib (list nat)).
Context (plot_clust_lib : frame → list value → lib unit).
Context (plot_ss_lib : frame → lib unit).

(** C5: in a run of [transform] (the address table having columns of
    distinct names), [KMeans] is called once, on a matrix that has the
    rows of the customer table and, for columns, exactly its [float64]
    columns other than [avg_UPC_per_visit] and [days_between_visits],
    each with the mean of its present cells taken off and divided by
    nothing; the matrix is taken from the standardised table, an object
    of its own, before the labels are written to it, and the customer
    table keeps its cells. *)
Theorem kmeans_feature_matrix self dfl w self' ct w' addr :
  transform stdev KMeans_lib plot_clust_lib plot_ss_lib self dfl w
    = (Ok (self', ct), w') →
  files w !! "../data/SRP/custs_by_address.pkl" = Some addr →
  NoDup (columns addr) →
  ∃ t st pred tf sl stf X,
    heap w' !! ct = Some (Table tf) ∧
    with_cluster pred t = Ok tf ∧
    std_cust_table self' = Some sl ∧ sl ≠ ct ∧
    heap w' !! sl = Some (Table stf) ∧
    with_cluster pred st = Ok stf ∧
    kmeans_calls w' = kmeans_calls w ++ [(clusters self, X)] ∧
    select (columns X) st = Ok X ∧
    findex X = findex t ∧
    fcols X = center <$> filter is_feature (fcols t).
Proof.
  intros Hrun Haddr Hnd.
  apply transform_ok in Hrun
    as (rows & addr' & t1 & t & st & cols & X & pred & g & tf & stf
        & Hrows & Hfa & Hj & Ha & Hst & Hfc & HX & Hk & Htf & Hstf
        & -> & -> & Hheap & Hfiles & Hcalls).
  assert (addr' = addr) as -> by congruence.
  pose proof (built_columns_NoDup _ _ _ _ Hnd Hj Ha) as Hndt.
  apply (feature_cols_filter _ _ Hndt) in Hfc. subst cols.
  destruct (std_table_columns stdev _ _ Hndt Hst) as [Hidx Hcols].
  pose proof HX as Hsel.
  destruct st as [idx scols]. simpl in Hidx, Hcols. subst idx scols.
  rewrite select_fmap_NoDup in HX; [|by intros c; destruct (numeric c)|done].
  injection HX as <-.
  assert ((λ c, if numeric c then center c else c) <$> filter is_feature (fcols t)
          = center <$> filter is_feature (fcols t)) as Hcenter.
  { apply list_fmap_ext. intros i c Hc.
    apply list_elem_of_lookup_2, list_elem_of_filter in Hc as [[Hd _] _].
    unfold numeric. by rewrite bool_decide_eq_true_2 by auto. }
  rewrite Hcenter in Hcalls, Hsel.
  eexists t, _, pred, tf, (length (heap w) + 6), stf,
    (Frame (findex t) (center <$> filter is_feature (fcols t))).
  split_and!; try done.
  - rewrite Hheap. by rewrite lookup_past.
  - simpl. lia.
  - rewrite Hheap. by rewrite lookup_past.
  - rewrite <- Hsel. f_equal. unfold columns. simpl.
    by rewrite <- list_fmap_compose.
Qed.
End claims_features.

Lemma kmeans_feature_matrix_witness :
  ex_run = (Ok (ex_self', 5), ex_run.2) ∧
  files ex_world !! "../data/SRP/custs_by_address.pkl" = Some ex_addr ∧
  NoDup (columns ex_addr) ∧
  ∃ t st pred tf sl stf X,
    heap ex_run.2 !! 5 = Some (Table tf) ∧
    with_cluster pred t = Ok tf ∧
    std_cust_table ex_self' = Some sl ∧ sl ≠ 5 ∧
    heap ex_run.2 !! sl = Some (Table stf) ∧
    with_cluster pred st = Ok stf ∧
    kmeans_calls ex_run.2 = kmeans_calls ex_world ++ [(clusters ex_CustSeg, X)] ∧
    select (columns X) st = Ok X ∧
    findex X = findex t ∧
    fcols X = center <$> filter is_feature (fcols t).
Proof.
  assert (NoDup (columns ex_addr)) as Hnd
    by (apply (bool_decide_unpack _); vm_compute; exact I).
  split; [exact ex_run_ok|]. split; [reflexivity|]. split; [exact Hnd|].
  exact (kmeans_feature_matrix _ _ _ _ _ _ _ _ _ _ _
           ex_run_ok eq_refl Hnd).
Defined.

(** C1 fails on the code: in [run_pred_model] and in [run_forc_model] the
    test partition is standardised with parameters fitted on the test
    partition itself, as [fit_transform] is called on it; on the tables
    [ex_X_train] and [ex_X_test] these are not the parameters fitted on the
    training partition, and the standardised test table is not the one the
    training parameters give. *)
Theorem standardizer_refit_on_test :
  (∀ stdev X_train X_test,
     (run_pred_model_standardize stdev X_train X_test).2
     = StdScale_transform
         (StdScale_fit stdev (mkStdScale true true None) X_test) X_test) ∧
  (∀ stdev X X_train X_test,
     (run_forc_model_standardize stdev X X_train X_test).2
     = StdScale_transform
         (StdScale_fit stdev (mkStdScale true true None) X_test) X_test) ∧
  (∀ stdev,
     fitted (run_pred_model_standardize stdev ex_X_train ex_X_test).1.1
     ≠ fitted (StdScale_fit stdev (mkStdScale true true None) ex_X_train)) ∧
  (∀ stdev,
     fitted (run_forc_model_standardize stdev ex_X_train ex_X_train ex_X_test).1.1.1
     ≠ fitted (StdScale_fit stdev (mkStdScale true true None) ex_X_train)) ∧
  (run_pred_model_standardize ex_stdev ex_X_train ex_X_test).2
  ≠ StdScale_transform
      (StdScale_fit ex_stdev (mkStdScale true true None) ex_X_train) ex_X_test.
Proof.
  split_and!.
  - done.
  - done.
  - intros stdev H. vm_compute in H. discriminate.
  - intros stdev H. vm_compute in H. discriminate.
  - intros H. vm_compute in H. discriminate.
Qed.

(** C4 fails on the code: in the scenario (three stores, four visits each,
    ten days apart, over thirty days) the customer table holds 30/4 = 7.5
    in [days_between_visits] for every store, not 10.0: the days are
    divided by the number of visits, not by the number of intervals. *)
Theorem days_between_visits_four_visits :
  ∃ tf,
    ex_run.1 = Ok (ex_self', 5) ∧
    heap ex_run.2 !! 5 = Some (Table tf) ∧
    findex tf = [VStr "12 Elm St"; VStr "40 Oak Ave"; VStr "7 Pine Rd"] ∧
    store_dates ex_rows "40 Oak Ave" = [17440; 17450; 17460; 17470]%Z ∧
    get_col "days_between_visits" tf
      = Ok (Column "days_between_visits" float64
              [VFloat (30 # 4); VFloat (30 # 4); VFloat (30 # 4)]) ∧
    (30 # 4 == 7.5)%Q ∧ ¬ (30 # 4 == 10)%Q.
Proof.
  eexists. split_and!; try (vm_compute; reflexivity).
  intros H. vm_compute in H. discriminate.
Qed.

(** * Further properties of the code

    What the code does beside what the specification claims: the rest of
    the customer table, the errors of [transform], what is written and
    when, [run_cust_seg] with and without the saved table, and the column
    list of the forecast model. *)

(** Membership in a list of names that is written out. *)
Ltac in_names := rewrite !elem_of_cons; tauto.
Ltac not_in_names H :=
  repeat (apply elem_of_cons in H as [H|H]; [discriminate H|]);
  by apply elem_of_nil in H.

(** ** Running a method forward

    The lemmas of the first part take a run that returned apart; these
    give the outcome of a run, error included, from the tables it works
    on. *)

Lemma bind_run {A B} (m : M A) (k : A → M B) w a w1 :
  m w = (Ok a, w1) → (m ≫= k) w = k a w1.
Proof. intros H. unfold mbind, M_bind. by rewrite H. Qed.

Lemma bind_raise {A B} (m : M A) (k : A → M B) w e w1 :
  m w = (Raise e, w1) → (m ≫= k) w = (Raise e, w1).
Proof. intros H. unfold mbind, M_bind. by rewrite H. Qed.

Lemma attr_run {A} (o : option A) a w : o = Some a → attr o w = (Ok a, w).
Proof. by intros ->. Qed.

Lemma read_txns_run l rows w :
  heap w !! l = Some (Txns rows) → read_txns l w = (Ok rows, w).
Proof. intros H. unfold read_txns. by rewrite H. Qed.

Lemma read_table_run l t w :
  heap w !! l = Some (Table t) → read_table l w = (Ok t, w).
Proof. intros H. unfold read_table. by rewrite H. Qed.

Lemma update_table_run l f t w :
  heap w !! l = Some (Table t) →
  update_table l f w
  = match f t with
    | Ok t' => (Ok (), set_heap (<[l := Table t']> (heap w)) w)
    | Raise e => (Raise e, w)
    end.
Proof.
  intros H. unfold update_table.
  rewrite (bind_run _ _ _ _ _ (read_table_run _ _ _ H)).
  unfold mbind, M_bind, lift. by destruct (f t).
Qed.

Lemma apply_rows_run (f : value → M value) (g : value → res value) l t w :
  heap w !! l = Some (Table t) →
  (∀ x, f x w = (g x, w)) →
  apply_rows f l w = (res_mapM g (findex t), w).
Proof.
  intros Hl Hf. unfold apply_rows.
  rewrite (bind_run _ _ _ _ _ (read_table_run _ _ _ Hl)).
  by apply mapM_lift.
Qed.

Lemma _add_cols_run self w l rows ct t :
  df self = Some l → heap w !! l = Some (Txns rows) →
  cust_table self = Some ct → heap w !! ct = Some (Table t) →
  match add_cols_of rows t with
  | Ok tb => _add_cols self w
             = (Ok (set_cust_table (length (heap w)) self),
                set_heap (heap w ++ [Table tb]) w)
  | Raise e => ∃ w', _add_cols self w = (Raise e, w') ∧ only_heap w w'
  end.
Proof.
  intros Hd Hl Hc Ht. unfold _add_cols, add_cols_of.
  rewrite (bind_run _ _ _ _ _ (attr_run _ _ _ Hd)).
  rewrite (bind_run _ _ _ _ _ (read_txns_run _ _ _ Hl)).
  rewrite (bind_run _ _ _ _ _ (attr_run _ _ _ Hc)).
  rewrite (bind_run _ _ _ _ _ (read_table_run _ _ _ Ht)).
  destruct (join t (avg_UPC_per_visit_table rows)) as [t2|e] eqn:Hj;
    [|eexists; split; [by apply bind_raise|done]].
  rewrite (bind_run _ _ _ t2 w) by done.
  rewrite (bind_run _ _ _ (length (heap w)) (set_heap (heap w ++ [Table t2]) w))
    by done.
  set (w1 := set_heap (heap w ++ [Table t2]) w).
  assert (heap w1 !! length (heap w) = Some (Table t2)) as H1
    by apply lookup_snoc.
  assert (heap w1 !! l = Some (Txns rows)) as Hl1
    by (by apply lookup_app_l_Some).
  simpl.
  destruct (res_mapM (days_between_visits_of rows) (findex t2))
    as [days|e] eqn:Hdays.
  2:{ eexists. split; [|shelve]. apply bind_raise.
      erewrite (apply_rows_run _ (days_between_visits_of rows)); [|done|].
      - by rewrite Hdays.
      - intros add. by apply (_days_between_visits_run _ l rows). }
  erewrite bind_run; last first.
  { erewrite (apply_rows_run _ (days_between_visits_of rows)); [|done|].
    - by rewrite Hdays.
    - intros add. by apply (_days_between_visits_run _ l rows). }
  simpl.
  destruct (set_col (Column "days_between_visits" float64 days) t2)
    as [ta|e] eqn:Hs1.
  2:{ eexists. split; [|shelve]. apply bind_raise.
      rewrite (update_table_run _ _ _ _ H1). by rewrite Hs1. }
  erewrite bind_run; last first.
  { rewrite (update_table_run _ _ _ _ H1). by rewrite Hs1. }
  subst w1. simpl. rewrite insert_snoc.
  set (w2 := set_heap (heap w ++ [Table ta]) _).
  assert (heap w2 !! length (heap w) = Some (Table ta)) as H2
    by apply lookup_snoc.
  assert (heap w2 !! l = Some (Txns rows)) as Hl2
    by (by apply lookup_app_l_Some).
  rewrite (proj1 (set_col_ok _ _ _ Hs1)).
  destruct (res_mapM (last_visit_of rows) (findex t2))
    as [lasts|e] eqn:Hlasts.
  2:{ eexists. split; [|shelve]. apply bind_raise.
      erewrite (apply_rows_run _ (last_visit_of rows)); [|done|].
      - rewrite (proj1 (set_col_ok _ _ _ Hs1)). by rewrite Hlasts.
      - intros add. by apply (_last_visit_run _ l rows). }
  erewrite bind_run; last first.
  { erewrite (apply_rows_run _ (last_visit_of rows)); [|done|].
    - rewrite (proj1 (set_col_ok _ _ _ Hs1)). by rewrite Hlasts.
    - intros add. by apply (_last_visit_run _ l rows). }
  simpl.
  destruct (set_col (Column "last_visit" datetime64 lasts) ta)
    as [tb|e] eqn:Hs2.
  2:{ eexists. split; [|shelve]. apply bind_raise.
      rewrite (update_table_run _ _ _ _ H2). by rewrite Hs2. }
  erewrite bind_run; last first.
  { rewrite (update_table_run _ _ _ _ H2). by rewrite Hs2. }
  subst w2. simpl. by rewrite insert_snoc.
  Unshelve. all: done.
Qed.

Lemma build_cust_table_run self w l rows :
  df self = Some l → heap w !! l = Some (Txns rows) →
  match files w !! "../data/SRP/custs_by_address.pkl" with
  | None =>
      ∃ w', build_cust_table self w = (Raise IOError, w') ∧ only_heap w w'
  | Some addr =>
      match join (groupby_address1_mean rows) addr with
      | Raise e =>
          ∃ w', build_cust_table self w = (Raise e, w') ∧ only_heap w w'
      | Ok t1 =>
          match add_cols_of rows (drop_coords t1) with
          | Raise e =>
              ∃ w', build_cust_table self w = (Raise e, w') ∧ only_heap w w'
          | Ok tb =>
              build_cust_table self w
              = (Ok (set_cust_table (length (heap w) + 3) self),
                 set_heap (heap w ++ [Table (groupby_address1_mean rows);
                                      Table addr; Table (drop_coords t1);
                                      Table tb]) w)
          end
      end
  end.
Proof.
  intros Hd Hl. unfold build_cust_table.
  rewrite (bind_run _ _ _ _ _ (attr_run _ _ _ Hd)).
  rewrite (bind_run _ _ _ _ _ (read_txns_run _ _ _ Hl)).
  rewrite (bind_run _ _ _ (length (heap w))
             (set_heap (heap w ++ [Table (reset_index "address1"
                                            (groupby_address1_mean rows))]) w))
    by done.
  erewrite bind_run; last first.
  { erewrite update_table_run by apply lookup_snoc.
    by rewrite set_reset_index. }
  simpl. rewrite insert_snoc.
  set (gm := groupby_address1_mean rows).
  destruct (files w !! "../data/SRP/custs_by_address.pkl") as [addr|] eqn:Ef.
  2:{ eexists. split; [|shelve]. apply bind_raise.
      unfold read_pickle. simpl. by rewrite Ef. }
  erewrite bind_run; last first.
  { unfold read_pickle. simpl. rewrite Ef. reflexivity. }
  simpl. rewrite <- app_assoc. simpl.
  set (w2 := set_heap (heap w ++ [Table gm; Table addr]) _).
  assert (heap w2 !! length (heap w) = Some (Table gm)) as H0.
  { simpl. by rewrite lookup_past0. }
  assert (heap w2 !! length (heap w ++ [Table gm]) = Some (Table addr)) as H1.
  { simpl. rewrite length_app. by rewrite lookup_past. }
  rewrite (bind_run _ _ _ _ _ (read_table_run _ _ _ H0)).
  rewrite (bind_run _ _ _ _ _ (read_table_run _ _ _ H1)).
  destruct (join gm addr) as [t1|e] eqn:Hj;
    [|eexists; split; [by apply bind_raise|done]].
  rewrite (bind_run _ _ _ t1 w2) by done.
  rewrite (bind_run _ _ _ (length (heap w2))
             (set_heap (heap w2 ++ [Table t1]) w2)) by done.
  subst w2. simpl. rewrite <- app_assoc. simpl.
  erewrite bind_run; last first.
  { apply (try_pass_drop_coords _ t1).
    simpl. rewrite length_app. by rewrite (lookup_past _ _ 2). }
  simpl. rewrite length_app. simpl.
  rewrite (insert_app_r _ _ 2). simpl. rewrite !set_heap_set_heap.
  set (w3 := set_heap _ w).
  pose proof (_add_cols_run
                (set_cust_table (length (heap w) + 2)
                   (set_cust_table (length (heap w)) self)) w3
                l rows (length (heap w) + 2) (drop_coords t1)) as Ha.
  destruct (add_cols_of rows (drop_coords t1)) as [tb|e].
  - rewrite Ha; [|done|by apply lookup_app_l_Some|done
                  |simpl; by rewrite (lookup_past _ _ 2)].
    subst w3. simpl. rewrite set_heap_set_heap, <- app_assoc. simpl.
    unfold set_cust_table. simpl. rewrite length_app. simpl. done.
  - destruct Ha as (w' & Hrun & Hw');
      [done|by apply lookup_app_l_Some|done
      |simpl; by rewrite (lookup_past _ _ 2)|].
    exists w'. split; [done|]. exact Hw'.
  Unshelve. all: done.
Qed.

(** ** The rows of a join *)

Lemma positions_length k idx j :
  length (positions k idx j) = occurrences k idx.
Proof.
  unfold occurrences. revert j. induction idx as [|x idx IH]; intros j; [done|].
  simpl. rewrite filter_cons. case_decide; simpl; by rewrite IH.
Qed.

Lemma join_plan_labels pre lidx ridx :
  (λ p : nat * option nat, default VNaN ((pre ++ lidx) !! p.1))
    <$> join_plan lidx (length pre) ridx
  = concat ((λ k, replicate (Nat.max 1 (occurrences k ridx)) k) <$> lidx).
Proof.
  revert pre. induction lidx as [|k lidx IH]; intros pre; [done|].
  simpl. rewrite fmap_app. f_equal.
  - rewrite <- (positions_length k ridx 0).
    assert (default VNaN ((pre ++ k :: lidx) !! length pre) = k) as Hk.
    { by rewrite list_lookup_middle. }
    destruct (positions k ridx 0) as [|j js]; simpl.
    + by rewrite Hk.
    + rewrite Hk. f_equal.
      induction js as [|j' js IHjs]; [done|]. simpl. rewrite Hk. by f_equal.
  - specialize (IH (pre ++ [k])). rewrite <- app_assoc in IH. simpl in IH.
    rewrite length_app in IH. simpl in IH.
    by replace (length pre + 1)%nat with (S (length pre)) in IH by lia.
Qed.

Lemma join_index l r t :
  join l r = Ok t →
  findex t
  = concat ((λ k, replicate (Nat.max 1 (occurrences k (findex r))) k)
              <$> findex l).
Proof.
  intros Hj. destruct (join_ok _ _ _ Hj) as (_ & -> & _).
  apply (join_plan_labels []).
Qed.

(** ** The columns of the left table of a join *)

Lemma get_col_cols n t t' : fcols t = fcols t' → get_col n t = get_col n t'.
Proof. unfold get_col. by intros ->. Qed.

Lemma get_col_fmap (g : column → column) n idx idx' cols col :
  (∀ c, cname (g c) = cname c) →
  get_col n (Frame idx cols) = Ok col →
  get_col n (Frame idx' (g <$> cols)) = Ok (g col).
Proof.
  intros Hg. induction cols as [|x cols IH]; [done|].
  rewrite fmap_cons, !get_col_cons, Hg.
  case_decide; [by intros [= ->]|done].
Qed.

Lemma get_col_app_l n idx idx' cols1 cols2 col :
  get_col n (Frame idx cols1) = Ok col →
  get_col n (Frame idx' (cols1 ++ cols2)) = Ok col.
Proof.
  induction cols1 as [|x cols1 IH]; [done|].
  rewrite <- app_comm_cons, !get_col_cons. case_decide; [done|apply IH].
Qed.

Lemma get_col_filter_ne n c idx cols :
  n ≠ c →
  get_col n (Frame idx (filter (λ col, cname col ≠ c) cols))
  = get_col n (Frame idx cols).
Proof.
  intros Hn. induction cols as [|x cols IH]; [done|].
  rewrite filter_cons, (get_col_cons n idx x).
  destruct (decide (cname x ≠ c)) as [Hx|Hx].
  - rewrite get_col_cons. by case_decide.
  - rewrite IH. case_decide; [|done]. destruct Hx. congruence.
Qed.

Lemma get_col_del_col n c t t' :
  del_col c t = Ok t' → n ≠ c → get_col n t' = get_col n t.
Proof.
  unfold del_col. case_decide; [|done]. intros [= <-] Hn.
  destruct t as [idx cols]. by apply get_col_filter_ne.
Qed.

Lemma get_col_drop_coords n t :
  n ≠ "latitude" → n ≠ "longitude" →
  get_col n (drop_coords t) = get_col n t.
Proof.
  intros H1 H2. unfold drop_coords.
  destruct (del_col "latitude" t) as [t'|] eqn:E1; [|done].
  destruct (del_col "longitude" t') as [t''|] eqn:E2.
  - by rewrite (get_col_del_col _ _ _ _ E2), (get_col_del_col _ _ _ _ E1).
  - by rewrite (get_col_del_col _ _ _ _ E1).
Qed.

(** A column of the left table of a join that holds, in every row, a
    function of the label of the row, still does so in the joined table. *)
Lemma join_left_col l r t n col (g : value → value) :
  join l r = Ok t → get_col n l = Ok col →
  (∀ i k, findex l !! i = Some k → cvals col !! i = Some (g k)) →
  ∃ vs, get_col n t = Ok (Column (cname col) (cdtype col) vs) ∧
        ∀ i k, findex t !! i = Some k → vs !! i = Some (g k).
Proof.
  intros Hj Hc Hg. destruct (join_ok _ _ _ Hj) as (_ & Hidx & Hcols).
  set (plan := join_plan (findex l) 0 (findex r)) in *.
  exists (cvals (take_left plan col)). split.
  - rewrite (get_col_cols n t (Frame (findex t) (fcols t))) by done.
    rewrite Hcols. destruct l as [lidx lcols].
    by apply (get_col_app_l _ lidx), (get_col_fmap (take_left plan) _ lidx).
  - intros i k Hi. rewrite Hidx in Hi. simpl.
    rewrite list_lookup_fmap in Hi |- *.
    destruct (plan !! i) as [p|] eqn:Hp; [|done]. simpl in *.
    destruct (elem_of_join_plan _ _ _ p (list_elem_of_lookup_2 _ _ _ Hp))
      as (k' & Hk' & _).
    rewrite Nat.sub_0_r in Hk'. rewrite Hk' in Hi. simpl in Hi.
    injection Hi as <-. by rewrite (Hg _ _ Hk').
Qed.

Lemma mean_columns_names n f :
  (n, f) ∈ mean_columns →
  n ≠ "latitude" ∧ n ≠ "longitude" ∧ n ≠ "avg_UPC_per_visit"
  ∧ n ≠ "days_between_visits" ∧ n ≠ "last_visit" ∧ n ≠ "cluster".
Proof.
  unfold mean_columns. rewrite !elem_of_cons, elem_of_nil.
  intros [H|[H|[H|[H|[H|[H|[]]]]]]]; injection H as -> _; by split_and!.
Qed.

Lemma groupby_address1_mean_col rows n f :
  (n, f) ∈ mean_columns →
  get_col n (groupby_address1_mean rows)
  = Ok (mean_col n f rows (group_keys (address1 <$> rows))).
Proof.
  unfold mean_columns. rewrite !elem_of_cons, elem_of_nil.
  intros [H|[H|[H|[H|[H|[H|[]]]]]]]; injection H as -> ->; reflexivity.
Qed.

(** ** The names of the columns *)

Lemma columns_drop_coords t : columns (drop_coords t) = kept_columns (columns t).
Proof.
  unfold drop_coords, kept_columns.
  destruct (del_col "latitude" t) as [t'|e] eqn:E1.
  - pose proof (columns_del_col _ _ _ E1) as H1.
    unfold del_col in E1. case_decide as Hin; [|done].
    assert (filter (λ n, n ≠ "latitude" ∧ n ≠ "longitude") (columns t)
            = filter (λ n, n ≠ "longitude") (columns t')) as ->.
    { rewrite H1, list_filter_filter. apply list_filter_iff. tauto. }
    destruct (del_col "longitude" t') as [t''|e] eqn:E2.
    + by apply columns_del_col.
    + unfold del_col in E2. case_decide as Hin2; [done|].
      symmetry. apply filter_Forall, Forall_forall. by intros n Hn ->.
  - unfold del_col in E1. by case_decide.
Qed.

Lemma kept_columns_app cs :
  kept_columns (mean_columns.*1 ++ cs) = mean_columns.*1 ++ kept_columns cs.
Proof.
  unfold kept_columns.
  assert ("latitude" ∈ mean_columns.*1 ++ cs ↔ "latitude" ∈ cs) as Hiff.
  { rewrite elem_of_app. split; [|tauto]. intros [H|H]; [|done].
    unfold mean_columns in H. simpl in H.
    by repeat (apply elem_of_cons in H as [H|H]; [done|]);
      apply elem_of_nil in H. }
  destruct (decide ("latitude" ∈ cs)) as [Hc|Hc].
  - rewrite decide_True by (by apply Hiff). by rewrite filter_app.
  - rewrite decide_False by (by rewrite Hiff). done.
Qed.

Lemma elem_of_kept_columns c cs :
  c ∈ kept_columns cs
  ↔ c ∈ cs ∧ c ≠ "latitude" ∧ (c = "longitude" → "latitude" ∉ cs).
Proof.
  unfold kept_columns. case_decide as Hl.
  - rewrite list_elem_of_filter. split; [|tauto].
    intros ((H1 & H2) & H3). by split_and!.
  - split; [|tauto]. intros Hc. split_and!; [done| |done]. by intros ->.
Qed.

Lemma elem_of_columns_set_col c col t t' :
  set_col col t = Ok t' → c ∈ columns t' ↔ c ∈ columns t ∨ c = cname col.
Proof.
  intros Hs. rewrite (columns_set_col _ _ _ Hs). case_decide.
  - split; [tauto|]. by intros [?| ->].
  - by rewrite elem_of_app, list_elem_of_singleton.
Qed.

Lemma built_columns rows addr t1 t :
  join (groupby_address1_mean rows) addr = Ok t1 →
  add_cols_of rows (drop_coords t1) = Ok t →
  ∃ t2 ta days lasts,
    columns t2 = mean_columns.*1 ++ kept_columns (columns addr)
                   ++ ["avg_UPC_per_visit"] ∧
    set_col (Column "days_between_visits" float64 days) t2 = Ok ta ∧
    set_col (Column "last_visit" datetime64 lasts) ta = Ok t.
Proof.
  intros Hj Ha.
  apply add_cols_of_ok in Ha as (t2 & days & ta & lasts & Hj2 & _ & Hs1 & _ & Hs2).
  exists t2, ta, days, lasts. split_and!; [|done..].
  rewrite (join_columns _ _ _ Hj2), columns_drop_coords.
  rewrite (join_columns _ _ _ Hj).
  change (columns (groupby_address1_mean rows)) with (mean_columns.*1).
  rewrite kept_columns_app. by rewrite <- app_assoc.
Qed.

(** ** The sign of days_between_visits, and present cells *)

Lemma Qdiv_nonneg_pos (x : Z) (n : nat) :
  (0 ≤ x)%Z → (0 < n)%nat →
  (0 <= inject_Z x / inject_Z (Z.of_nat n))%Q
  ∧ ((inject_Z x / inject_Z (Z.of_nat n) == 0)%Q ↔ x = 0%Z).
Proof.
  intros Hx Hn.
  assert (0 < inject_Z (Z.of_nat n))%Q as Hpos.
  { rewrite <- (Zlt_Qlt 0). lia. }
  split.
  - apply Qle_shift_div_l; [done|]. rewrite Qmult_0_l.
    rewrite <- (Zle_Qle 0). done.
  - split.
    + intros Hq.
      assert (inject_Z x == 0)%Q as H0.
      { rewrite <- (Qmult_div_r (inject_Z x) (inject_Z (Z.of_nat n))).
        - rewrite Hq. apply Qmult_0_r.
        - intros E. rewrite E in Hpos. by apply Qlt_irrefl in Hpos. }
      apply (inject_Z_injective x 0) in H0. done.
    + intros ->. unfold Qdiv. apply Qmult_0_l.
Qed.

Lemma min_max_same (first last : Z) (l : list Z) :
  is_min first l → is_max last l →
  (0 ≤ last - first)%Z ∧
  ((last - first = 0)%Z ↔ ∀ d d', d ∈ l → d' ∈ l → d = d').
Proof.
  intros [Hf Hmin] [Hl Hmax]. split.
  - specialize (Hmin last Hl). lia.
  - split.
    + intros E d d' Hd Hd'.
      pose proof (Hmin d Hd). pose proof (Hmax d Hd).
      pose proof (Hmin d' Hd'). pose proof (Hmax d' Hd'). lia.
    + intros Hall. rewrite (Hall last first Hl Hf). lia.
Qed.

Lemma mean_nat_present (l : list nat) : l ≠ [] → ∃ q, mean_nat l = VFloat q.
Proof.
  destruct l as [|n l]; [done|]. intros _. unfold mean_nat, mean.
  rewrite fmap_cons. simpl omap. by eexists.
Qed.

(** ** When the customer table can be built *)

Lemma res_mapM_raise {A B} (f : A → res B) l x e0 :
  (∀ y e, f y = Raise e → e = e0) → x ∈ l → f x = Raise e0 →
  res_mapM f l = Raise e0.
Proof.
  intros Hall Hx Hfx. induction l as [|y l IH]; [by apply elem_of_nil in Hx|].
  simpl. destruct (f y) as [b|e] eqn:Hy; simpl.
  - apply elem_of_cons in Hx as [->|Hx]; [congruence|].
    by rewrite (IH Hx).
  - by rewrite (Hall _ _ Hy).
Qed.


Lemma days_between_visits_of_raise rows k e :
  days_between_visits_of rows k = Raise e → e = IndexError.
Proof.
  unfold days_between_visits_of. repeat case_match; congruence.
Qed.

Lemma days_between_visits_of_undated rows a :
  store_dates rows a = [] →
  days_between_visits_of rows (VStr a) = Raise IndexError.
Proof.
  intros He. unfold days_between_visits_of.
  by rewrite visits_of_store, He.
Qed.











Lemma join_means_total rows addr :
  (∀ c, c ∈ columns addr → c ∉ joined_names) →
  ∃ t1, join (groupby_address1_mean rows) addr = Ok t1.
Proof.
  intros Hno. unfold join. rewrite decide_False; [by eexists|].
  rewrite Exists_exists. intros (c & Hc1 & Hc2).
  apply (Hno c Hc2). unfold columns in Hc1. simpl in Hc1.
  revert Hc1. unfold joined_names. rewrite !elem_of_cons, elem_of_nil. tauto.
Qed.

Lemma joined_without_avg rows addr t1 :
  (∀ c, c ∈ columns addr → c ∉ joined_names) →
  join (groupby_address1_mean rows) addr = Ok t1 →
  "avg_UPC_per_visit" ∉ columns (drop_coords t1).
Proof.
  intros Hno Hj Hc1.
  rewrite columns_drop_coords, (join_columns _ _ _ Hj) in Hc1.
  change (columns (groupby_address1_mean rows)) with (mean_columns.*1) in Hc1.
  rewrite kept_columns_app, elem_of_app, elem_of_kept_columns in Hc1.
  destruct Hc1 as [Hc1|(Hc1 & _)].
  - unfold mean_columns in Hc1. simpl in Hc1. not_in_names Hc1.
  - apply (Hno _ Hc1). unfold joined_names. in_names.
Qed.

Lemma built_overlap rows addr c :
  c ∈ columns addr → c ∈ joined_names →
  built_table_of rows addr = Raise ValueError.
Proof.
  intros Hc Hin. unfold built_table_of.
  destruct (join (groupby_address1_mean rows) addr) as [t1|e] eqn:Hj; simpl.
  - destruct (join_ok _ _ _ Hj) as (Hno & _ & _).
    assert (c = "avg_UPC_per_visit") as ->.
    { revert Hin. unfold joined_names. rewrite !elem_of_cons, elem_of_nil.
      intros H. repeat (destruct H as [->|H];
        [exfalso; eapply Hno; [|exact Hc]; unfold columns; simpl;
         rewrite !elem_of_cons; tauto|]).
      by destruct H. }
    unfold add_cols_of.
    assert (join (drop_coords t1) (avg_UPC_per_visit_table rows)
            = Raise ValueError) as ->; [|done].
    unfold join. rewrite decide_True; [done|].
    apply Exists_exists. exists "avg_UPC_per_visit". split.
    + rewrite columns_drop_coords, (join_columns _ _ _ Hj).
      change (columns (groupby_address1_mean rows)) with (mean_columns.*1).
      rewrite kept_columns_app, elem_of_app. right.
      apply elem_of_kept_columns. by split_and!.
    + unfold columns. simpl. in_names.
  - unfold join in Hj. case_decide; [|done]. by injection Hj as <-.
Qed.

Lemma built_undated rows addr a :
  (∀ c, c ∈ columns addr → c ∉ joined_names) →
  a ∈ address1 <$> rows → store_dates rows a = [] →
  built_table_of rows addr = Raise IndexError.
Proof.
  intros Hno Ha Hd. unfold built_table_of.
  destruct (join_means_total rows addr Hno) as [t1 Hj].
  rewrite Hj. simpl. unfold add_cols_of.
  assert (∃ t2, join (drop_coords t1) (avg_UPC_per_visit_table rows) = Ok t2)
    as [t2 Hj2].
  { unfold join. rewrite decide_False; [by eexists|].
    rewrite Exists_exists. intros (c & Hc1 & Hc2).
    unfold columns in Hc2. simpl in Hc2.
    apply list_elem_of_singleton in Hc2 as ->.
    by apply (joined_without_avg rows addr t1). }
  rewrite Hj2. simpl.
  rewrite (res_mapM_raise _ _ (VStr a) IndexError); [done|..].
  - intros y e. apply days_between_visits_of_raise.
  - apply (join_index_elem _ _ _ _ Hj2). rewrite drop_coords_index.
    apply (join_index_elem _ _ _ _ Hj). rewrite groupby_address1_mean_index.
    apply store_labels_elem. by exists a.
  - by apply days_between_visits_of_undated.
Qed.





(** ** Computations that leave the files alone *)

Lemma keeps_ret {A} (a : A) : keeps_files (mret a).
Proof. by intros w r w' [= <- <-]. Qed.

Lemma keeps_bind {A B} (m : M A) (k : A → M B) :
  keeps_files m → (∀ a, keeps_files (k a)) → keeps_files (m ≫= k).
Proof.
  intros Hm Hk w r w' Hrun. unfold mbind, M_bind in Hrun.
  destruct (m w) as [[a|e] w1] eqn:E.
  - rewrite (Hk a _ _ _ Hrun). by eapply Hm.
  - injection Hrun as <- <-. by eapply Hm.
Qed.

(** Whatever touches the objects, the generator or the record of calls
    only. *)
Lemma keeps_state {A} (m : M A) :
  (∀ w, ∃ h b g c, (m w).2 = World h (files w) b g c) →
  keeps_files m.
Proof.
  intros Hm w r w' Hrun. destruct (Hm w) as (h & b & g & c & E).
  rewrite Hrun in E. simpl in E. by subst w'.
Qed.

Lemma keeps_attr {A} (o : option A) : keeps_files (attr o).
Proof. apply keeps_state. intros [h f b g c]. by destruct o; eexists _, _, _, _. Qed.

Lemma keeps_lift {A} (r : res A) : keeps_files (lift r).
Proof. apply keeps_state. intros [h f b g c]. by eexists _, _, _, _. Qed.

Lemma keeps_read_table l : keeps_files (read_table l).
Proof.
  apply keeps_state. intros [h f b g c]. unfold read_table. simpl.
  by repeat case_match; eexists _, _, _, _.
Qed.

Lemma keeps_read_txns l : keeps_files (read_txns l).
Proof.
  apply keeps_state. intros [h f b g c]. unfold read_txns. simpl.
  by repeat case_match; eexists _, _, _, _.
Qed.

Lemma keeps_alloc o : keeps_files (alloc o).
Proof. apply keeps_state. intros [h f b g c]. by eexists _, _, _, _. Qed.

Lemma keeps_write_table l t : keeps_files (write_table l t).
Proof. apply keeps_state. intros [h f b g c]. by eexists _, _, _, _. Qed.

Lemma keeps_read_pickle path : keeps_files (read_pickle path).
Proof.
  apply keeps_state. intros [h f b g c]. unfold read_pickle. simpl.
  by case_match; eexists _, _, _, _.
Qed.

Lemma keeps_call {A} (c : lib A) : keeps_files (call c).
Proof.
  apply keeps_state. intros [h f b g k]. unfold call. simpl.
  destruct (c g). by eexists _, _, _, _.
Qed.

Lemma keeps_try_pass m : keeps_files m → keeps_files (try_pass m).
Proof.
  intros Hm w r w' Hrun. unfold try_pass in Hrun.
  destruct (m w) as [[a|e] w1] eqn:E; injection Hrun as <- <-; by eapply Hm.
Qed.

Create HintDb keeps.
#[local] Hint Resolve keeps_ret keeps_attr keeps_lift keeps_read_table
  keeps_read_txns keeps_alloc keeps_write_table keeps_read_pickle keeps_call
  keeps_try_pass : keeps.

(** The steps of a sequence, one after the other. *)
Ltac keeps :=
  repeat lazymatch goal with
    | |- keeps_files (mbind _ _) => apply keeps_bind; [|intros ?]
    | |- keeps_files (if ?b then _ else _) => destruct b
    | |- keeps_files (let '(_, _) := ?x in _) => destruct x
    | |- keeps_files (try_pass _) => apply keeps_try_pass
    | |- keeps_files _ => solve [eauto with keeps]
    end.

Lemma keeps_update_table l f : keeps_files (update_table l f).
Proof. unfold update_table. keeps. Qed.

Lemma keeps_mapM {A B} (f : A → M B) l :
  (∀ x, keeps_files (f x)) → keeps_files (mapM f l).
Proof. intros Hf. induction l; simpl; keeps. Qed.

#[local] Hint Resolve keeps_update_table keeps_mapM : keeps.

Lemma keeps_days_between_visits self add :
  keeps_files (_days_between_visits self add).
Proof. unfold _days_between_visits. keeps. Qed.

Lemma keeps_last_visit self add : keeps_files (_last_visit self add).
Proof. unfold _last_visit. keeps. Qed.

Lemma keeps_apply_rows f l :
  (∀ x, keeps_files (f x)) → keeps_files (apply_rows f l).
Proof. intros Hf. unfold apply_rows. keeps. Qed.

#[local] Hint Resolve keeps_days_between_visits keeps_last_visit
  keeps_apply_rows : keeps.

Lemma keeps_add_cols self : keeps_files (_add_cols self).
Proof. unfold _add_cols. keeps. Qed.

#[local] Hint Resolve keeps_add_cols : keeps.

Lemma keeps_build_cust_table self : keeps_files (build_cust_table self).
Proof. unfold build_cust_table. keeps. Qed.

Lemma writes_last_bind {A B} (m : M A) (k : A → M B) :
  keeps_files m → (∀ a, writes_last (k a)) → writes_last (m ≫= k).
Proof.
  intros Hm Hk w r w' e0 Hrun He. unfold mbind, M_bind in Hrun.
  destruct (m w) as [[a|e] w1] eqn:E.
  - rewrite (Hk a _ _ _ _ Hrun He). by eapply Hm.
  - injection Hrun as <- <-. by eapply Hm.
Qed.

Lemma writes_last_to_pickle {A} l path (a : A) :
  writes_last (to_pickle l path ≫= λ _, mret a).
Proof.
  intros w r w' e Hrun ->. unfold to_pickle, write_file, mbind, M_bind in Hrun.
  unfold read_table in Hrun.
  destruct (heap w !! l) as [[|t]|]; try (by injection Hrun as _ <-).
  destruct (writable w) eqn:Ew; [done|]. by injection Hrun as _ <-.
Qed.

Lemma safe_try_return {A} n (m rest : M A) (Q : A → Prop) :
  safe n m Q → safe n rest Q → safe n (try_return m rest) Q.
Proof.
  intros Hm Hr w r w' Hn Hrun. unfold try_return in Hrun.
  destruct (m w) as [[a|e] w1] eqn:E.
  - injection Hrun as <- <-. by eapply Hm.
  - destruct (Hm _ _ _ Hn E) as [[Hn1 Hkeep1] _].
    destruct (Hr _ _ _ Hn1 Hrun) as [[Hn2 Hkeep2] HQ].
    split; [|done]. split; [done|]. intros l Hl.
    by rewrite Hkeep2, Hkeep1.
Qed.

#[local] Hint Resolve keeps_build_cust_table : keeps.

(** ** The customer table, the errors and the files *)

Section further.
Context (stdev : list Q → Q) (KMeans_lib : nat → frame → lib (list nat)).
Context (plot_clust_lib : frame → list value → lib unit).
Context (plot_ss_lib : frame → lib unit).

(** X1: in the customer table [transform] returns, each of the six
    columns [qty_shrink_per_day], [shrink_value_per_day], [POP2010],
    [FD_ratio], [unemp_rate] and [dens_sq_mile] holds, in the rows of a
    store, the mean of the present cells of that column over the
    transaction rows of the store, and the missing marker when the store
    has no such cell.  The table keeps the means as they are: the
    standardised values go to another table. *)
Theorem cust_table_mean_columns self dfl w self' ct w' rows :
  transform stdev KMeans_lib plot_clust_lib plot_ss_lib self dfl w
    = (Ok (self', ct), w') →
  heap w !! dfl = Some (Txns rows) →
  ∃ tf,
    heap w' !! ct = Some (Table tf) ∧
    ∀ n f, (n, f) ∈ mean_columns →
      ∃ vs, get_col n tf = Ok (Column n float64 vs) ∧
            ∀ i a, findex tf !! i = Some (VStr a) →
              vs !! i
              = Some (cell (mean (f <$> filter (λ r, address1 r = a) rows))).
Proof.
  intros Hrun Hrows.
  apply transform_ok in Hrun
    as (rows' & addr & t1 & t & st & cols & X & pred & g & tf & stf
        & Hrows' & Hfa & Hj & Ha & Hst & Hfc & HX & Hk & Htf & Hstf
        & -> & -> & Hheap & Hfiles & Hcalls).
  assert (rows' = rows) as -> by congruence.
  exists tf. split; [rewrite Hheap; by rewrite lookup_past|].
  intros n f Hn.
  destruct (mean_columns_names _ _ Hn) as (N1 & N2 & N3 & N4 & N5 & N6).
  destruct (with_cluster_ok _ _ _ Htf) as (Hidx & _ & _ & Hsame).
  rewrite (Hsame n N6), Hidx.
  apply add_cols_of_ok in Ha as (t2 & days & ta & lasts & Hj2 & _ & Hs1 & _ & Hs2).
  rewrite (get_col_set_col_ne n _ _ _ Hs2 N5), (proj1 (set_col_ok _ _ _ Hs2)).
  rewrite (get_col_set_col_ne n _ _ _ Hs1 N4), (proj1 (set_col_ok _ _ _ Hs1)).
  destruct (join_left_col _ _ _ n _
              (λ k, cell (mean (f <$> store_rows rows k)))
              Hj (groupby_address1_mean_col rows n f Hn))
    as (vs1 & Hc1 & Hv1).
  { intros i k. rewrite groupby_address1_mean_index. simpl.
    rewrite !list_lookup_fmap.
    destruct (group_keys (address1 <$> rows) !! i); [|done].
    by intros [= <-]. }
  simpl in Hc1.
  destruct (join_left_col _ _ _ n (Column n float64 vs1)
              (λ k, cell (mean (f <$> store_rows rows k))) Hj2)
    as (vs2 & Hc2 & Hv2).
  { by rewrite get_col_drop_coords. }
  { intros i k. rewrite drop_coords_index. apply Hv1. }
  exists vs2. split; [done|]. intros i a Hi.
  rewrite (Hv2 _ _ Hi). by rewrite store_rows_filter.
Qed.

(** X2: the customer table [transform] returns lists the stores of the
    input in increasing order of [address1]; a store has as many rows,
    next to each other, as the address table has rows for it, and one row
    when the address table has none. *)
Theorem cust_table_rows_in_order self dfl w self' ct w' rows addr :
  transform stdev KMeans_lib plot_clust_lib plot_ss_lib self dfl w
    = (Ok (self', ct), w') →
  heap w !! dfl = Some (Txns rows) →
  files w !! "../data/SRP/custs_by_address.pkl" = Some addr →
  ∃ tf adds,
    heap w' !! ct = Some (Table tf) ∧
    StronglySorted klt adds ∧
    (∀ a, a ∈ adds ↔ a ∈ address1 <$> rows) ∧
    findex tf
    = concat ((λ a, replicate (Nat.max 1 (occurrences (VStr a) (findex addr)))
                      (VStr a)) <$> adds).
Proof.
  intros Hrun Hrows Haddr.
  apply transform_ok in Hrun
    as (rows' & addr' & t1 & t & st & cols & X & pred & g & tf & stf
        & Hrows' & Hfa & Hj & Ha & Hst & Hfc & HX & Hk & Htf & Hstf
        & -> & -> & Hheap & Hfiles & Hcalls).
  assert (rows' = rows) as -> by congruence.
  assert (addr' = addr) as -> by congruence.
  exists tf, (group_keys (address1 <$> rows)). split_and!.
  - rewrite Hheap. by rewrite lookup_past.
  - apply group_keys_sorted.
  - intros a. apply elem_of_group_keys.
  - destruct (with_cluster_ok _ _ _ Htf) as (-> & _).
    rewrite (add_cols_of_index _ _ _ Ha), drop_coords_index.
    rewrite (join_index _ _ _ Hj), groupby_address1_mean_index.
    by rewrite <- list_fmap_compose.
Qed.

(** X3: the columns of the customer table [transform] returns, when the
    address table has no column named [days_between_visits], [last_visit]
    or [cluster]: the six means, the columns of the address table that are
    kept, then [avg_UPC_per_visit], [days_between_visits], [last_visit] and
    [cluster], in that order. *)
Theorem cust_table_columns self dfl w self' ct w' addr :
  transform stdev KMeans_lib plot_clust_lib plot_ss_lib self dfl w
    = (Ok (self', ct), w') →
  files w !! "../data/SRP/custs_by_address.pkl" = Some addr →
  "days_between_visits" ∉ columns addr →
  "last_visit" ∉ columns addr →
  "cluster" ∉ columns addr →
  ∃ tf,
    heap w' !! ct = Some (Table tf) ∧
    columns tf
    = ["qty_shrink_per_day"; "shrink_value_per_day"; "POP2010"; "FD_ratio";
       "unemp_rate"; "dens_sq_mile"]
      ++ kept_columns (columns addr)
      ++ ["avg_UPC_per_visit"; "days_between_visits"; "last_visit"; "cluster"].
Proof.
  intros Hrun Haddr Hd Hl Hc.
  apply transform_ok in Hrun
    as (rows & addr' & t1 & t & st & cols & X & pred & g & tf & stf
        & Hrows & Hfa & Hj & Ha & Hst & Hfc & HX & Hk & Htf & Hstf
        & -> & -> & Hheap & Hfiles & Hcalls).
  assert (addr' = addr) as -> by congruence.
  exists tf. split; [rewrite Hheap; by rewrite lookup_past|].
  destruct (built_columns _ _ _ _ Hj Ha) as (t2 & ta & days & lasts & H2 & Hs1 & Hs2).
  assert (∀ c, c ∈ kept_columns (columns addr) → c ∈ columns addr) as Hk'.
  { intros c. rewrite elem_of_kept_columns. tauto. }
  assert (∀ c, c ∈ ["days_between_visits"; "last_visit"; "cluster"] →
            c ∉ columns addr) as Hnew.
  { intros c. rewrite !elem_of_cons, elem_of_nil.
    by intros [->|[->|[->|[]]]]. }
  assert (∀ c more, c ∈ ["days_between_visits"; "last_visit"; "cluster"] →
            c ∉ more →
            c ∉ mean_columns.*1 ++ kept_columns (columns addr) ++ more) as Hni.
  { intros c more H1 H4. rewrite !elem_of_app. intros [H|[H|H]].
    - unfold mean_columns in H. simpl in H. revert H1 H.
      rewrite !elem_of_cons, !elem_of_nil.
      intros H1 H. destruct H1 as [->|[->|[->|[]]]];
        repeat (destruct H as [H|H]; [discriminate H|]); done.
    - by apply (Hnew c H1), Hk'.
    - done. }
  assert (columns ta
          = mean_columns.*1 ++ kept_columns (columns addr)
              ++ ["avg_UPC_per_visit"; "days_between_visits"]) as H3.
  { rewrite (columns_set_col _ _ _ Hs1), H2. simpl cname.
    rewrite decide_False; [by rewrite <- !app_assoc|].
    apply Hni; [in_names|]. by rewrite list_elem_of_singleton. }
  assert (columns t
          = mean_columns.*1 ++ kept_columns (columns addr)
              ++ ["avg_UPC_per_visit"; "days_between_visits"; "last_visit"])
    as H4.
  { rewrite (columns_set_col _ _ _ Hs2), H3. simpl cname.
    rewrite decide_False; [by rewrite <- !app_assoc|].
    apply Hni; [in_names|].
    rewrite !elem_of_cons, elem_of_nil. by intros [?|[?|[]]]. }
  unfold with_cluster in Htf.
  rewrite (columns_set_col _ _ _ Htf), H4. simpl cname.
  rewrite decide_False; [by rewrite <- !app_assoc|].
  apply Hni; [in_names|].
  rewrite !elem_of_cons, elem_of_nil. by intros [?|[?|[?|[]]]].
Qed.

(** X4: the clean-up of the coordinates.  The customer table [transform]
    returns never has a column [latitude]; it has a column [longitude]
    exactly when the address table has one and has no [latitude], the
    failed [del] of [latitude] having ended the [try] before [longitude]
    was reached. *)
Theorem cust_table_coordinates self dfl w self' ct w' addr :
  transform stdev KMeans_lib plot_clust_lib plot_ss_lib self dfl w
    = (Ok (self', ct), w') →
  files w !! "../data/SRP/custs_by_address.pkl" = Some addr →
  ∃ tf,
    heap w' !! ct = Some (Table tf) ∧
    ("latitude" ∉ columns tf) ∧
    ("longitude" ∈ columns tf
     ↔ "longitude" ∈ columns addr ∧ "latitude" ∉ columns addr).
Proof.
  intros Hrun Haddr.
  apply transform_ok in Hrun
    as (rows & addr' & t1 & t & st & cols & X & pred & g & tf & stf
        & Hrows & Hfa & Hj & Ha & Hst & Hfc & HX & Hk & Htf & Hstf
        & -> & -> & Hheap & Hfiles & Hcalls).
  assert (addr' = addr) as -> by congruence.
  exists tf. split; [rewrite Hheap; by rewrite lookup_past|].
  destruct (built_columns _ _ _ _ Hj Ha) as (t2 & ta & days & lasts & H2 & Hs1 & Hs2).
  assert (∀ c, c ∈ columns tf ↔
               c ∈ mean_columns.*1 ∨ c ∈ kept_columns (columns addr)
               ∨ c ∈ ["avg_UPC_per_visit"; "days_between_visits";
                      "last_visit"; "cluster"]) as Hel.
  { intros c. unfold with_cluster in Htf.
    rewrite (elem_of_columns_set_col _ _ _ _ Htf).
    rewrite (elem_of_columns_set_col _ _ _ _ Hs2).
    rewrite (elem_of_columns_set_col _ _ _ _ Hs1), H2. simpl cname.
    rewrite !elem_of_app, !elem_of_cons, !elem_of_nil. tauto. }
  split.
  - rewrite Hel, elem_of_kept_columns. intros [H|[H|H]].
    + unfold mean_columns in H. simpl in H.
      by repeat (apply elem_of_cons in H as [H|H]; [done|]);
        apply elem_of_nil in H.
    + tauto.
    + by repeat (apply elem_of_cons in H as [H|H]; [done|]);
        apply elem_of_nil in H.
  - rewrite Hel, elem_of_kept_columns. split.
    + intros [H|[H|H]].
      * unfold mean_columns in H. simpl in H.
        by repeat (apply elem_of_cons in H as [H|H]; [done|]);
          apply elem_of_nil in H.
      * tauto.
      * by repeat (apply elem_of_cons in H as [H|H]; [done|]);
          apply elem_of_nil in H.
    + intros [H1 H2']. right. left. by split_and!.
Qed.

(** X5: in the customer table [transform] returns, [days_between_visits]
    is never negative, and it is zero exactly for the stores whose dated
    rows all bear one date. *)
Theorem days_between_visits_sign self dfl w self' ct w' rows :
  transform stdev KMeans_lib plot_clust_lib plot_ss_lib self dfl w
    = (Ok (self', ct), w') →
  heap w !! dfl = Some (Txns rows) →
  ∃ tf days,
    heap w' !! ct = Some (Table tf) ∧
    get_col "days_between_visits" tf
      = Ok (Column "days_between_visits" float64 days) ∧
    ∀ i a, findex tf !! i = Some (VStr a) →
      ∃ q, days !! i = Some (VFloat q) ∧ (0 <= q)%Q ∧
           ((q == 0)%Q ↔
            ∀ d d', d ∈ store_dates rows a → d' ∈ store_dates rows a → d = d').
Proof.
  intros Hrun Hrows.
  destruct (transform_table _ _ _ _ _ _ _ _ _ _ _ Hrun Hrows)
    as (tf & avgs & days & lasts & Htf & Hlab & _ & Hdays & _ & Hrow).
  exists tf, days. split_and!; [done..|].
  intros i a Hi.
  destruct (Hrow i a Hi) as (_ & (v & Hv & Hof) & _).
  apply days_between_visits_of_store in Hof
    as (first & last & Hmin & Hmax & ->).
  destruct (min_max_same _ _ _ Hmin Hmax) as [Hge Hsame].
  assert (0 < length (remove_dups (store_dates rows a)))%nat as Hn.
  { destruct Hmin as [Hin _]. apply elem_of_remove_dups in Hin.
    destruct (remove_dups (store_dates rows a)); [by apply elem_of_nil in Hin|].
    simpl. lia. }
  destruct (Qdiv_nonneg_pos _ _ Hge Hn) as [Hq0 Hqz].
  eexists. split; [done|]. split; [done|].
  by rewrite Hqz.
Qed.

(** X6: in the customer table [transform] returns, no row misses its
    [avg_UPC_per_visit], its [days_between_visits] or its [last_visit]:
    the first two hold numbers, the third a date. *)
Theorem derived_columns_present self dfl w self' ct w' rows :
  transform stdev KMeans_lib plot_clust_lib plot_ss_lib self dfl w
    = (Ok (self', ct), w') →
  heap w !! dfl = Some (Txns rows) →
  ∃ tf avgs days lasts,
    heap w' !! ct = Some (Table tf) ∧
    get_col "avg_UPC_per_visit" tf
      = Ok (Column "avg_UPC_per_visit" float64 avgs) ∧
    get_col "days_between_visits" tf
      = Ok (Column "days_between_visits" float64 days) ∧
    get_col "last_visit" tf = Ok (Column "last_visit" datetime64 lasts) ∧
    ∀ i, i < nrows tf →
      ∃ a q1 q2 d,
        findex tf !! i = Some (VStr a) ∧ avgs !! i = Some (VFloat q1) ∧
        days !! i = Some (VFloat q2) ∧ lasts !! i = Some (VDate d).
Proof.
  intros Hrun Hrows.
  destruct (transform_table _ _ _ _ _ _ _ _ _ _ _ Hrun Hrows)
    as (tf & avgs & days & lasts & Htf & Hlab & Havg & Hdays & Hlast & Hrow).
  exists tf, avgs, days, lasts. split_and!; [done..|].
  intros i Hi.
  destruct (lookup_lt_is_Some_2 (findex tf) i Hi) as [k Hk].
  destruct (proj1 (Hlab k) (list_elem_of_lookup_2 _ _ _ Hk)) as (a & -> & _).
  destruct (Hrow i a Hk) as (Ha & (v & Hv & Hof) & (v' & Hv' & Hof')).
  apply days_between_visits_of_store in Hof
    as (first & last & [Hin _] & _ & ->).
  apply last_visit_of_store in Hof' as (d & _ & ->).
  destruct (mean_nat_present
              ((λ d, count_qty (visit_rows rows a d))
                 <$> group_keys (store_dates rows a))) as [q1 Hq1].
  { apply elem_of_group_keys in Hin.
    destruct (group_keys (store_dates rows a)); [by apply elem_of_nil in Hin|].
    done. }
  rewrite Hq1 in Ha. by eexists a, q1, _, d.
Qed.

(** *** Errors of [build_cust_table] *)

Lemma transform_build_raise self dfl w rows e w1 :
  heap w !! dfl = Some (Txns rows) →
  build_cust_table (set_df (length (heap w)) self)
    (set_heap (heap w ++ [Txns rows]) w) = (Raise e, w1) →
  transform stdev KMeans_lib plot_clust_lib plot_ss_lib self dfl w
  = (Raise e, w1).
Proof.
  intros Hrows Hb. unfold transform.
  rewrite (bind_run _ _ _ _ _ (read_txns_run _ _ _ Hrows)).
  rewrite (bind_run _ _ _ (length (heap w))
             (set_heap (heap w ++ [Txns rows]) w)) by done.
  by apply bind_raise.
Qed.

Lemma build_raise self dfl w rows :
  heap w !! dfl = Some (Txns rows) →
  match files w !! "../data/SRP/custs_by_address.pkl" with
  | None => True
  | Some addr =>
      ∀ e, built_table_of rows addr = Raise e →
           ∃ w', transform stdev KMeans_lib plot_clust_lib plot_ss_lib
                   self dfl w = (Raise e, w')
                 ∧ only_heap w w'
  end.
Proof.
  intros Hrows.
  pose proof (build_cust_table_run (set_df (length (heap w)) self)
                (set_heap (heap w ++ [Txns rows]) w) (length (heap w)) rows
                eq_refl (lookup_snoc _ _)) as Hb.
  simpl in Hb.
  destruct (files w !! "../data/SRP/custs_by_address.pkl") as [addr|]; [|done].
  intros e He. unfold built_table_of in He.
  destruct (join (groupby_address1_mean rows) addr) as [t1|e1]; simpl in He.
  - rewrite He in Hb. destruct Hb as (w' & Hb & Hw').
    exists w'. split; [by eapply transform_build_raise|done].
  - injection He as ->. destruct Hb as (w' & Hb & Hw').
    exists w'. split; [by eapply transform_build_raise|done].
Qed.

Lemma built_raise self dfl w rows addr e :
  heap w !! dfl = Some (Txns rows) →
  files w !! "../data/SRP/custs_by_address.pkl" = Some addr →
  built_table_of rows addr = Raise e →
  ∃ w', transform stdev KMeans_lib plot_clust_lib plot_ss_lib self dfl w
        = (Raise e, w')
      ∧ only_heap w w'.
Proof.
  intros Hrows Hf He.
  pose proof (build_raise self dfl w rows Hrows) as Hb.
  rewrite Hf in Hb. by apply Hb.
Qed.

(** X7: without the address table under [../data/SRP/], [transform]
    raises the error of [read_pickle]; nothing has been written and
    [KMeans] has not been called. *)
Theorem transform_without_address_table self dfl w rows :
  heap w !! dfl = Some (Txns rows) →
  files w !! "../data/SRP/custs_by_address.pkl" = None →
  ∃ w', transform stdev KMeans_lib plot_clust_lib plot_ss_lib self dfl w
        = (Raise IOError, w')
      ∧ only_heap w w'.
Proof.
  intros Hrows Hf.
  pose proof (build_cust_table_run (set_df (length (heap w)) self)
                (set_heap (heap w ++ [Txns rows]) w) (length (heap w)) rows
                eq_refl (lookup_snoc _ _)) as Hb.
  simpl in Hb. rewrite Hf in Hb. destruct Hb as (w' & Hb & Hw').
  exists w'. split; [by eapply transform_build_raise|done].
Qed.

(** X8: an address table with a column named as one of the six columns
    of means, or [avg_UPC_per_visit], cannot be joined: [transform] raises
    [ValueError]; nothing has been written and [KMeans] has not been
    called. *)
Theorem transform_overlapping_columns self dfl w rows addr c :
  heap w !! dfl = Some (Txns rows) →
  files w !! "../data/SRP/custs_by_address.pkl" = Some addr →
  c ∈ columns addr → c ∈ joined_names →
  ∃ w', transform stdev KMeans_lib plot_clust_lib plot_ss_lib self dfl w
        = (Raise ValueError, w')
      ∧ only_heap w w'.
Proof.
  intros Hrows Hf Hc Hin.
  apply (built_raise self dfl w rows addr ValueError Hrows Hf).
  by apply (built_overlap rows addr c).
Qed.

(** X9: a store none of whose rows has a visit date makes [transform]
    raise [IndexError]: the store has a row in the customer table and no
    visit to take the first of.  Nothing has been written and [KMeans] has
    not been called. *)
Theorem transform_store_without_visit_date self dfl w rows addr a :
  heap w !! dfl = Some (Txns rows) →
  files w !! "../data/SRP/custs_by_address.pkl" = Some addr →
  (∀ c, c ∈ columns addr → c ∉ joined_names) →
  a ∈ address1 <$> rows →
  store_dates rows a = [] →
  ∃ w', transform stdev KMeans_lib plot_clust_lib plot_ss_lib self dfl w
        = (Raise IndexError, w')
      ∧ only_heap w w'.
Proof.
  intros Hrows Hf Hno Ha Hd.
  apply (built_raise self dfl w rows addr IndexError Hrows Hf).
  by apply (built_undated rows addr a).
Qed.

(** *** When [transform] returns, and when it does not *)






(** *** What is written, and when *)

Lemma keeps_std_cust_table self : keeps_files (_std_cust_table stdev self).
Proof. unfold _std_cust_table, StdScale_fit_transform. keeps. Qed.

Lemma keeps_KMeans_fit_predict k X :
  keeps_files (KMeans_fit_predict KMeans_lib k X).
Proof.
  unfold KMeans_fit_predict. keeps.
  apply keeps_state. intros [h f b g c]. by eexists _, _, _, _.
Qed.

#[local] Hint Resolve keeps_std_cust_table keeps_KMeans_fit_predict : keeps.

Lemma keeps_cluster self : keeps_files (_cluster KMeans_lib self).
Proof. unfold _cluster. keeps. Qed.

Lemma keeps_plot_clust self l : keeps_files (plot_clust plot_clust_lib self l).
Proof. unfold plot_clust. keeps. Qed.

Lemma keeps_plot_ss self l : keeps_files (plot_ss plot_ss_lib self l).
Proof. unfold plot_ss. keeps. Qed.

#[local] Hint Resolve keeps_cluster keeps_plot_clust keeps_plot_ss : keeps.

Lemma writes_last_transform self dfl :
  writes_last (transform stdev KMeans_lib plot_clust_lib plot_ss_lib self dfl).
Proof.
  unfold transform.
  repeat (apply writes_last_bind; [solve [keeps]|intros ?]).
  apply writes_last_to_pickle.
Qed.

(** X12: of the pickled tables under [../data/SRP/], [transform] writes
    one, [cust_table_out.pkl], and writes it as its last step: when it
    returns, that file holds the table it returns and the other tables are
    as they were; when it raises, whatever the error and wherever it came
    from, no table has been written.  (The image [plot_clust] saves is not
    a table, and is a matter of the plotting library.) *)
Theorem transform_writes_at_the_end self dfl w r w' :
  transform stdev KMeans_lib plot_clust_lib plot_ss_lib self dfl w = (r, w') →
  match r with
  | Ok (_, ct) =>
      ∃ tf, heap w' !! ct = Some (Table tf) ∧
            files w' = <["../data/SRP/cust_table_out.pkl" := tf]> (files w)
  | Raise _ => files w' = files w
  end.
Proof.
  intros Hrun. destruct r as [[self' ct]|e].
  - apply transform_ok in Hrun
      as (rows & addr & t1 & t & st & cols & X & pred & g & tf & stf
          & Hrows & Hfa & Hj & Ha & Hst & Hfc & HX & Hk & Htf & Hstf
          & -> & -> & Hheap & Hfiles & Hcalls).
    exists tf. split; [|done]. rewrite Hheap. by rewrite lookup_past.
  - by apply (writes_last_transform self dfl w _ w' e Hrun).
Qed.

End further.

(** ** run_cust_seg, with and without the saved table *)

Section further_run.
Context (stdev : list Q → Q) (KMeans_lib : nat → frame → lib (list nat)).
Context (plot_clust_lib : frame → list value → lib unit).
Context (plot_ss_lib : frame → lib unit).
Context (PublicData_lib : list txn → lib (list txn)).

Lemma run_cust_seg_ok df k pc ps w ct w' :
  run_cust_seg stdev KMeans_lib plot_clust_lib plot_ss_lib PublicData_lib
    df false k pc ps w = (Ok ct, w') →
  ∃ rows rows' g self',
    heap w !! df = Some (Txns rows) ∧
    PublicData_lib rows (rng w) = (Ok rows', g) ∧
    transform stdev KMeans_lib plot_clust_lib plot_ss_lib
      (CustSeg_init k pc ps) (length (heap w))
      (set_heap (heap w ++ [Txns rows']) (set_rng g w))
    = (Ok (self', ct), w').
Proof.
  intros H. unfold run_cust_seg in H.
  mstep H as dfp w1 Hp.
  unfold PublicData_fit_transform in Hp.
  mstep Hp as rows ? [Hrows ->]%read_txns_ok.
  mstep Hp as rows' w2 Hc.
  unfold call in Hc.
  destruct (PublicData_lib rows (rng w)) as [r g] eqn:Epub.
  injection Hc as -> <-.
  apply alloc_ok in Hp as [-> ->].
  mstep H as [self' ct'] w3 Ht.
  apply mret_ok in H as [-> ->].
  unfold fit_transform, fit in Ht.
  mstep Ht as ? ? [-> ->]%mret_ok.
  by exists rows, rows', g, self'.
Qed.

(** X13: the table [run_cust_seg] computes and returns can be had again
    from the file [transform] wrote: in the world the call leaves, a call
    with [load_table] set returns, in a new object, the same table,
    whatever dataframe, number of clusters and plot flags it is given, and
    computes nothing. *)
Theorem run_cust_seg_reloads_its_table df k pc ps w ct w' :
  run_cust_seg stdev KMeans_lib plot_clust_lib plot_ss_lib PublicData_lib
    df false k pc ps w = (Ok ct, w') →
  ∃ tf,
    heap w' !! ct = Some (Table tf) ∧
    ∀ df2 k2 pc2 ps2,
      run_cust_seg stdev KMeans_lib plot_clust_lib plot_ss_lib PublicData_lib
        df2 true k2 pc2 ps2 w'
      = (Ok (length (heap w')), set_heap (heap w' ++ [Table tf]) w').
Proof.
  intros H.
  apply run_cust_seg_ok in H as (rows & rows' & g0 & self' & Hrows & Hpub & Ht).
  apply transform_ok in Ht
    as (rows2 & addr & t1 & t & st & cols & X & pred & g & tf & stf
        & Hrows2 & Hfa & Hj & Ha & Hst & Hfc & HX & Hk & Htf & Hstf
        & -> & -> & Hheap & Hfiles & Hcalls).
  exists tf. split.
  - rewrite Hheap. by rewrite lookup_past.
  - intros df2 k2 pc2 ps2. unfold run_cust_seg, try_return, read_pickle.
    rewrite Hfiles, lookup_insert_eq. done.
Qed.

Lemma safe_run_cust_seg n df load_table k pc ps :
  safe n (run_cust_seg stdev KMeans_lib plot_clust_lib plot_ss_lib
            PublicData_lib df load_table k pc ps) (λ _, True).
Proof.
  assert (safe n
            (df_public ← PublicData_fit_transform PublicData_lib df;
             '(_, cust_table) ←
               fit_transform stdev KMeans_lib plot_clust_lib plot_ss_lib
                 (CustSeg_init k pc ps) df_public;
             mret cust_table) (λ _, True)) as Hrest.
  { eapply (safe_bind _ _ _ (λ _, True)).
    - unfold PublicData_fit_transform.
      eapply (safe_bind _ _ _ (λ _, True)); [apply safe_read_txns|].
      intros rows _.
      eapply (safe_bind _ _ _ (λ _, True)); [apply safe_call|]. intros rows' _.
      intros w r w' Hn Hrun.
      destruct (safe_alloc n (Txns rows') w r w' Hn Hrun) as [Hk _]. by split.
    - intros dfp _.
      eapply (safe_bind _ _ _ (λ _, True)).
      + unfold fit_transform, fit.
        eapply (safe_bind _ _ _ (λ _, True)); [by apply safe_ret|].
        intros self _. apply safe_transform.
      + intros [self' ct] _. by apply safe_ret. }
  unfold run_cust_seg. destruct load_table; [|exact Hrest].
  apply safe_try_return; [|exact Hrest].
  intros w r w' Hn Hrun.
  destruct (safe_read_pickle n _ w r w' Hn Hrun) as [Hk _]. by split.
Qed.

(** X14: [run_cust_seg] leaves the dataframe it is given, and every
    object that exists when it is called, as they are, whether it loads
    the table, computes it or raises: it hands the dataframe to
    [PublicData] and works on the table that comes back.  ([PublicData],
    which is not among the sources, is taken to make a table of its own
    from the rows it is given.) *)
Theorem run_cust_seg_keeps_objects df load_table k pc ps w r w' :
  run_cust_seg stdev KMeans_lib plot_clust_lib plot_ss_lib PublicData_lib
    df load_table k pc ps w = (r, w') →
  ∀ l o, heap w !! l = Some o → heap w' !! l = Some o.
Proof.
  intros Hrun l o Hl.
  destruct (safe_run_cust_seg (length (heap w)) df load_table k pc ps
              w r w' (le_n _) Hrun) as [[_ Hkeep] _].
  rewrite Hkeep; [done|]. by eapply lookup_lt_Some.
Qed.

End further_run.

(** ** The columns of the forecast model *)

Lemma prefix_app p s : String.prefix p s = true ↔ ∃ b, s = p +:+ b.
Proof.
  revert s. induction p as [|a p IH]; intros s.
  - destruct s; simpl; split; eauto.
  - destruct s as [|c s]; simpl.
    + split; [done|]. by intros [b Hb].
    + destruct (Ascii.ascii_dec a c) as [->|Hne].
      * rewrite IH. split; intros [b Hb]; exists b.
        -- by rewrite Hb.
        -- change (String c p +:+ b) with (String c (p +:+ b)) in Hb.
           congruence.
      * split; [done|]. intros [b Hb].
        change (String a p +:+ b) with (String a (p +:+ b)) in Hb.
        congruence.
Qed.

Lemma contains_app sub s :
  contains sub s = true ↔ ∃ a b, s = a +:+ sub +:+ b.
Proof.
  induction s as [|c s IH].
  - change (contains sub "") with (String.prefix sub "" || false).
    rewrite orb_false_r, prefix_app. split.
    + intros [b Hb]. by exists "", b.
    + intros (a & b & Hab). destruct a; [by exists b|done].
  - change (contains sub (String c s))
      with (String.prefix sub (String c s) || contains sub s).
    rewrite orb_true_iff, IH, prefix_app. split.
    + intros [[b Hb]|(a & b & Hab)].
      * by exists "", b.
      * exists (String c a), b. by rewrite Hab.
    + intros (a & b & Hab). destruct a as [|c' a].
      * left. by exists b.
      * right. exists a, b.
        change (String c' a +:+ sub +:+ b)
          with (String c' (a +:+ sub +:+ b)) in Hab.
        congruence.
Qed.

Lemma forc_cols_filter cols :
  forc_cols cols
  = forc_cols_init ++ filter (λ c, contains "customer_id" c = true) cols.
Proof.
  unfold forc_cols. generalize forc_cols_init as init.
  induction cols as [|c cols IH]; intros init; simpl.
  - by rewrite app_nil_r.
  - rewrite filter_cons. destruct (contains "customer_id" c) eqn:E.
    + rewrite IH, decide_True by done. by rewrite <- app_assoc.
    + rewrite IH, decide_False by done. done.
Qed.

(** X15: the columns [run_forc_model] hands to [Forecast]: the names
    written out, in their order, followed by the columns of [X_ss] whose
    name has [customer_id] somewhere in it, in the order of [X_ss]. *)
Theorem forc_cols_members cols :
  ∃ more,
    forc_cols cols = forc_cols_init ++ more ∧
    (∀ c, c ∈ more ↔ c ∈ cols ∧ ∃ a b, c = a +:+ "customer_id" +:+ b) ∧
    more `sublist_of` cols.
Proof.
  exists (filter (λ c, contains "customer_id" c = true) cols).
  split_and!; [apply forc_cols_filter| |apply sublist_filter].
  intros c. by rewrite list_elem_of_filter, contains_app, (comm and).
Qed.

(** X16: a [customer_id] column of [X_ss] that is already among the
    names written out is appended all the same: the list handed to
    [Forecast] names it twice. *)
Theorem forc_cols_names_twice cols c :
  c ∈ cols → c ∈ forc_cols_init → contains "customer_id" c = true →
  ∃ l1 l2 l3, forc_cols cols = l1 ++ c :: l2 ++ c :: l3.
Proof.
  intros Hc Hi Hs. rewrite forc_cols_filter.
  apply list_elem_of_split in Hi as (l1 & l2 & ->).
  assert (c ∈ filter (λ c, contains "customer_id" c = true) cols) as Hf
    by (by apply list_elem_of_filter).
  apply list_elem_of_split in Hf as (l3 & l4 & ->).
  exists l1, (l2 ++ l3), l4. by rewrite <- !app_assoc.
Qed.

(** ** The attributes transform leaves, and the files of run_cust_seg *)

Section further_objects.
Context (stdev : list Q → Q) (KMeans_lib : nat → frame → lib (list nat)).
Context (plot_clust_lib : frame → list value → lib unit).
Context (plot_ss_lib : frame → lib unit).

(** X17: the objects [transform] leaves on [self].  The table it returns
    is the very object [self.cust_table] names; [self.df] names a copy of
    the dataframe given, not the dataframe itself; [self.std_cust_table]
    names a third object, with the rows of the customer table.  The three
    were made by the call. *)
Theorem transform_attributes self dfl w self' ct w' rows :
  transform stdev KMeans_lib plot_clust_lib plot_ss_lib self dfl w
    = (Ok (self', ct), w') →
  heap w !! dfl = Some (Txns rows) →
  ∃ cp sl tf stf,
    df self' = Some cp ∧ cust_table self' = Some ct ∧
    std_cust_table self' = Some sl ∧
    cp ≠ dfl ∧ cp ≠ ct ∧ cp ≠ sl ∧ ct ≠ sl ∧
    heap w !! cp = None ∧ heap w !! ct = None ∧ heap w !! sl = None ∧
    heap w' !! cp = Some (Txns rows) ∧
    heap w' !! ct = Some (Table tf) ∧
    heap w' !! sl = Some (Table stf) ∧
    findex stf = findex tf ∧
    clusters self' = clusters self.
Proof.
  intros Hrun Hrows.
  apply transform_ok in Hrun
    as (rows' & addr & t1 & t & st & cols & X & pred & g & tf & stf
        & Hrows' & Hfa & Hj & Ha & Hst & Hfc & HX & Hk & Htf & Hstf
        & -> & -> & Hheap & Hfiles & Hcalls).
  assert (rows' = rows) as -> by congruence.
  pose proof (lookup_lt_Some _ _ _ Hrows) as Hlt.
  exists (length (heap w)), (length (heap w) + 6), tf, stf. simpl.
  split_and!; try done; try lia.
  - apply lookup_ge_None. lia.
  - apply lookup_ge_None. lia.
  - apply lookup_ge_None. lia.
  - rewrite Hheap. by rewrite lookup_past0.
  - rewrite Hheap. by rewrite lookup_past.
  - rewrite Hheap. by rewrite lookup_past.
  - destruct (with_cluster_ok _ _ _ Htf) as (-> & _).
    destruct (with_cluster_ok _ _ _ Hstf) as (-> & _).
    by apply StdScale_transform_index in Hst.
Qed.

(** X20: the clustering has no part in the rest of the customer table.
    Two runs of [transform] on dataframes with the same rows and with the
    same address table return tables with the same rows and, the column
    [cluster] apart, the same columns, whatever the number of clusters,
    the state of the random generator and the labels [KMeans] gives in
    each. *)
Theorem cust_table_but_cluster
    self1 df1 w1 self1' ct1 w1' self2 df2 w2 self2' ct2 w2' rows :
  transform stdev KMeans_lib plot_clust_lib plot_ss_lib self1 df1 w1
    = (Ok (self1', ct1), w1') →
  transform stdev KMeans_lib plot_clust_lib plot_ss_lib self2 df2 w2
    = (Ok (self2', ct2), w2') →
  heap w1 !! df1 = Some (Txns rows) →
  heap w2 !! df2 = Some (Txns rows) →
  files w1 !! "../data/SRP/custs_by_address.pkl"
    = files w2 !! "../data/SRP/custs_by_address.pkl" →
  ∃ tf1 tf2,
    heap w1' !! ct1 = Some (Table tf1) ∧
    heap w2' !! ct2 = Some (Table tf2) ∧
    findex tf1 = findex tf2 ∧
    ∀ c, c ≠ "cluster" → get_col c tf1 = get_col c tf2.
Proof.
  intros Hrun1 Hrun2 Hrows1 Hrows2 Hfiles.
  apply transform_ok in Hrun1
    as (rows1 & addr1 & t1 & t & st & cols & X & pred & g & tf & stf
        & Hr1 & Hfa1 & Hj1 & Ha1 & _ & _ & _ & _ & Htf1 & _
        & -> & -> & Hheap1 & _ & _).
  apply transform_ok in Hrun2
    as (rows2 & addr2 & t1' & t' & st' & cols' & X' & pred' & g' & tf' & stf'
        & Hr2 & Hfa2 & Hj2 & Ha2 & _ & _ & _ & _ & Htf2 & _
        & -> & -> & Hheap2 & _ & _).
  assert (rows1 = rows) as -> by congruence.
  assert (rows2 = rows) as -> by congruence.
  assert (addr2 = addr1) as -> by congruence.
  assert (t1' = t1) as -> by congruence.
  assert (t' = t) as -> by congruence.
  destruct (with_cluster_ok _ _ _ Htf1) as (Hi1 & _ & _ & Hc1).
  destruct (with_cluster_ok _ _ _ Htf2) as (Hi2 & _ & _ & Hc2).
  exists tf, tf'. split_and!.
  - rewrite Hheap1. by rewrite lookup_past.
  - rewrite Hheap2. by rewrite lookup_past.
  - congruence.
  - intros c Hc. by rewrite (Hc1 c Hc), (Hc2 c Hc).
Qed.

End further_objects.

Lemma writes_last_then {A B} (m : M A) (k : A → M B) :
  writes_last m → (∀ a, ∃ b, k a = mret b) → writes_last (m ≫= k).
Proof.
  intros Hm Hk w r w' e Hrun ->. unfold mbind, M_bind in Hrun.
  destruct (m w) as [[a|e'] w1] eqn:E.
  - destruct (Hk a) as [b Hb]. by rewrite Hb in Hrun.
  - injection Hrun as _ <-. by eapply Hm.
Qed.

Lemma writes_last_try_return {A} (m rest : M A) :
  keeps_files m → writes_last rest → writes_last (try_return m rest).
Proof.
  intros Hm Hr w r w' e Hrun ->. unfold try_return in Hrun.
  destruct (m w) as [[a|e'] w1] eqn:E; [done|].
  rewrite (Hr _ _ _ _ Hrun eq_refl). by eapply Hm.
Qed.

Lemma keeps_PublicData_fit_transform PublicData_lib df :
  keeps_files (PublicData_fit_transform PublicData_lib df).
Proof. unfold PublicData_fit_transform. keeps. Qed.

Section further_files.
Context (stdev : list Q → Q) (KMeans_lib : nat → frame → lib (list nat)).
Context (plot_clust_lib : frame → list value → lib unit).
Context (plot_ss_lib : frame → lib unit).
Context (PublicData_lib : list txn → lib (list txn)).

Lemma writes_last_run_cust_seg df load_table k pc ps :
  writes_last (run_cust_seg stdev KMeans_lib plot_clust_lib plot_ss_lib
                 PublicData_lib df load_table k pc ps).
Proof.
  assert (writes_last
            (df_public ← PublicData_fit_transform PublicData_lib df;
             '(_, cust_table) ←
               fit_transform stdev KMeans_lib plot_clust_lib plot_ss_lib
                 (CustSeg_init k pc ps) df_public;
             mret cust_table)) as Hrest.
  { apply writes_last_bind; [apply keeps_PublicData_fit_transform|].
    intros dfp.
    apply writes_last_then; [|intros [self' ct]; by eexists].
    unfold fit_transform, fit.
    apply writes_last_bind; [apply keeps_ret|]. intros self.
    apply writes_last_transform. }
  unfold run_cust_seg. destruct load_table; [|exact Hrest].
  apply writes_last_try_return; [apply keeps_read_pickle|exact Hrest].
Qed.

(** X18: the pickled tables of [run_cust_seg].  Of the tables under
    [../data/SRP/] it writes none but [cust_table_out.pkl]; it writes none
    when it raises, and none when it is asked to load the table and the
    table is there.  ([PublicData], which is not among the sources, is
    taken to write no table.) *)
Theorem run_cust_seg_files df load_table k pc ps w r w' :
  run_cust_seg stdev KMeans_lib plot_clust_lib plot_ss_lib PublicData_lib
    df load_table k pc ps w = (r, w') →
  (∀ p, p ≠ "../data/SRP/cust_table_out.pkl" →
        files w' !! p = files w !! p) ∧
  (∀ e, r = Raise e → files w' = files w) ∧
  (load_table = true →
   is_Some (files w !! "../data/SRP/cust_table_out.pkl") →
   files w' = files w).
Proof.
  intros Hrun.
  assert (load_table = true →
          is_Some (files w !! "../data/SRP/cust_table_out.pkl") →
          files w' = files w) as Hhit.
  { intros -> [t Ht]. unfold run_cust_seg, try_return, read_pickle in Hrun.
    rewrite Ht in Hrun. by injection Hrun as _ <-. }
  split_and!; [|intros e He; exact (writes_last_run_cust_seg
                                     df load_table k pc ps w r w' e Hrun He)
              |done].
  intros p Hp. destruct r as [ct|e].
  2:{ by rewrite (writes_last_run_cust_seg df load_table k pc ps w _ w' e
                    Hrun eq_refl). }
  destruct load_table.
  - unfold run_cust_seg, try_return in Hrun.
    destruct (read_pickle "../data/SRP/cust_table_out.pkl" w)
      as [[l|e] w1] eqn:Er.
    + injection Hrun as _ <-. by rewrite (keeps_read_pickle _ _ _ _ Er).
    + assert (w1 = w) as ->.
      { unfold read_pickle in Er.
        destruct (files w !! _); [by unfold alloc in Er|by injection Er]. }
      apply run_cust_seg_ok in Hrun
        as (rows & rows' & g0 & self' & Hrows & Hpub & Ht).
      apply transform_ok in Ht as (? & ? & ? & ? & ? & ? & ? & ? & ? & tf & ?
                                   & _ & _ & _ & _ & _ & _ & _ & _ & _ & _
                                   & _ & _ & _ & Hfiles & _).
      rewrite Hfiles. simpl. by rewrite lookup_insert_ne.
  - apply run_cust_seg_ok in Hrun
      as (rows & rows' & g0 & self' & Hrows & Hpub & Ht).
    apply transform_ok in Ht as (? & ? & ? & ? & ? & ? & ? & ? & ? & tf & ?
                                 & _ & _ & _ & _ & _ & _ & _ & _ & _ & _
                                 & _ & _ & _ & Hfiles & _).
    rewrite Hfiles. simpl. by rewrite lookup_insert_ne.
Qed.

End further_files.

(** ** The head of run_forc_model *)

Section further_forecast.
Context (CreateLag_lib PublicData_lib : list txn → lib (list txn)).

(** X19: the data [run_forc_model] works on.  Asked to load them, it
    takes the saved table when it is there, whatever dataframe it is given,
    and calls neither [CreateLag] nor [PublicData]; when the table cannot
    be read the error goes no further, and the call goes on as it does when
    not asked to load. *)
Theorem run_forc_model_saved_data df w :
  (∀ t,
     files w !! "../data/SRP/clean_data_public_no_crime_lag2_by_store_300k.pkl"
       = Some t →
     run_forc_model_df_public CreateLag_lib PublicData_lib df true w
     = (Ok (length (heap w)), set_heap (heap w ++ [Table t]) w)) ∧
  (files w !! "../data/SRP/clean_data_public_no_crime_lag2_by_store_300k.pkl"
     = None →
   run_forc_model_df_public CreateLag_lib PublicData_lib df true w
   = run_forc_model_df_public CreateLag_lib PublicData_lib df false w) ∧
  run_forc_model_df_public CreateLag_lib PublicData_lib df false w
  = (df_lag ← CreateLag_fit_transform CreateLag_lib df;
     PublicData_fit_transform PublicData_lib df_lag) w.
Proof.
  split_and!.
  - intros t Ht. unfold run_forc_model_df_public, try_option, read_pickle.
    unfold mbind, M_bind. by rewrite Ht.
  - intros Hn. unfold run_forc_model_df_public, try_option, read_pickle.
    unfold mbind, M_bind. by rewrite Hn.
  - done.
Qed.

End further_forecast.

(** ** The further properties on the scenario *)


Lemma ex_run_cust_seg_ok :
  run_cust_seg ex_stdev ex_kmeans ex_plot_clust ex_plot_ss ex_PublicData
    0 false 2 false false ex_world
  = (Ok 6, ex_run_cust_seg.2).
Proof. vm_compute. reflexivity. Defined.

Lemma ex_addr_names : ∀ c, c ∈ columns ex_addr → c ∉ joined_names.
Proof.
  apply Forall_forall. apply (bool_decide_unpack _). vm_compute. exact I.
Defined.



Lemma cust_table_mean_columns_witness :
  ex_run = (Ok (ex_self', 5), ex_run.2) ∧
  heap ex_world !! 0 = Some (Txns ex_rows) ∧
  ∃ tf,
    heap ex_run.2 !! 5 = Some (Table tf) ∧
    ∀ n f, (n, f) ∈ mean_columns →
      ∃ vs, get_col n tf = Ok (Column n float64 vs) ∧
            ∀ i a, findex tf !! i = Some (VStr a) →
              vs !! i
              = Some (cell (mean (f <$> filter (λ r, address1 r = a) ex_rows))).
Proof.
  split; [exact ex_run_ok|]. split; [reflexivity|].
  exact (cust_table_mean_columns ex_stdev ex_kmeans ex_plot_clust ex_plot_ss
           ex_CustSeg 0 ex_world ex_self' 5 ex_run.2 ex_rows
           ex_run_ok eq_refl).
Defined.

Lemma cust_table_rows_in_order_witness :
  ex_run = (Ok (ex_self', 5), ex_run.2) ∧
  heap ex_world !! 0 = Some (Txns ex_rows) ∧
  files ex_world !! "../data/SRP/custs_by_address.pkl" = Some ex_addr ∧
  ∃ tf adds,
    heap ex_run.2 !! 5 = Some (Table tf) ∧
    StronglySorted klt adds ∧
    (∀ a, a ∈ adds ↔ a ∈ address1 <$> ex_rows) ∧
    findex tf
    = concat ((λ a, replicate (Nat.max 1 (occurrences (VStr a) (findex ex_addr)))
                      (VStr a)) <$> adds).
Proof.
  split; [exact ex_run_ok|]. split; [reflexivity|]. split; [reflexivity|].
  exact (cust_table_rows_in_order ex_stdev ex_kmeans ex_plot_clust ex_plot_ss
           ex_CustSeg 0 ex_world ex_self' 5 ex_run.2 ex_rows ex_addr
           ex_run_ok eq_refl eq_refl).
Defined.

Lemma cust_table_columns_witness :
  ex_run = (Ok (ex_self', 5), ex_run.2) ∧
  files ex_world !! "../data/SRP/custs_by_address.pkl" = Some ex_addr ∧
  ("days_between_visits" ∉ columns ex_addr) ∧
  ("last_visit" ∉ columns ex_addr) ∧
  ("cluster" ∉ columns ex_addr) ∧
  ∃ tf,
    heap ex_run.2 !! 5 = Some (Table tf) ∧
    columns tf
    = ["qty_shrink_per_day"; "shrink_value_per_day"; "POP2010"; "FD_ratio";
       "unemp_rate"; "dens_sq_mile"]
      ++ kept_columns (columns ex_addr)
      ++ ["avg_UPC_per_visit"; "days_between_visits"; "last_visit"; "cluster"].
Proof.
  assert ("days_between_visits" ∉ columns ex_addr) as H1
    by (apply (bool_decide_unpack _); vm_compute; exact I).
  assert ("last_visit" ∉ columns ex_addr) as H2
    by (apply (bool_decide_unpack _); vm_compute; exact I).
  assert ("cluster" ∉ columns ex_addr) as H3
    by (apply (bool_decide_unpack _); vm_compute; exact I).
  split; [exact ex_run_ok|]. split; [reflexivity|].
  split; [exact H1|]. split; [exact H2|]. split; [exact H3|].
  exact (cust_table_columns ex_stdev ex_kmeans ex_plot_clust ex_plot_ss
           ex_CustSeg 0 ex_world ex_self' 5 ex_run.2 ex_addr
           ex_run_ok eq_refl H1 H2 H3).
Defined.

Lemma cust_table_coordinates_witness :
  ex_run = (Ok (ex_self', 5), ex_run.2) ∧
  files ex_world !! "../data/SRP/custs_by_address.pkl" = Some ex_addr ∧
  ∃ tf,
    heap ex_run.2 !! 5 = Some (Table tf) ∧
    ("latitude" ∉ columns tf) ∧
    ("longitude" ∈ columns tf
     ↔ "longitude" ∈ columns ex_addr ∧ "latitude" ∉ columns ex_addr).
Proof.
  split; [exact ex_run_ok|]. split; [reflexivity|].
  exact (cust_table_coordinates ex_stdev ex_kmeans ex_plot_clust ex_plot_ss
           ex_CustSeg 0 ex_world ex_self' 5 ex_run.2 ex_addr
           ex_run_ok eq_refl).
Defined.

Lemma days_between_visits_sign_witness :
  ex_run = (Ok (ex_self', 5), ex_run.2) ∧
  heap ex_world !! 0 = Some (Txns ex_rows) ∧
  ∃ tf days,
    heap ex_run.2 !! 5 = Some (Table tf) ∧
    get_col "days_between_visits" tf
      = Ok (Column "days_between_visits" float64 days) ∧
    ∀ i a, findex tf !! i = Some (VStr a) →
      ∃ q, days !! i = Some (VFloat q) ∧ (0 <= q)%Q ∧
           ((q == 0)%Q ↔
            ∀ d d', d ∈ store_dates ex_rows a → d' ∈ store_dates ex_rows a →
                    d = d').
Proof.
  split; [exact ex_run_ok|]. split; [reflexivity|].
  exact (days_between_visits_sign ex_stdev ex_kmeans ex_plot_clust ex_plot_ss
           ex_CustSeg 0 ex_world ex_self' 5 ex_run.2 ex_rows
           ex_run_ok eq_refl).
Defined.

Lemma derived_columns_present_witness :
  ex_run = (Ok (ex_self', 5), ex_run.2) ∧
  heap ex_world !! 0 = Some (Txns ex_rows) ∧
  ∃ tf avgs days lasts,
    heap ex_run.2 !! 5 = Some (Table tf) ∧
    get_col "avg_UPC_per_visit" tf
      = Ok (Column "avg_UPC_per_visit" float64 avgs) ∧
    get_col "days_between_visits" tf
      = Ok (Column "days_between_visits" float64 days) ∧
    get_col "last_visit" tf = Ok (Column "last_visit" datetime64 lasts) ∧
    ∀ i, i < nrows tf →
      ∃ a q1 q2 d,
        findex tf !! i = Some (VStr a) ∧ avgs !! i = Some (VFloat q1) ∧
        days !! i = Some (VFloat q2) ∧ lasts !! i = Some (VDate d).
Proof.
  split; [exact ex_run_ok|]. split; [reflexivity|].
  exact (derived_columns_present ex_stdev ex_kmeans ex_plot_clust ex_plot_ss
           ex_CustSeg 0 ex_world ex_self' 5 ex_run.2 ex_rows
           ex_run_ok eq_refl).
Defined.

Lemma transform_without_address_table_witness :
  heap ex_world_no_address !! 0 = Some (Txns ex_rows) ∧
  files ex_world_no_address !! "../data/SRP/custs_by_address.pkl" = None ∧
  ∃ w', transform ex_stdev ex_kmeans ex_plot_clust ex_plot_ss ex_CustSeg 0
          ex_world_no_address = (Raise IOError, w')
      ∧ only_heap ex_world_no_address w'.
Proof.
  split; [reflexivity|]. split; [reflexivity|].
  exact (transform_without_address_table ex_stdev ex_kmeans ex_plot_clust
           ex_plot_ss ex_CustSeg 0 ex_world_no_address ex_rows
           eq_refl eq_refl).
Defined.

Lemma transform_overlapping_columns_witness :
  heap ex_world_overlap !! 0 = Some (Txns ex_rows) ∧
  files ex_world_overlap !! "../data/SRP/custs_by_address.pkl"
    = Some ex_addr_overlap ∧
  "POP2010" ∈ columns ex_addr_overlap ∧
  "POP2010" ∈ joined_names ∧
  ∃ w', transform ex_stdev ex_kmeans ex_plot_clust ex_plot_ss ex_CustSeg 0
          ex_world_overlap = (Raise ValueError, w')
      ∧ only_heap ex_world_overlap w'.
Proof.
  assert ("POP2010" ∈ columns ex_addr_overlap) as H1
    by (apply (bool_decide_unpack _); vm_compute; exact I).
  assert ("POP2010" ∈ joined_names) as H2
    by (apply (bool_decide_unpack _); vm_compute; exact I).
  split; [reflexivity|]. split; [reflexivity|].
  split; [exact H1|]. split; [exact H2|].
  exact (transform_overlapping_columns ex_stdev ex_kmeans ex_plot_clust
           ex_plot_ss ex_CustSeg 0 ex_world_overlap ex_rows ex_addr_overlap
           "POP2010" eq_refl eq_refl H1 H2).
Defined.

Lemma transform_store_without_visit_date_witness :
  heap ex_world_undated !! 0 = Some (Txns ex_rows_undated) ∧
  files ex_world_undated !! "../data/SRP/custs_by_address.pkl" = Some ex_addr ∧
  (∀ c, c ∈ columns ex_addr → c ∉ joined_names) ∧
  "9 Ash Ct" ∈ address1 <$> ex_rows_undated ∧
  store_dates ex_rows_undated "9 Ash Ct" = [] ∧
  ∃ w', transform ex_stdev ex_kmeans ex_plot_clust ex_plot_ss ex_CustSeg 0
          ex_world_undated = (Raise IndexError, w')
      ∧ only_heap ex_world_undated w'.
Proof.
  assert ("9 Ash Ct" ∈ address1 <$> ex_rows_undated) as H1
    by (apply (bool_decide_unpack _); vm_compute; exact I).
  split; [reflexivity|]. split; [reflexivity|].
  split; [exact ex_addr_names|]. split; [exact H1|]. split; [reflexivity|].
  exact (transform_store_without_visit_date ex_stdev ex_kmeans ex_plot_clust
           ex_plot_ss ex_CustSeg 0 ex_world_undated ex_rows_undated ex_addr
           "9 Ash Ct" eq_refl eq_refl ex_addr_names H1 eq_refl).
Defined.



Lemma transform_writes_at_the_end_witness :
  ex_run = (Ok (ex_self', 5), ex_run.2) ∧
  ∃ tf, heap ex_run.2 !! 5 = Some (Table tf) ∧
        files ex_run.2
        = <["../data/SRP/cust_table_out.pkl" := tf]> (files ex_world).
Proof.
  split; [exact ex_run_ok|].
  exact (transform_writes_at_the_end ex_stdev ex_kmeans ex_plot_clust
           ex_plot_ss ex_CustSeg 0 ex_world (Ok (ex_self', 5)) ex_run.2
           ex_run_ok).
Defined.

Lemma run_cust_seg_reloads_its_table_witness :
  ex_run_cust_seg = (Ok 6, ex_run_cust_seg.2) ∧
  ∃ tf,
    heap ex_run_cust_seg.2 !! 6 = Some (Table tf) ∧
    ∀ df2 k2 pc2 ps2,
      run_cust_seg ex_stdev ex_kmeans ex_plot_clust ex_plot_ss ex_PublicData
        df2 true k2 pc2 ps2 ex_run_cust_seg.2
      = (Ok (length (heap ex_run_cust_seg.2)),
         set_heap (heap ex_run_cust_seg.2 ++ [Table tf]) ex_run_cust_seg.2).
Proof.
  split; [exact ex_run_cust_seg_ok|].
  exact (run_cust_seg_reloads_its_table ex_stdev ex_kmeans ex_plot_clust
           ex_plot_ss ex_PublicData 0 2 false false ex_world 6
           ex_run_cust_seg.2 ex_run_cust_seg_ok).
Defined.

Lemma run_cust_seg_keeps_objects_witness :
  ex_run_cust_seg = (Ok 6, ex_run_cust_seg.2) ∧
  ∀ l o, heap ex_world !! l = Some o → heap ex_run_cust_seg.2 !! l = Some o.
Proof.
  split; [exact ex_run_cust_seg_ok|].
  exact (run_cust_seg_keeps_objects ex_stdev ex_kmeans ex_plot_clust
           ex_plot_ss ex_PublicData 0 false 2 false false ex_world (Ok 6)
           ex_run_cust_seg.2 ex_run_cust_seg_ok).
Defined.

Lemma forc_cols_names_twice_witness :
  "customer_id_2139" ∈ ex_X_ss_columns ∧
  "customer_id_2139" ∈ forc_cols_init ∧
  contains "customer_id" "customer_id_2139" = true ∧
  ∃ l1 l2 l3,
    forc_cols ex_X_ss_columns
    = l1 ++ "customer_id_2139" :: l2 ++ "customer_id_2139" :: l3.
Proof.
  assert ("customer_id_2139" ∈ ex_X_ss_columns) as H1
    by (apply (bool_decide_unpack _); vm_compute; exact I).
  assert ("customer_id_2139" ∈ forc_cols_init) as H2
    by (apply (bool_decide_unpack _); vm_compute; exact I).
  split; [exact H1|]. split; [exact H2|]. split; [reflexivity|].
  exact (forc_cols_names_twice ex_X_ss_columns "customer_id_2139"
           H1 H2 eq_refl).
Defined.

Lemma transform_attributes_witness :
  ex_run = (Ok (ex_self', 5), ex_run.2) ∧
  heap ex_world !! 0 = Some (Txns ex_rows) ∧
  ∃ cp sl tf stf,
    df ex_self' = Some cp ∧ cust_table ex_self' = Some 5 ∧
    std_cust_table ex_self' = Some sl ∧
    cp ≠ 0 ∧ cp ≠ 5 ∧ cp ≠ sl ∧ 5 ≠ sl ∧
    heap ex_world !! cp = None ∧ heap ex_world !! 5 = None ∧
    heap ex_world !! sl = None ∧
    heap ex_run.2 !! cp = Some (Txns ex_rows) ∧
    heap ex_run.2 !! 5 = Some (Table tf) ∧
    heap ex_run.2 !! sl = Some (Table stf) ∧
    findex stf = findex tf ∧
    clusters ex_self' = clusters ex_CustSeg.
Proof.
  split; [exact ex_run_ok|]. split; [reflexivity|].
  exact (transform_attributes ex_stdev ex_kmeans ex_plot_clust ex_plot_ss
           ex_CustSeg 0 ex_world ex_self' 5 ex_run.2 ex_rows
           ex_run_ok eq_refl).
Defined.

Lemma run_cust_seg_files_witness :
  ex_run_cust_seg = (Ok 6, ex_run_cust_seg.2) ∧
  (∀ p, p ≠ "../data/SRP/cust_table_out.pkl" →
        files ex_run_cust_seg.2 !! p = files ex_world !! p) ∧
  (∀ e, Ok 6 = Raise e → files ex_run_cust_seg.2 = files ex_world) ∧
  (false = true →
   is_Some (files ex_world !! "../data/SRP/cust_table_out.pkl") →
   files ex_run_cust_seg.2 = files ex_world).
Proof.
  split; [exact ex_run_cust_seg_ok|].
  exact (run_cust_seg_files ex_stdev ex_kmeans ex_plot_clust ex_plot_ss
           ex_PublicData 0 false 2 false false ex_world (Ok 6)
           ex_run_cust_seg.2 ex_run_cust_seg_ok).
Defined.

Lemma cust_table_but_cluster_witness :
  ex_run = (Ok (ex_self', 5), ex_run.2) ∧
  ex_run2 = (Ok (ex_self2', 7), ex_run2.2) ∧
  heap ex_world !! 0 = Some (Txns ex_rows) ∧
  heap ex_world2 !! 2 = Some (Txns ex_rows) ∧
  files ex_world !! "../data/SRP/custs_by_address.pkl"
    = files ex_world2 !! "../data/SRP/custs_by_address.pkl" ∧
  ∃ tf1 tf2,
    heap ex_run.2 !! 5 = Some (Table tf1) ∧
    heap ex_run2.2 !! 7 = Some (Table tf2) ∧
    findex tf1 = findex tf2 ∧
    ∀ c, c ≠ "cluster" → get_col c tf1 = get_col c tf2.
Proof.
  assert (files ex_world !! "../data/SRP/custs_by_address.pkl"
          = files ex_world2 !! "../data/SRP/custs_by_address.pkl") as Hf
    by (vm_compute; reflexivity).
  split; [exact ex_run_ok|]. split; [exact ex_run2_ok|].
  split; [reflexivity|]. split; [reflexivity|]. split; [exact Hf|].
  exact (cust_table_but_cluster ex_stdev ex_kmeans ex_plot_clust ex_plot_ss
           ex_CustSeg 0 ex_world ex_self' 5 ex_run.2
           ex_self' 2 ex_world2 ex_self2' 7 ex_run2.2 ex_rows
           ex_run_ok ex_run2_ok eq_refl eq_refl Hf).
Defined.
